(** * claude-waifu: price aggregation, caching, streaming and the
      client-side update/emotion pipeline.

    A shallow embedding of the TypeScript sources
      - src/app/api/token-price/route.ts      (module [TokenPrice])
      - the chart-data route                  (module [ChartData])
      - the ws-token SSE route                (module [WsToken])
      - src/lib/jupiter-client.ts             (modules [JupiterClient],
                                               [JupiterFetch])
      - src/components/waifu-tracker.tsx      (modules [Classifier],
                                               [Scheduler], [WaifuTracker],
                                               [TrackerFetch], [Chat])
      - src/app/api/generate-message/route.ts (module [GenerateMessage])
      - src/middleware.ts                     (module [Middleware])
      - the chat list and the landing form    (modules [Storage],
                                               [ChatList], [HomeHero])
    on top of [Js], [JsArray], [JsMap] (the idioms of the language) and
    [Upstream] (what the three providers can answer).

    Numbers.  Every number the modelled code compares comes out of a JSON
    document or out of [parseFloat(..) || 0], so it is a finite value; finite
    JavaScript numbers are rationals and their comparisons are exact, hence
    numbers are modelled by [Q] with the boolean comparisons of the Standard
    Library.  Products and quotients are exact in the model where the code
    rounds to the nearest double, except for the short-window move of the
    tracker ([WaifuTracker.shortMove]), whose value is compared with
    thresholds it can fall next to: there the two roundings of the machine
    are modelled ([Float64.fl]).  Clock readings ([Date.now()]) and timer
    delays are integral milliseconds, modelled by [Z].

    Effects.  A handler is a function from the variables it closes over to
    their new values and the list of what it does to the outside (events
    sent, callbacks called, timers armed); what the outside world answers
    ([fetch], the clock) is an argument.

    The first part of the file holds the embedding, the vocabulary of the
    specification and sample inputs; the second part the properties. *)

From Stdlib Require Import ZArith QArith Qabs Qround Qpower Bool List String.
From Stdlib Require Import Lia Lqa.
From Stdlib Require Import DecimalString Permutation Sorting.Sorted.
Import ListNotations.

(** * Part I: the embedding *)

(** ** JavaScript idioms shared by all the modules *)

Module Js.

Definition number := Q.

(** [a > b], [a >= b], [a < b], [a <= b], [a === b], [a !== b] on finite
    numbers. *)
Definition gt (a b : number) : bool := negb (Qle_bool a b).
Definition ge (a b : number) : bool := Qle_bool b a.
Definition lt (a b : number) : bool := gt b a.
Definition le (a b : number) : bool := ge b a.
Definition seq (a b : number) : bool := Qeq_bool a b.
Definition sne (a b : number) : bool := negb (Qeq_bool a b).

(** A field read from an untyped object: [None] is [undefined].  A
    comparison with [undefined] is [false] whatever the operator. *)
Definition gt_opt (a : option number) (b : number) : bool :=
  match a with Some x => gt x b | None => false end.
Definition le_opt (a : option number) (b : number) : bool :=
  match a with Some x => le x b | None => false end.

(** Truthiness of a number ([0] is falsy; [undefined] is falsy) and of a
    possibly absent string ([undefined], [null] and [""] are falsy). *)
Definition truthy_num (a : number) : bool := sne a 0.

Definition truthy_opt_num (a : option number) : bool :=
  match a with Some x => truthy_num x | None => false end.

Definition truthy_str (s : option string) : bool :=
  match s with
  | Some EmptyString => false
  | Some _ => true
  | None => false
  end.

(** [parseFloat(x) || 0]: a raw field that is absent or does not parse is
    [None] ([parseFloat] gives [NaN], which is falsy); [NaN] and [0] both
    end up as [0]. *)
Definition parseFloat_or0 (x : option number) : number :=
  match x with
  | Some q => q
  | None => 0
  end.

(** [x || 0] on an optional number *)
Definition num_or0 (x : option number) : number := parseFloat_or0 x.

(** [s || null] and [a || b] on possibly absent strings *)
Definition or_null (s : option string) : option string :=
  if truthy_str s then s else None.

Definition or_str (a b : option string) : option string :=
  if truthy_str a then a else b.

(** [Math.abs] *)
Definition abs (a : number) : number := Qabs a.

(** Template-literal rendering of an integer *)
Definition show (z : Z) : string := NilZero.string_of_int (Z.to_int z).

End Js.

(** ** Rounding to the nearest double

    The finite doubles are the numbers [m * 2^e] with [|m| <= 2^53] and
    [e >= -1074] (below the overflow threshold, which is left aside: a
    result beyond it is a finite number here and [Infinity] on the machine,
    and both compare alike with the thresholds of this program).  An
    arithmetic operation of the machine returns the double nearest to the
    exact result, the one with the even significand when two are equally
    near. *)

Module Float64.
Local Open Scope Q_scope.

Definition pow2 (e : Z) : Q := 2 ^ e.

(** [floor (log2 x)] for [x > 0] *)
Definition ilog2 (x : Q) : Z :=
  let l := (Z.log2 (Qnum x) - Z.log2 (Z.pos (Qden x)))%Z in
  if Qle_bool (pow2 l) x then l else (l - 1)%Z.

(** The nearest integer, the even one of two that are equally near *)
Definition rne (x : Q) : Z :=
  let n := Qnum x in
  let d := Z.pos (Qden x) in
  let q := (n / d)%Z in
  let r := (n mod d)%Z in
  if (2 * r <? d)%Z then q
  else if (d <? 2 * r)%Z then (q + 1)%Z
  else if Z.even q then q else (q + 1)%Z.

(** The exponent of the spacing of the doubles around [x > 0]: 53
    significant bits, and the spacing of the subnormals below [2^-1022] *)
Definition expo (x : Q) : Z := Z.max (-1074) (ilog2 x - 52).

Definition roundPos (x : Q) : Q :=
  inject_Z (rne (x / pow2 (expo x))) * pow2 (expo x).

(** The double nearest to [x] *)
Definition fl (x : Q) : Q :=
  match x ?= 0 with
  | Gt => roundPos x
  | Lt => - roundPos (- x)
  | Eq => 0
  end.

(** [x] is a double. *)
Definition isDouble (x : Q) : bool := Qeq_bool (fl x) x.

Definition onGrid (x : Q) : Prop :=
  exists m e : Z,
    (Z.abs m <= 2 ^ 53)%Z /\ (-1074 <= e)%Z /\ x == inject_Z m * pow2 e.

End Float64.

(** ** [Array.prototype.sort] with a comparator, and [Map] *)

Module JsArray.

Section Sort.
Variable A : Type.

(** [before y x = true] when the comparator puts [y] strictly before [x]
    (that is, [cmp(x, y) > 0]).  The sort of the language is stable: elements
    the comparator does not order keep their relative position. *)
Variable before : A -> A -> bool.

Fixpoint insert (x : A) (l : list A) : list A :=
  match l with
  | [] => [x]
  | y :: l' => if before y x then y :: insert x l' else x :: l
  end.

Definition sort (l : list A) : list A := fold_right insert [] l.

(** [x] may stand in front of [y]. *)
Definition inOrder (x y : A) : Prop := before y x = false.

End Sort.

Arguments insert {A} before x l.
Arguments sort {A} before l.
Arguments inOrder {A} before x y.

(** [arr.slice(-n)]: the last [n] elements *)
Definition slice_last {A : Type} (n : nat) (l : list A) : list A :=
  skipn (List.length l - n) l.

End JsArray.

(** A [Map<string, V>]: keys are unique and iteration follows insertion
    order; [set] on a key already present replaces the value in place. *)

Module JsMap.

Section Map.
Variable V : Type.

Definition t := list (string * V).

Definition empty : t := [].

Fixpoint get (k : string) (m : t) : option V :=
  match m with
  | [] => None
  | (k', v) :: m' => if String.eqb k k' then Some v else get k m'
  end.

Fixpoint set (k : string) (v : V) (m : t) : t :=
  match m with
  | [] => [(k, v)]
  | (k', v') :: m' =>
      if String.eqb k k' then (k', v) :: m' else (k', v') :: set k v m'
  end.

Definition size (m : t) : nat := List.length m.

Definition entries (m : t) : list (string * V) := m.

Definition keys (m : t) : list string := map fst m.

(** [entries.forEach(([key, value]) => cache.set(key, value))] after
    [cache.clear()] *)
Definition of_entries (l : list (string * V)) : t :=
  fold_left (fun m kv => set (fst kv) (snd kv) m) l empty.

End Map.

Arguments empty {V}.
Arguments get {V} k m.
Arguments set {V} k v m.
Arguments size {V} m.
Arguments entries {V} m.
Arguments keys {V} m.
Arguments of_entries {V} l.

End JsMap.

(** ** Emotion: the closed enumeration of waifu-tracker.tsx *)

Inductive Emotion : Type :=
  | happy | excited | neutral | worried | sad | angry.

Definition Emotion_eqb (a b : Emotion) : bool :=
  match a, b with
  | happy, happy | excited, excited | neutral, neutral
  | worried, worried | sad, sad | angry, angry => true
  | _, _ => false
  end.

(** [ref.current === e] where the ref may hold [null] *)
Definition opt_emotion_is (o : option Emotion) (e : Emotion) : bool :=
  match o with
  | Some a => Emotion_eqb a e
  | None => false
  end.

(** ** The classifiers of waifu-tracker.tsx *)

Module Classifier.
Import Js.
Local Open Scope Q_scope.

(** function getEmotionFromChange(change: number): Emotion *)
Definition getEmotionFromChange (change : number) : Emotion :=
  if gt change 20 then excited
  else if gt change 5 then happy
  else if gt change (-5) then neutral
  else if gt change (-15) then worried
  else if gt change (-30) then sad
  else angry.

(** function getEmotionFromShortMove(diffRatio: number): Emotion | null *)
Definition getEmotionFromShortMove (diffRatio : number) : option Emotion :=
  if ge diffRatio (1 # 100) then Some excited
  else if ge diffRatio (3 # 1000) then Some happy
  else if le diffRatio (- (1 # 100)) then Some angry
  else if le diffRatio (- (3 # 1000)) then Some sad
  else None.

End Classifier.

(** ** Upstream providers: what a [fetch] can come back with *)

Module Upstream.
Import Js.

(** The body of a response: [response.json()] either yields a document or
    throws. *)
Inductive Parsed (A : Type) : Type :=
  | BadJson (msg : string)
  | Doc (a : A).

(** [await fetch(url, ...)]: rejected (network failure, time-out), or a
    response with a status and a body. *)
Inductive HttpResult (A : Type) : Type :=
  | Rejected (msg : string)
  | Responded (status : Z) (body : Parsed A).

Arguments BadJson {A} msg.
Arguments Doc {A} a.
Arguments Rejected {A} msg.
Arguments Responded {A} status body.

(** [response.ok] *)
Definition ok (status : Z) : bool := (200 <=? status)%Z && (status <=? 299)%Z.

(** A status that admits no body *)
Definition nullBodyStatus (status : Z) : bool :=
  ((status =? 101) || (status =? 103) || (status =? 204) || (status =? 205)
   || (status =? 304))%Z.

(** [NextResponse.json(body, { status })] builds a response only for a
    status in 200..599 that admits a body; for any other status the
    constructor raises an exception instead.  [Some msg]: it raises, with
    the message of the exception as Node's [Response] words it; [None]: the
    response is built. *)
Definition refusal (status : Z) : option string :=
  if negb ((200 <=? status)%Z && (status <=? 599)%Z) then
    Some ("init[" ++ String (Ascii.ascii_of_nat 34) "status"
          ++ String (Ascii.ascii_of_nat 34)
               "] must be in the range of 200 to 599, inclusive.")%string
  else if nullBodyStatus status then
    Some ("Response constructor: Invalid response status code "
          ++ show status)%string
  else None.

(** One element of DexScreener's [pairs].  Numeric fields are kept as the
    provider sent them: [None] when missing or not parseable.  The price
    route reads the 24h change under [priceWaifuge.h24], the chart route
    under [priceChange.h24]. *)
Record DexPair : Type := {
  liquidityUsd : option number;
  priceUsd : option number;
  priceWaifugeH24 : option number;
  priceChangeH24 : option number;
  volumeH24 : option number;
  baseSymbol : option string;
  baseName : option string;
  fdv : option number;
  pairMarketCap : option number;
  pairAddress : option string
}.

(** DexScreener's document: [data?.pairs] *)
Record DexBody : Type := { pairs : option (list DexPair) }.

(** The comparator [(a, b) => (b.liquidity?.usd || 0) - (a.liquidity?.usd || 0)]
    puts [y] strictly before [x] when [y] has strictly more liquidity. *)
Definition more_liquid (y x : DexPair) : bool :=
  gt (num_or0 (liquidityUsd y)) (num_or0 (liquidityUsd x)).

Definition sortPairs (l : list DexPair) : list DexPair :=
  JsArray.sort more_liquid l.

(** Jupiter's entry [data.data[tokenAddress]] *)
Record JupPrice : Type := {
  jupPrice : option number;
  jupPriceWaifuge24h : option number;
  jupVolume24h : option number;
  jupSymbol : option string;
  jupName : option string
}.

(** Jupiter's document: [None] when [data?.data && data.data[tokenAddress]]
    is falsy. *)
Record JupBody : Type := { jupEntry : option JupPrice }.

(** Birdeye's price document.  [beValue] and [bePrice] are [None] when the
    field is [undefined], [Some raw] otherwise ([raw] as for the other
    numeric fields). *)
Record BirdeyeBody : Type := {
  beSuccess : bool;
  beValue : option (option number);
  bePrice : option (option number)
}.

Record OverviewData : Type := {
  ovPriceWaifuge24h : option number;
  ovVolume24h : option number
}.

(** Birdeye's overview document *)
Record OverviewBody : Type := {
  ovSuccess : bool;
  ovData : option OverviewData
}.

(** What the outside world answers for the address of one request.
    [escapes] is [true] when an exception is raised outside the provider
    blocks (each provider block catches its own). *)
Record World : Type := {
  dexscreener : HttpResult DexBody;
  jupiter : HttpResult JupBody;
  birdeyePrice : HttpResult BirdeyeBody;
  birdeyeOverview : HttpResult OverviewBody;
  BIRDEYE_API_KEY : option string;
  escapes : bool
}.

(** The document of a response that is [ok] and parses; every other outcome
    makes the surrounding [try] block fall through. *)
Definition okDoc {A : Type} (r : HttpResult A) : option A :=
  match r with
  | Responded status (Doc a) => if ok status then Some a else None
  | _ => None
  end.

(** [data?.pairs && data.pairs.length > 0], then [sortedPairs[0]] *)
Definition bestPair (b : DexBody) : option DexPair :=
  match pairs b with
  | Some (p :: ps) =>
      match sortPairs (p :: ps) with
      | best :: _ => Some best
      | [] => None
      end
  | _ => None
  end.

(** Birdeye's price:
    [if (data?.success && data.data?.value !== undefined) .. else if
     (data?.data?.price !== undefined) ..]; [None] when neither branch
    assigns. *)
Definition birdeyeAssigned (b : BirdeyeBody) : option number :=
  match beSuccess b, beValue b with
  | true, Some raw => Some (parseFloat_or0 raw)
  | _, _ =>
      match bePrice b with
      | Some raw => Some (parseFloat_or0 raw)
      | None => None
      end
  end.

(** The overview's pair [(change24h, volume24h)] when the best-effort
    request succeeded with [overviewData?.success && overviewData.data]. *)
Definition overviewStats (r : HttpResult OverviewBody)
  : option (number * number) :=
  match okDoc r with
  | Some o =>
      match ovSuccess o, ovData o with
      | true, Some d =>
          Some (parseFloat_or0 (ovPriceWaifuge24h d),
                parseFloat_or0 (ovVolume24h d))
      | _, _ => None
      end
  | None => None
  end.

End Upstream.

(** ** src/app/api/token-price/route.ts *)

Module TokenPrice.
Import Js Upstream.
Local Open Scope Q_scope.

Inductive Source : Type := dexscreener_src | jupiter_src | birdeye_src.

Record PriceBody : Type := {
  success : bool;
  source : option Source;
  price : number;
  change24h : number;
  volume24h : number;
  tokenSymbol : option string;
  tokenName : option string
}.

Inductive Body : Type :=
  | ErrorBody (error : string)
  | Price (b : PriceBody).

(** [NextResponse.json(body, { status })]; the status defaults to 200. *)
Record Response : Type := { status : Z; body : Body }.

Definition json (b : PriceBody) : Response :=
  {| status := 200; body := Price b |}.

(** Method 1.  Returns the response when the block returns one, and the
    values left in [dexTokenSymbol] / [dexTokenName]. *)
Definition tryDexScreener (w : World)
  : option Response * option string * option string :=
  match okDoc (dexscreener w) with
  | Some data =>
      match bestPair data with
      | Some bestPair =>
          let price := parseFloat_or0 (priceUsd bestPair) in
          let change24h := parseFloat_or0 (priceWaifugeH24 bestPair) in
          let volume24h := parseFloat_or0 (volumeH24 bestPair) in
          let tokenSymbol := or_null (baseSymbol bestPair) in
          let tokenName := or_null (baseName bestPair) in
          if gt price 0 then
            (Some (json {| success := true; source := Some dexscreener_src;
                           price := price; change24h := change24h;
                           volume24h := volume24h;
                           tokenSymbol := tokenSymbol;
                           tokenName := tokenName |}),
             tokenSymbol, tokenName)
          else (None, tokenSymbol, tokenName)
      | None => (None, None, None)
      end
  | None => (None, None, None)
  end.

(** Method 2 *)
Definition tryJupiter (w : World) (dexTokenSymbol dexTokenName : option string)
  : option Response :=
  match okDoc (jupiter w) with
  | Some data =>
      match jupEntry data with
      | Some priceData =>
          let price := parseFloat_or0 (jupPrice priceData) in
          let change24h := parseFloat_or0 (jupPriceWaifuge24h priceData) in
          let volume24h := parseFloat_or0 (jupVolume24h priceData) in
          let tokenSymbol := or_null (jupSymbol priceData) in
          let tokenName := or_null (jupName priceData) in
          if gt price 0 then
            Some (json {| success := true; source := Some jupiter_src;
                          price := price; change24h := change24h;
                          volume24h := volume24h;
                          tokenSymbol := or_str dexTokenSymbol tokenSymbol;
                          tokenName := or_str dexTokenName tokenName |})
          else None
      | None => None
      end
  | None => None
  end.

(** Method 3, inside [if (birdeyeApiKey)] *)
Definition tryBirdeye (w : World) (dexTokenSymbol dexTokenName : option string)
  : option Response :=
  match okDoc (birdeyePrice w) with
  | Some data =>
      let price :=
        match birdeyeAssigned data with Some p => p | None => 0 end in
      if gt price 0 then
        let '(change24h, volume24h) :=
          match overviewStats (birdeyeOverview w) with
          | Some cv => cv
          | None => (0, 0)
          end in
        Some (json {| success := true; source := Some birdeye_src;
                      price := price; change24h := change24h;
                      volume24h := volume24h;
                      tokenSymbol := dexTokenSymbol;
                      tokenName := dexTokenName |})
      else None
  | None => None
  end.

(** The body of the "No price found from any source" response and of the
    outer [catch]. *)
Definition noPrice (sym name : option string) : PriceBody :=
  {| success := false; source := None; price := 0; change24h := 0;
     volume24h := 0; tokenSymbol := sym; tokenName := name |}.

(** export async function GET(request).  [tokenAddress] is
    [searchParams.get('address')]. *)
Definition GET (tokenAddress : option string) (w : World) : Response :=
  if negb (truthy_str tokenAddress) then
    {| status := 400; body := ErrorBody "Token address is required"%string |}
  else
    let '(ret, dexTokenSymbol, dexTokenName) := tryDexScreener w in
    match ret with
    | Some r => r
    | None =>
        match tryJupiter w dexTokenSymbol dexTokenName with
        | Some r => r
        | None =>
            if escapes w then json (noPrice None None)
            else
              let viaBirdeye :=
                if truthy_str (BIRDEYE_API_KEY w)
                then tryBirdeye w dexTokenSymbol dexTokenName
                else None in
              match viaBirdeye with
              | Some r => r
              | None => json (noPrice dexTokenSymbol dexTokenName)
              end
        end
    end.

End TokenPrice.

(** ** The chart-data route (in-memory cache with TTL, stale fallback) *)

Module ChartData.
Import Js Upstream.
Local Open Scope Z_scope.

Record ChartResult : Type := {
  success : bool;
  price : number;
  priceChange24h : number;
  volume24h : number;
  resultPairAddress : option string;
  pairData : DexPair
}.

Record CacheEntry : Type := { data : ChartResult; timestamp : Z }.

(** const cache = new Map<string, { data: any; timestamp: number }>() *)
Definition Cache : Type := JsMap.t CacheEntry.

Definition CACHE_TTL : Z := 5000.

(** function getCachedData(tokenAddress); [now] is [Date.now()]. *)
Definition getCachedData (now : Z) (tokenAddress : string) (cache : Cache)
  : option ChartResult :=
  match JsMap.get tokenAddress cache with
  | Some cached =>
      if now - timestamp cached <? CACHE_TTL then Some (data cached) else None
  | None => None
  end.

(** The comparator [(a, b) => b[1].timestamp - a[1].timestamp] puts [y]
    strictly before [x] when [y] was written strictly later. *)
Definition newer (y x : string * CacheEntry) : bool :=
  timestamp (snd x) <? timestamp (snd y).

(** function setCachedData(tokenAddress, data) *)
Definition setCachedData (now : Z) (tokenAddress : string) (d : ChartResult)
  (cache : Cache) : Cache :=
  let cache1 := JsMap.set tokenAddress {| data := d; timestamp := now |} cache in
  if (100 <? JsMap.size cache1)%nat then
    let entries := JsArray.sort newer (JsMap.entries cache1) in
    JsMap.of_entries (firstn 100 entries)
  else cache1.

(** A response body: an error object, or a result, possibly spread together
    with [cached: true] and a [warning]. *)
Inductive Body : Type :=
  | ErrorBody (error : string)
  | Data (r : ChartResult) (cached : bool) (warning : option string).

Record Response : Type := { status : Z; body : Body }.

Definition json (b : Body) : Response := {| status := 200; body := b |}.

(** The [catch] block of GET *)
Definition onThrown (tokenAddress : string) (msg : string) (cache : Cache)
  : Response :=
  match JsMap.get tokenAddress cache with
  | Some staleCache =>
      json (Data (data staleCache) true
              (Some "Error fetching fresh data, returning cached data"%string))
  | None => {| status := 500; body := ErrorBody msg |}
  end.

(** GET once [tokenAddress] is known to be truthy.  [upstream] is what
    DexScreener answers when it is asked, [now] the clock.  Returns the
    response and the cache left behind.  When the status of a failed
    upstream call is one that [NextResponse.json] refuses, building the
    error response raises inside the [try], and the [catch] answers. *)
Definition serve (now : Z) (tokenAddress : string)
  (upstream : HttpResult DexBody) (cache : Cache) : Response * Cache :=
  match getCachedData now tokenAddress cache with
  | Some cached => (json (Data cached false None), cache)
  | None =>
      match upstream with
      | Rejected msg => (onThrown tokenAddress msg cache, cache)
      | Responded st parsed =>
          if negb (ok st) then
            if st =? 429 then
              match JsMap.get tokenAddress cache with
              | Some staleCache =>
                  (json (Data (data staleCache) true
                           (Some "Rate limited, returning cached data"%string)),
                   cache)
              | None =>
                  ({| status := 429;
                      body := ErrorBody
                        "Too many requests. Please wait a moment."%string |},
                   cache)
              end
            else
              match refusal st with
              | Some msg => (onThrown tokenAddress msg cache, cache)
              | None =>
                  ({| status := st;
                      body := ErrorBody
                        ("DexScreener API error: " ++ show st)%string |},
                   cache)
              end
          else
            match parsed with
            | BadJson msg => (onThrown tokenAddress msg cache, cache)
            | Doc data =>
                match bestPair data with
                | None =>
                    ({| status := 404;
                        body := ErrorBody "No pairs found"%string |}, cache)
                | Some bestPair =>
                    let currentPrice := parseFloat_or0 (priceUsd bestPair) in
                    let priceChange24h :=
                      parseFloat_or0 (priceChangeH24 bestPair) in
                    let volume24h := parseFloat_or0 (volumeH24 bestPair) in
                    if seq currentPrice 0%Q then
                      ({| status := 400;
                          body := ErrorBody "Invalid price data"%string |},
                       cache)
                    else
                      let result :=
                        {| success := true;
                           price := currentPrice;
                           priceChange24h := priceChange24h;
                           volume24h := volume24h;
                           resultPairAddress := pairAddress bestPair;
                           pairData := bestPair |} in
                      (json (Data result false None),
                       setCachedData now tokenAddress result cache)
                end
            end
      end
  end.

(** export async function GET(request).  [tokenAddress] is
    [searchParams.get('address')]. *)
Definition GET (now : Z) (tokenAddress : option string)
  (upstream : HttpResult DexBody) (cache : Cache) : Response * Cache :=
  match tokenAddress with
  | Some a =>
      if negb (truthy_str (Some a)) then
        ({| status := 400;
            body := ErrorBody "Token address is required"%string |}, cache)
      else serve now a upstream cache
  | None =>
      ({| status := 400;
          body := ErrorBody "Token address is required"%string |}, cache)
  end.

End ChartData.

(** ** The ws-token route: server-sent events for one connection *)

Module WsToken.
Import Js Upstream.
Local Open Scope Q_scope.

(** What [fetchTokenData] resolves to: [{ price, change24h, volume24h,
    supply, decimals: 9 }] *)
Record Fetched : Type := {
  price : number;
  change24h : number;
  volume24h : number;
  supply : number;
  decimals : number
}.

Inductive Outcome (A : Type) : Type :=
  | Return (a : A)
  | Throw (msg : string).

Arguments Return {A} a.
Arguments Throw {A} msg.

(** The four [let] variables of [fetchTokenData] *)
Record Locals : Type := {
  l_price : number;
  l_change24h : number;
  l_volume24h : number;
  l_supply : number
}.

Definition result (l : Locals) : Fetched :=
  {| price := l_price l; change24h := l_change24h l;
     volume24h := l_volume24h l; supply := l_supply l; decimals := 9 |}.

(** Method 1: the returned value, if any, and the variables afterwards *)
Definition viaDexScreener (w : World) (l : Locals) : option Fetched * Locals :=
  match okDoc (dexscreener w) with
  | Some data =>
      match bestPair data with
      | Some bestPair =>
          let price := parseFloat_or0 (priceUsd bestPair) in
          let change24h := parseFloat_or0 (priceWaifugeH24 bestPair) in
          let volume24h := parseFloat_or0 (volumeH24 bestPair) in
          let supply :=
            if truthy_opt_num (fdv bestPair) && gt price 0
            then num_or0 (fdv bestPair) / price
            else if truthy_opt_num (pairMarketCap bestPair) && gt price 0
            then num_or0 (pairMarketCap bestPair) / price
            else l_supply l in
          let l' := {| l_price := price; l_change24h := change24h;
                       l_volume24h := volume24h; l_supply := supply |} in
          if gt price 0 then (Some (result l'), l') else (None, l')
      | None => (None, l)
      end
  | None => (None, l)
  end.

(** Method 2 *)
Definition viaJupiter (w : World) (l : Locals) : option Fetched * Locals :=
  match okDoc (jupiter w) with
  | Some data =>
      match jupEntry data with
      | Some priceData =>
          let l' := {| l_price := parseFloat_or0 (jupPrice priceData);
                       l_change24h := parseFloat_or0 (jupPriceWaifuge24h priceData);
                       l_volume24h := parseFloat_or0 (jupVolume24h priceData);
                       l_supply := l_supply l |} in
          if gt (l_price l') 0 then (Some (result l'), l') else (None, l')
      | None => (None, l)
      end
  | None => (None, l)
  end.

(** Method 3, inside [if (birdeyeApiKey)] *)
Definition viaBirdeye (w : World) (l : Locals) : option Fetched * Locals :=
  match okDoc (birdeyePrice w) with
  | Some data =>
      let price :=
        match birdeyeAssigned data with Some p => p | None => l_price l end in
      if gt price 0 then
        let '(change24h, volume24h) :=
          match overviewStats (birdeyeOverview w) with
          | Some cv => cv
          | None => (l_change24h l, l_volume24h l)
          end in
        let l' := {| l_price := price; l_change24h := change24h;
                     l_volume24h := volume24h; l_supply := l_supply l |} in
        (Some (result l'), l')
      else
        (None, {| l_price := price; l_change24h := l_change24h l;
                  l_volume24h := l_volume24h l; l_supply := l_supply l |})
  | None => (None, l)
  end.

(** async function fetchTokenData(tokenAddress) *)
Definition fetchTokenData (w : World) : Outcome Fetched :=
  let l0 := {| l_price := 0; l_change24h := 0; l_volume24h := 0;
               l_supply := 0 |} in
  let '(r1, l1) := viaDexScreener w l0 in
  match r1 with
  | Some d => Return d
  | None =>
      let '(r2, l2) := viaJupiter w l1 in
      match r2 with
      | Some d => Return d
      | None =>
          let r3 :=
            if truthy_str (BIRDEYE_API_KEY w) then fst (viaBirdeye w l2)
            else None in
          match r3 with
          | Some d => Return d
          | None => Throw "No price data available from any source"%string
          end
      end
  end.

Inductive EventType : Type :=
  | update | refresh | error | connected | keepalive.

(** The [data] object of an [update] event, as [pollTokenData] builds it *)
Record UpdateData : Type := {
  u_supply : number;
  u_decimals : number;
  u_price : number;
  u_marketCap : number;
  u_change24h : number;
  u_volume24h : number;
  u_timestamp : Z
}.

(** interface TokenUpdateEvent *)
Record TokenUpdateEvent : Type := {
  type : EventType;
  data : option UpdateData;
  message : option string;
  token : option string
}.

(** let lastData = { supply, price, decimals } *)
Record LastData : Type := {
  last_supply : number;
  last_price : number;
  last_decimals : number
}.

(** The variables the closures of [start(controller)] share *)
Record Session : Type := {
  tokenAddress : string;
  isClosed : bool;
  lastData : LastData
}.

Definition start (tokenAddress : string) : Session :=
  {| tokenAddress := tokenAddress;
     isClosed := false;
     lastData := {| last_supply := 0; last_price := 0; last_decimals := 9 |} |}.

(** const sendEvent = (event) => { if (isClosed) return; enqueue(...) } *)
Definition sendEvent (s : Session) (event : TokenUpdateEvent)
  : list TokenUpdateEvent :=
  if isClosed s then [] else [event].

(** The part of [pollTokenData] that runs once [fetchTokenData] has settled *)
Definition pollSettled (s : Session) (fetched : Outcome Fetched) (now : Z)
  : Session * list TokenUpdateEvent :=
  match fetched with
  | Return tokenData =>
      let currentPrice := price tokenData in
      let currentSupply :=
        if truthy_num (supply tokenData) then supply tokenData else 0 in
      let decimals :=
        if truthy_num (decimals tokenData) then decimals tokenData else 9 in
      let change24h := change24h tokenData in
      let volume24h := volume24h tokenData in
      let marketCap :=
        if gt currentPrice 0 && gt currentSupply 0
        then currentPrice * currentSupply else 0 in
      let hasWaifuges :=
        sne currentPrice (last_price (lastData s))
        || sne currentSupply (last_supply (lastData s))
        || sne decimals (last_decimals (lastData s)) in
      if hasWaifuges || seq (last_price (lastData s)) 0 then
        let s' := {| tokenAddress := tokenAddress s;
                     isClosed := isClosed s;
                     lastData := {| last_supply := currentSupply;
                                    last_price := currentPrice;
                                    last_decimals := decimals |} |} in
        (s', sendEvent s' {| type := update;
                             token := Some (tokenAddress s);
                             message := None;
                             data := Some {| u_supply := currentSupply;
                                             u_decimals := decimals;
                                             u_price := currentPrice;
                                             u_marketCap := marketCap;
                                             u_change24h := change24h;
                                             u_volume24h := volume24h;
                                             u_timestamp := now |} |})
      else (s, [])
  | Throw errorMessage =>
      (s, sendEvent s {| type := error;
                         token := Some (tokenAddress s);
                         message := Some errorMessage;
                         data := None |})
  end.

(** const pollTokenData = async () => { if (isClosed) return; ... } *)
Definition pollTokenData (s : Session) (w : World) (now : Z)
  : Session * list TokenUpdateEvent :=
  if isClosed s then (s, []) else pollSettled s (fetchTokenData w) now.

(** The [abort] listener *)
Definition onAbort (s : Session) : Session :=
  {| tokenAddress := tokenAddress s; isClosed := true; lastData := lastData s |}.

(** The keep-alive timer's callback *)
Definition onKeepAlive (s : Session) : list TokenUpdateEvent :=
  if negb (isClosed s) then
    sendEvent s {| type := keepalive; token := Some (tokenAddress s);
                   message := None; data := None |}
  else [].

End WsToken.

(** ** src/lib/jupiter-client.ts: the reconnecting stream client *)

Module JupiterClient.
Import Js.
Local Open Scope Z_scope.

(** interface TokenData, as the objects are at run time: [onUpdate] receives
    a [Partial<TokenData>] parsed from a frame, so every field may be absent
    ([None] is [undefined]).  [timestamp] is the extra key the stream's
    [update] events carry. *)
Record TokenData : Type := {
  address : option string;
  supply : option number;
  decimals : option number;
  price : option number;
  marketCap : option number;
  change24h : option number;
  volume24h : option number;
  name : option string;
  symbol : option string;
  logoURI : option string;
  lastUpdated : option Z;
  timestamp : option Z
}.

(** interface TokenStreamEvent *)
Record TokenStreamEvent : Type := {
  type : WsToken.EventType;
  data : option TokenData;
  message : option string;
  token : option string
}.

(** [JSON.parse(event.data)] of a frame written by the ws-token route with
    [JSON.stringify(event)]: the keys of the server's [data] object, and no
    other. *)
Definition parseData (d : WsToken.UpdateData) : TokenData :=
  {| address := None;
     supply := Some (WsToken.u_supply d);
     decimals := Some (WsToken.u_decimals d);
     price := Some (WsToken.u_price d);
     marketCap := Some (WsToken.u_marketCap d);
     change24h := Some (WsToken.u_change24h d);
     volume24h := Some (WsToken.u_volume24h d);
     name := None; symbol := None; logoURI := None; lastUpdated := None;
     timestamp := Some (WsToken.u_timestamp d) |}.

Definition parse (e : WsToken.TokenUpdateEvent) : TokenStreamEvent :=
  {| type := WsToken.type e;
     data := option_map parseData (WsToken.data e);
     message := WsToken.message e;
     token := WsToken.token e |}.

(** [EventSource.readyState] *)
Inductive ReadyState : Type := CONNECTING | OPEN | CLOSED.

(** What a handler does to the outside: calls of the caller's callbacks,
    [setTimeout(connect, delay)], the call of [fetchTokenData] a [refresh]
    event starts.  [OnUpdate d] is [onUpdate] called with the [data] of a
    frame, an object that has the keys the frame carried; [OnUpdateFull d]
    is [onUpdate] called with the object [fetchTokenData] resolved with,
    whose literal gives it every key of [TokenData] as an own property,
    present even when its value is [undefined]. *)
Inductive Effect : Type :=
  | OnUpdate (d : TokenData)
  | OnUpdateFull (d : TokenData)
  | OnError (msg : string)
  | OnConnected
  | Refetch
  | SetTimeoutConnect (delay : Z).

(** The variables of [createTokenSSEStream] and which optional callbacks the
    caller passed. *)
Record Client : Type := {
  onErrorGiven : bool;
  onConnectedGiven : bool;
  eventSource : bool;            (* [eventSource !== null] *)
  isClosed : bool;
  reconnectTimeout : option Z;
  reconnectAttempts : Z
}.

Definition maxReconnectAttempts : Z := 10.

(** The variables as [createTokenSSEStream] declares them *)
Definition declared (onErrorGiven onConnectedGiven : bool) : Client :=
  {| onErrorGiven := onErrorGiven; onConnectedGiven := onConnectedGiven;
     eventSource := false; isClosed := false; reconnectTimeout := None;
     reconnectAttempts := 0 |}.

(** const connect = () => { ... }; [thrown] is [Some msg] when
    [new EventSource(url)] throws. *)
Definition connect (thrown : option string) (c : Client) : Client * list Effect :=
  if isClosed c then (c, [])
  else
    match thrown with
    | Some msg => (c, if onErrorGiven c then [OnError msg] else [])
    | None =>
        ({| onErrorGiven := onErrorGiven c;
            onConnectedGiven := onConnectedGiven c;
            eventSource := true; isClosed := isClosed c;
            reconnectTimeout := reconnectTimeout c;
            reconnectAttempts := reconnectAttempts c |}, [])
    end.

(** eventSource.onopen *)
Definition onopen (c : Client) : Client :=
  {| onErrorGiven := onErrorGiven c; onConnectedGiven := onConnectedGiven c;
     eventSource := eventSource c; isClosed := isClosed c;
     reconnectTimeout := reconnectTimeout c; reconnectAttempts := 0 |}.

(** eventSource.onmessage; [None] when [JSON.parse] throws.  The [refresh]
    case starts [fetchTokenData(tokenAddress)] ([Refetch]); what runs when
    that fetch resolves is [onRefetched] below. *)
Definition onmessage (parsed : option TokenStreamEvent) (c : Client)
  : list Effect :=
  if isClosed c then []
  else
    match parsed with
    | None => []
    | Some ev =>
        match type ev with
        | WsToken.connected => if onConnectedGiven c then [OnConnected] else []
        | WsToken.update =>
            match data ev with
            | Some d => [OnUpdate d]
            | None => []
            end
        | WsToken.refresh => [Refetch]
        | WsToken.error =>
            if onErrorGiven c then
              [OnError (match message ev with
                        | Some (String a m) => String a m
                        | _ => "Server error"%string
                        end)]
            else []
        | WsToken.keepalive => []
        end
    end.

(** The continuation of the [refresh] case,
    [.then(fullData => { if (fullData) onUpdate(fullData) })]: it runs when
    the fetch resolves, whatever has happened to the client in the meantime
    (it does not test [isClosed]). *)
Definition onRefetched (fullData : option TokenData) : list Effect :=
  match fullData with
  | Some d => [OnUpdateFull d]
  | None => []
  end.

(** The calls of [fetchTokenData] among the effects of a handler *)
Definition refetches (effs : list Effect) : nat :=
  List.length (filter (fun e => match e with Refetch => true | _ => false end)
                 effs).

(** [Math.min(1000 * Math.pow(2, reconnectAttempts), 30000)] *)
Definition backoffDelay (reconnectAttempts : Z) : Z :=
  Z.min (1000 * 2 ^ reconnectAttempts) 30000.

(** eventSource.onerror; [readyState] is the state the browser left the
    source in. *)
Definition onerror (readyState : ReadyState) (c : Client)
  : Client * list Effect :=
  match eventSource c, readyState with
  | true, CLOSED =>
      if negb (isClosed c) then
        let attempts := reconnectAttempts c + 1 in
        if attempts <=? maxReconnectAttempts then
          let delay := backoffDelay attempts in
          ({| onErrorGiven := onErrorGiven c;
              onConnectedGiven := onConnectedGiven c;
              eventSource := false; isClosed := isClosed c;
              reconnectTimeout := Some delay;
              reconnectAttempts := attempts |},
           [SetTimeoutConnect delay])
        else
          ({| onErrorGiven := onErrorGiven c;
              onConnectedGiven := onConnectedGiven c;
              eventSource := false; isClosed := isClosed c;
              reconnectTimeout := reconnectTimeout c;
              reconnectAttempts := attempts |},
           if onErrorGiven c
           then [OnError "Max reconnect attempts reached"%string] else [])
      else
        ({| onErrorGiven := onErrorGiven c;
            onConnectedGiven := onConnectedGiven c;
            eventSource := false; isClosed := isClosed c;
            reconnectTimeout := reconnectTimeout c;
            reconnectAttempts := reconnectAttempts c |}, [])
  | _, _ => (c, [])
  end.

(** export function createTokenSSEStream(tokenAddress, onUpdate, onError?,
    onConnected?): declares the variables and runs [connect()]. *)
Definition createTokenSSEStream (onErrorGiven onConnectedGiven : bool)
  (thrown : option string) : Client * list Effect :=
  connect thrown (declared onErrorGiven onConnectedGiven).

(** The clean-up function [createTokenSSEStream] returns *)
Definition cleanup (c : Client) : Client :=
  {| onErrorGiven := onErrorGiven c; onConnectedGiven := onConnectedGiven c;
     eventSource := false; isClosed := true;
     reconnectTimeout := reconnectTimeout c;
     reconnectAttempts := reconnectAttempts c |}.

(** One failed connection: the transport error closes the source; when a
    reconnect was scheduled its timer runs [connect], which opens a new
    source (that has not reached [onopen]). *)
Definition failOnce (c : Client) : Client * list Effect :=
  let '(c1, eff) := onerror CLOSED c in
  match eff with
  | [SetTimeoutConnect _] => (fst (connect None c1), eff)
  | _ => (c1, eff)
  end.

(** [n] failed connections in a row *)
Fixpoint failures (n : nat) (c : Client) : Client * list Effect :=
  match n with
  | O => (c, [])
  | S n' =>
      let '(c1, eff1) := failOnce c in
      let '(c2, eff2) := failures n' c1 in
      (c2, eff1 ++ eff2)
  end.

(** The effect of the [k]-th failure in a row (counted from 1) *)
Definition nthFailure (k : nat) (c : Client) : list Effect :=
  snd (failOnce (fst (failures (k - 1) c))).

(** One error event of the source, whatever state the browser left the
    source in ([failOnce] is the case [CLOSED]); as there, the timer of a
    scheduled reconnect runs [connect]. *)
Definition errorOnce (readyState : ReadyState) (c : Client)
  : Client * list Effect :=
  let '(c1, eff) := onerror readyState c in
  match eff with
  | [SetTimeoutConnect _] => (fst (connect None c1), eff)
  | _ => (c1, eff)
  end.

(** Error events in a row, each with the state the source was left in *)
Fixpoint errorsInRow (states : list ReadyState) (c : Client)
  : Client * list Effect :=
  match states with
  | [] => (c, [])
  | readyState :: states' =>
      let '(c1, eff1) := errorOnce readyState c in
      let '(c2, eff2) := errorsInRow states' c1 in
      (c2, eff1 ++ eff2)
  end.

(** How many of the error events found the source closed *)
Fixpoint closedAmong (states : list ReadyState) : nat :=
  match states with
  | [] => O
  | CLOSED :: states' => S (closedAmong states')
  | _ :: states' => closedAmong states'
  end.

End JupiterClient.

(** ** src/components/waifu-tracker.tsx: the message scheduler *)

Module Scheduler.
Local Open Scope Z_scope.

(** The refs [lastMessageAtRef], [lastMessageEmotionRef],
    [pendingEmotionRef], [messageTimerRef].  An armed timer is recorded by
    the clock reading at which it is due. *)
Record Refs : Type := {
  lastMessageAt : Z;
  lastMessageEmotion : option Emotion;
  pendingEmotion : option Emotion;
  messageTimer : option Z
}.

Definition init : Refs :=
  {| lastMessageAt := 0; lastMessageEmotion := None; pendingEmotion := None;
     messageTimer := None |}.

Definition armed (r : Refs) : bool :=
  match messageTimer r with Some _ => true | None => false end.

(** const scheduleMessage = (newEmotion) => { ... }.  The result lists the
    calls of [generateMessage]. *)
Definition scheduleMessage (now : Z) (newEmotion : Emotion) (r : Refs)
  : Refs * list Emotion :=
  if opt_emotion_is (lastMessageEmotion r) newEmotion then (r, [])
  else
    let elapsed := now - lastMessageAt r in
    if (5000 <=? elapsed) && negb (armed r) then
      ({| lastMessageAt := now;
          lastMessageEmotion := Some newEmotion;
          pendingEmotion := Some newEmotion;
          messageTimer := messageTimer r |}, [newEmotion])
    else if armed r then
      ({| lastMessageAt := lastMessageAt r;
          lastMessageEmotion := lastMessageEmotion r;
          pendingEmotion := Some newEmotion;
          messageTimer := messageTimer r |}, [])
    else
      let delay := Z.max 0 (5000 - elapsed) in
      ({| lastMessageAt := lastMessageAt r;
          lastMessageEmotion := lastMessageEmotion r;
          pendingEmotion := Some newEmotion;
          messageTimer := Some (now + delay) |}, [])
  .

(** The callback handed to [setTimeout] *)
Definition onTimer (now : Z) (r : Refs) : Refs * list Emotion :=
  let r1 := {| lastMessageAt := lastMessageAt r;
               lastMessageEmotion := lastMessageEmotion r;
               pendingEmotion := pendingEmotion r;
               messageTimer := None |} in
  match pendingEmotion r with
  | None => (r1, [])
  | Some pending =>
      if opt_emotion_is (lastMessageEmotion r) pending then (r1, [])
      else
        ({| lastMessageAt := now;
            lastMessageEmotion := Some pending;
            pendingEmotion := pendingEmotion r;
            messageTimer := None |}, [pending])
  end.

(** What happens to the scheduler: a call of [scheduleMessage], or the timer
    going off; both carry the clock reading. *)
Inductive Event : Type :=
  | Call (now : Z) (e : Emotion)
  | Fire (now : Z).

Definition time_of (ev : Event) : Z :=
  match ev with Call t _ => t | Fire t => t end.

(** The timer only goes off when it is armed, and not before it is due. *)
Definition enabled (ev : Event) (r : Refs) : bool :=
  match ev with
  | Call _ _ => true
  | Fire t =>
      match messageTimer r with
      | Some due => due <=? t
      | None => false
      end
  end.

Definition step (ev : Event) (r : Refs) : Refs * list (Z * Emotion) :=
  match ev with
  | Call t e =>
      let '(r', out) := scheduleMessage t e r in (r', map (pair t) out)
  | Fire t =>
      let '(r', out) := onTimer t r in (r', map (pair t) out)
  end.

(** Runs a sequence of events; the second component is the log of the
    messages generated, each with the time of its generation. *)
Fixpoint run (evs : list Event) (r : Refs) : Refs * list (Z * Emotion) :=
  match evs with
  | [] => (r, [])
  | ev :: evs' =>
      let '(r1, out1) := step ev r in
      let '(r2, out2) := run evs' r1 in
      (r2, out1 ++ out2)
  end.

(** A schedule the runtime can produce from state [r] when the clock reads
    at least [clock]: time never goes back and the timer goes off only when
    [enabled]. *)
Fixpoint feasible (clock : Z) (evs : list Event) (r : Refs) : bool :=
  match evs with
  | [] => true
  | ev :: evs' =>
      (clock <=? time_of ev) && enabled ev r
      && feasible (time_of ev) evs' (fst (step ev r))
  end.

(** A burst: calls of [scheduleMessage] only *)
Definition calls (burst : list (Z * Emotion)) : list Event :=
  map (fun te => Call (fst te) (snd te)) burst.

(** The timer going off at [t] if it is armed (nothing happens otherwise) *)
Definition fireIfArmed (t : Z) (r : Refs) : Refs * list (Z * Emotion) :=
  if armed r then step (Fire t) r else (r, []).

End Scheduler.

(** ** src/components/waifu-tracker.tsx: the update reducer *)

Module WaifuTracker.
Import Js JupiterClient Classifier.
Local Open Scope Q_scope.

Definition UPDATE_THROTTLE_MS : Z := 500.

(** A point of the rolling chart buffer (its [time] label is a rendering of
    the same clock reading). *)
Record ChartPoint : Type := {
  cp_timestamp : Z;
  cp_price : number;
  cp_marketCap : option number
}.

(** The component's state and refs.  [emotion] stands for both the state
    variable and [emotionRef], which an effect keeps equal to it;
    [generated] logs the calls of [generateMessage]. *)
Record State : Type := {
  tokenData : option TokenData;
  emotion : Emotion;
  chartData : list ChartPoint;
  updateCount : Z;
  lastUpdate : Z;
  refs : Scheduler.Refs;
  generated : list (Z * Emotion)
}.

Definition mount : State :=
  {| tokenData := None; emotion := neutral; chartData := []; updateCount := 0;
     lastUpdate := 0; refs := Scheduler.init; generated := [] |}.

(** One key of [{ ...prev, ...updatedData }] *)
Definition spread {A : Type} (prev upd : option A) : option A :=
  match upd with
  | Some v => Some v
  | None => prev
  end.

(** const merged = { ...prev, ...updatedData } *)
Definition merge (prev upd : TokenData) : TokenData :=
  {| address := spread (address prev) (address upd);
     supply := spread (supply prev) (supply upd);
     decimals := spread (decimals prev) (decimals upd);
     price := spread (price prev) (price upd);
     marketCap := spread (marketCap prev) (marketCap upd);
     change24h := spread (change24h prev) (change24h upd);
     volume24h := spread (volume24h prev) (volume24h upd);
     name := spread (name prev) (name upd);
     symbol := spread (symbol prev) (symbol upd);
     logoURI := spread (logoURI prev) (logoURI upd);
     lastUpdated := spread (lastUpdated prev) (lastUpdated upd);
     timestamp := spread (timestamp prev) (timestamp upd) |}.

(** if (merged.price > 0 && merged.supply > 0)
      merged.marketCap = merged.price * merged.supply *)
Definition recomputeMarketCap (m : TokenData) : TokenData :=
  if gt_opt (price m) 0 && gt_opt (supply m) 0 then
    {| address := address m; supply := supply m; decimals := decimals m;
       price := price m;
       marketCap := Some (num_or0 (price m) * num_or0 (supply m));
       change24h := change24h m; volume24h := volume24h m; name := name m;
       symbol := symbol m; logoURI := logoURI m;
       lastUpdated := lastUpdated m; timestamp := timestamp m |}
  else m.

(** prev.price > 0 && merged.price > 0
      ? (merged.price - prev.price) / prev.price : 0
    The subtraction and the division each round to the nearest double. *)
Definition shortMove (prev merged : TokenData) : number :=
  if gt_opt (price prev) 0 && gt_opt (price merged) 0
  then Float64.fl
         (Float64.fl (num_or0 (price merged) - num_or0 (price prev))
          / num_or0 (price prev))
  else 0.

(** function shouldTriggerMessage(prev, next) *)
Definition shouldTriggerMessage (prev : option TokenData) (next : TokenData)
  : bool :=
  match prev with
  | None => true
  | Some prev =>
      if le_opt (price prev) 0 || le_opt (price next) 0 then true
      else
        let priceDelta :=
          match price prev, price next with
          | Some p, Some n => Some (abs ((n - p) / p))
          | _, _ => None    (* NaN *)
          end in
        let changeDelta :=
          abs (num_or0 (change24h next) - num_or0 (change24h prev)) in
        match priceDelta with
        | Some d => ge d (5 # 10000)
        | None => false
        end || ge changeDelta (5 # 100)
  end.

(** The updater passed to [setTokenData] when there is no previous state *)
Definition firstUpdate (updatedData : TokenData) (s : State) : State :=
  if truthy_str (address updatedData)
     && match supply updatedData with Some _ => true | None => false end
  then
    {| tokenData := Some updatedData;
       emotion := match change24h updatedData with
                  | Some c => getEmotionFromChange c
                  | None => emotion s
                  end;
       chartData := chartData s; updateCount := updateCount s;
       lastUpdate := lastUpdate s; refs := refs s; generated := generated s |}
  else
    {| tokenData := None; emotion := emotion s; chartData := chartData s;
       updateCount := updateCount s; lastUpdate := lastUpdate s;
       refs := refs s; generated := generated s |}.

(** The updater passed to [setTokenData] when [prev] is set *)
Definition mergeUpdate (now : Z) (prev updatedData : TokenData) (s : State)
  : State :=
  let merged := recomputeMarketCap (merge prev updatedData) in
  let shortEmotion := getEmotionFromShortMove (shortMove prev merged) in
  let newEmotion :=
    match shortEmotion with
    | Some e => e
    | None =>
        match change24h merged with
        | Some c => getEmotionFromChange c
        | None => emotion s
        end
    end in
  let '(refs', out) :=
    if shouldTriggerMessage (Some prev) merged
    then Scheduler.scheduleMessage now newEmotion (refs s)
    else (refs s, []) in
  let chart' :=
    if gt_opt (price merged) 0 then
      JsArray.slice_last 49 (chartData s)
      ++ [{| cp_timestamp := now; cp_price := num_or0 (price merged);
             cp_marketCap := marketCap merged |}]
    else chartData s in
  {| tokenData := Some merged; emotion := newEmotion; chartData := chart';
     updateCount := updateCount s; lastUpdate := lastUpdate s; refs := refs';
     generated := generated s ++ map (pair now) out |}.

(** const handleRealtimeUpdate = (updatedData) => { ... }; [now] is
    [Date.now()]. *)
Definition handleRealtimeUpdate (now : Z) (updatedData : TokenData) (s : State)
  : State :=
  if (now - lastUpdate s <? UPDATE_THROTTLE_MS)%Z then s
  else
    let s1 := {| tokenData := tokenData s; emotion := emotion s;
                 chartData := chartData s;
                 updateCount := (updateCount s + 1)%Z;
                 lastUpdate := now; refs := refs s;
                 generated := generated s |} in
    match tokenData s1 with
    | None => firstUpdate updatedData s1
    | Some prev => mergeUpdate now prev updatedData s1
    end.

(** [{ ...prev, ...fullData }] when [fullData] is the object
    [fetchTokenData] resolved with: every key of [TokenData] is an own
    property of it, so every key is taken from it, also one whose value is
    [undefined]; [timestamp], which only the frames of the stream carry, is
    kept from [prev]. *)
Definition mergeFull (prev fullData : TokenData) : TokenData :=
  {| address := address fullData;
     supply := supply fullData;
     decimals := decimals fullData;
     price := price fullData;
     marketCap := marketCap fullData;
     change24h := change24h fullData;
     volume24h := volume24h fullData;
     name := name fullData;
     symbol := symbol fullData;
     logoURI := logoURI fullData;
     lastUpdated := lastUpdated fullData;
     timestamp := timestamp prev |}.

(** The updater of [handleRealtimeUpdate] from [const merged = ...] on,
    given the spread object ([mergeUpdate] is
    [withMerged now prev (merge prev updatedData) s]). *)
Definition withMerged (now : Z) (prev spreadObject : TokenData) (s : State)
  : State :=
  let merged := recomputeMarketCap spreadObject in
  let shortEmotion := getEmotionFromShortMove (shortMove prev merged) in
  let newEmotion :=
    match shortEmotion with
    | Some e => e
    | None =>
        match change24h merged with
        | Some c => getEmotionFromChange c
        | None => emotion s
        end
    end in
  let '(refs', out) :=
    if shouldTriggerMessage (Some prev) merged
    then Scheduler.scheduleMessage now newEmotion (refs s)
    else (refs s, []) in
  let chart' :=
    if gt_opt (price merged) 0 then
      JsArray.slice_last 49 (chartData s)
      ++ [{| cp_timestamp := now; cp_price := num_or0 (price merged);
             cp_marketCap := marketCap merged |}]
    else chartData s in
  {| tokenData := Some merged; emotion := newEmotion; chartData := chart';
     updateCount := updateCount s; lastUpdate := lastUpdate s; refs := refs';
     generated := generated s ++ map (pair now) out |}.

(** [handleRealtimeUpdate] called with the object [fetchTokenData]
    resolved with (the continuation of a [refresh] frame) *)
Definition handleFullUpdate (now : Z) (fullData : TokenData) (s : State)
  : State :=
  if (now - lastUpdate s <? UPDATE_THROTTLE_MS)%Z then s
  else
    let s1 := {| tokenData := tokenData s; emotion := emotion s;
                 chartData := chartData s;
                 updateCount := (updateCount s + 1)%Z;
                 lastUpdate := now; refs := refs s;
                 generated := generated s |} in
    match tokenData s1 with
    | None => firstUpdate fullData s1
    | Some prev => withMerged now prev (mergeFull prev fullData) s1
    end.

(** The stream consumer of the component: each call of [onUpdate] by the
    client is a call of [handleRealtimeUpdate]. *)
Definition deliver (now : Z) (effs : list Effect) (s : State) : State :=
  fold_left (fun st eff =>
               match eff with
               | OnUpdate d => handleRealtimeUpdate now d st
               | OnUpdateFull d => handleFullUpdate now d st
               | _ => st
               end) effs s.

End WaifuTracker.

(** ** Vocabulary of the specification

    The definitions below are not transcriptions of source functions: they
    name what the specification talks about (an adapter's normalised
    result, the first adapter in priority order that yields a price, the
    snapshot last sent on a stream, a failed upstream call), so that the
    properties of Part II can compare the code with it. *)

Module AggregatorSpec.
Import Js Upstream.
Local Open Scope Q_scope.

(** NormalizedPriceSnapshot *)
Record Snapshot : Type := {
  s_source : TokenPrice.Source;
  s_price : number;
  s_change24h : number;
  s_volume24h : number;
  s_symbol : option string;
  s_name : option string
}.

(** The DexScreener adapter: the most liquid pair, normalised; [None] is a
    failure (request rejected, status not ok, unreadable body, no pairs). *)
Definition dexAdapter (w : World) : option Snapshot :=
  match okDoc (dexscreener w) with
  | Some data =>
      match bestPair data with
      | Some p =>
          Some {| s_source := TokenPrice.dexscreener_src;
                  s_price := parseFloat_or0 (priceUsd p);
                  s_change24h := parseFloat_or0 (priceWaifugeH24 p);
                  s_volume24h := parseFloat_or0 (volumeH24 p);
                  s_symbol := or_null (baseSymbol p);
                  s_name := or_null (baseName p) |}
      | None => None
      end
  | None => None
  end.

(** The Jupiter adapter *)
Definition jupAdapter (w : World) : option Snapshot :=
  match okDoc (jupiter w) with
  | Some data =>
      match jupEntry data with
      | Some d =>
          Some {| s_source := TokenPrice.jupiter_src;
                  s_price := parseFloat_or0 (jupPrice d);
                  s_change24h := parseFloat_or0 (jupPriceWaifuge24h d);
                  s_volume24h := parseFloat_or0 (jupVolume24h d);
                  s_symbol := or_null (jupSymbol d);
                  s_name := or_null (jupName d) |}
      | None => None
      end
  | None => None
  end.

(** The Birdeye adapter: skipped (not attempted) without an API key; the
    24h figures come from the overview request, best effort; it supplies
    neither symbol nor name. *)
Definition birdeyeAdapter (w : World) : option Snapshot :=
  if truthy_str (BIRDEYE_API_KEY w) then
    match okDoc (birdeyePrice w) with
    | Some data =>
        Some {| s_source := TokenPrice.birdeye_src;
                s_price := match birdeyeAssigned data with
                           | Some p => p
                           | None => 0
                           end;
                s_change24h := match overviewStats (birdeyeOverview w) with
                               | Some cv => fst cv
                               | None => 0
                               end;
                s_volume24h := match overviewStats (birdeyeOverview w) with
                               | Some cv => snd cv
                               | None => 0
                               end;
                s_symbol := None;
                s_name := None |}
    | None => None
    end
  else None.

(** The adapters in priority order *)
Definition adapters (w : World) : list (option Snapshot) :=
  [dexAdapter w; jupAdapter w; birdeyeAdapter w].

(** An adapter yields when it returns a snapshot with [price > 0]. *)
Definition yields (a : option Snapshot) : bool :=
  match a with
  | Some s => gt (s_price s) 0
  | None => false
  end.

(** The first adapter, in the order of the list, that yields *)
Fixpoint firstYield (l : list (option Snapshot)) : option Snapshot :=
  match l with
  | [] => None
  | a :: l' => if yields a then a else firstYield l'
  end.

(** The first of the given values that is a usable string *)
Fixpoint firstSupplied (l : list (option string)) : option string :=
  match l with
  | [] => None
  | a :: l' => if truthy_str a then a else firstSupplied l'
  end.

(** The aggregation as the specification words it: the result of the first
    adapter that yields, its symbol and name backfilled, when it lacks
    them, from the earlier adapters that supplied them.  [earlier] holds
    the snapshots of the adapters already tried, in order. *)
Fixpoint resolveClaimed (earlier : list Snapshot) (l : list (option Snapshot))
  : option Snapshot :=
  match l with
  | [] => None
  | a :: l' =>
      match a with
      | Some s =>
          if gt (s_price s) 0 then
            Some {| s_source := s_source s; s_price := s_price s;
                    s_change24h := s_change24h s;
                    s_volume24h := s_volume24h s;
                    s_symbol :=
                      firstSupplied (s_symbol s :: map s_symbol earlier);
                    s_name :=
                      firstSupplied (s_name s :: map s_name earlier) |}
          else resolveClaimed (earlier ++ [s]) l'
      | None => resolveClaimed earlier l'
      end
  end.

(** What DexScreener supplied, whatever its price *)
Definition dexSymbol (w : World) : option string :=
  match dexAdapter w with Some s => s_symbol s | None => None end.

Definition dexName (w : World) : option string :=
  match dexAdapter w with Some s => s_name s | None => None end.

(** The response body for a snapshot *)
Definition bodyOf (s : Snapshot) : TokenPrice.PriceBody :=
  {| TokenPrice.success := true;
     TokenPrice.source := Some (s_source s);
     TokenPrice.price := s_price s;
     TokenPrice.change24h := s_change24h s;
     TokenPrice.volume24h := s_volume24h s;
     TokenPrice.tokenSymbol := s_symbol s;
     TokenPrice.tokenName := s_name s |}.

End AggregatorSpec.

Module StreamSpec.
Import Js Upstream WsToken.
Local Open Scope Q_scope.

(** A connection that polls for each of the given answers of the world, in
    turn, and is not aborted: the session afterwards and every event sent. *)
Fixpoint polls (ws : list (World * Z)) (s : Session)
  : Session * list TokenUpdateEvent :=
  match ws with
  | [] => (s, [])
  | (w, now) :: ws' =>
      let '(s1, sent1) := pollTokenData s w now in
      let '(s2, sent2) := polls ws' s1 in
      (s2, sent1 ++ sent2)
  end.

(** The snapshot last sent: the data of the last [update] event *)
Fixpoint lastSentSnapshot (sent : list TokenUpdateEvent) : option UpdateData :=
  match sent with
  | [] => None
  | ev :: sent' =>
      match lastSentSnapshot sent' with
      | Some u => Some u
      | None =>
          match type ev, data ev with
          | update, Some u => Some u
          | _, _ => None
          end
      end
  end.

(** Two snapshots differ on one of the fields price, supply, decimals. *)
Definition differs (a b : UpdateData) : bool :=
  sne (u_price a) (u_price b)
  || sne (u_supply a) (u_supply b)
  || sne (u_decimals a) (u_decimals b).

(** The full current data for a fetched result, as an [update] event
    carries it *)
Definition snapshotOf (d : Fetched) (now : Z) : UpdateData :=
  let currentSupply := if truthy_num (supply d) then supply d else 0 in
  {| u_supply := currentSupply;
     u_decimals := if truthy_num (decimals d) then decimals d else 9;
     u_price := price d;
     u_marketCap := if gt (price d) 0 && gt currentSupply 0
                    then price d * currentSupply else 0;
     u_change24h := change24h d;
     u_volume24h := volume24h d;
     u_timestamp := now |}.

Definition updateEvent (tokenAddress : string) (u : UpdateData)
  : TokenUpdateEvent :=
  {| type := update; data := Some u; message := None;
     token := Some tokenAddress |}.

Definition remember (s : Session) (u : UpdateData) : Session :=
  {| tokenAddress := tokenAddress s; isClosed := isClosed s;
     lastData := {| last_supply := u_supply u; last_price := u_price u;
                    last_decimals := u_decimals u |} |}.

(** What ties the session's [lastData] to the events sent so far: it is
    the initial record until an [update] is sent, and afterwards it holds
    the price, supply and decimals of the last [update] sent, whose price
    is positive. *)
Definition tracks (tokenAddress_ : string) (s : Session)
  (sent : list TokenUpdateEvent) : Prop :=
  tokenAddress s = tokenAddress_ /\ isClosed s = false /\
  match lastSentSnapshot sent with
  | None => lastData s = {| last_supply := 0; last_price := 0;
                            last_decimals := 9 |}
  | Some u => lastData s = {| last_supply := u_supply u;
                              last_price := u_price u;
                              last_decimals := u_decimals u |}
              /\ gt (u_price u) 0 = true
  end.

(** Worlds for the examples: Jupiter quotes a price, then the same price
    with another 24h change and volume, then another price. *)
Definition jupiterQuotes (p c v : number) : World :=
  {| dexscreener := Responded 200 (Doc {| pairs := Some [] |});
     jupiter := Responded 200
       (Doc {| jupEntry := Some {| jupPrice := Some p;
                                   jupPriceWaifuge24h := Some c;
                                   jupVolume24h := Some v;
                                   jupSymbol := None; jupName := None |} |});
     birdeyePrice := Rejected "unreachable";
     birdeyeOverview := Rejected "unreachable";
     BIRDEYE_API_KEY := None;
     escapes := false |}.

End StreamSpec.

Module ChartSpec.
Import Js Upstream.
Local Open Scope Z_scope.

(** How an upstream call fails in the sense of the cache fallback: the
    provider answers 429, or the call throws (the request is rejected, or
    the body of an ok response cannot be read). *)
Inductive Failure : Type :=
  | RateLimited
  | Thrown (msg : string).

Definition failure (u : HttpResult DexBody) : option Failure :=
  match u with
  | Rejected msg => Some (Thrown msg)
  | Responded st (BadJson msg) =>
      if ok st then Some (Thrown msg)
      else if st =? 429 then Some RateLimited else None
  | Responded st (Doc _) =>
      if ok st then None
      else if st =? 429 then Some RateLimited else None
  end.

(** The status of the error response when nothing is cached *)
Definition errorStatus (f : Failure) : Z :=
  match f with
  | RateLimited => 429
  | Thrown _ => 500
  end.

(** Replays a sequence of puts [(now, address, result)] on the empty cache. *)
Definition replay (puts : list (Z * string * ChartData.ChartResult))
  : ChartData.Cache :=
  fold_left (fun c p =>
               ChartData.setCachedData (fst (fst p)) (snd (fst p)) (snd p) c)
            puts JsMap.empty.

End ChartSpec.

(** The price route: what its responses and requests say, and sample
    worlds *)

Module PriceSpec.
Import Js Upstream TokenPrice AggregatorSpec.
Local Open Scope Q_scope.
Local Open Scope string_scope.

(** The symbol and name of a response *)
Definition names (r : Response) : option string * option string :=
  match body r with
  | Price b => (tokenSymbol b, tokenName b)
  | ErrorBody _ => (None, None)
  end.

(** An exception escapes the provider blocks before any of them returned:
    the outer [catch] answers. *)
Definition internalError (w : World) : Prop :=
  escapes w = true /\ yields (dexAdapter w) = false
  /\ yields (jupAdapter w) = false.

(** The address parameter is missing: [searchParams.get('address')] is
    [null], or the empty string of [?address=]. *)
Definition addressMissing (tokenAddress : option string) : Prop :=
  tokenAddress = None \/ tokenAddress = Some "".

(** Two worlds on which the merge the specification words and the merge
    of the route part ways.  In the first DexScreener knows the token but
    has no price and Jupiter has both a price and names of its own; in the
    second only Jupiter knows the names and only Birdeye has a price. *)
Definition dexNamesOnly : DexPair :=
  {| liquidityUsd := Some 1000; priceUsd := None; priceWaifugeH24 := None;
     priceChangeH24 := None; volumeH24 := None;
     baseSymbol := Some "DEX"; baseName := Some "Dex Name";
     fdv := None; pairMarketCap := None; pairAddress := None |}.

Definition worldDexNamesJupiterPrice : World :=
  {| dexscreener := Responded 200 (Doc {| pairs := Some [dexNamesOnly] |});
     jupiter := Responded 200
       (Doc {| jupEntry := Some {| jupPrice := Some (3 # 2);
                                   jupPriceWaifuge24h := Some 4;
                                   jupVolume24h := Some 10;
                                   jupSymbol := Some "JUP";
                                   jupName := Some "Jup Name" |} |});
     birdeyePrice := Rejected "unreachable";
     birdeyeOverview := Rejected "unreachable";
     BIRDEYE_API_KEY := None;
     escapes := false |}.

Definition worldJupiterNamesBirdeyePrice : World :=
  {| dexscreener := Rejected "timeout";
     jupiter := Responded 200
       (Doc {| jupEntry := Some {| jupPrice := None;
                                   jupPriceWaifuge24h := None;
                                   jupVolume24h := None;
                                   jupSymbol := Some "JUP";
                                   jupName := Some "Jup Name" |} |});
     birdeyePrice := Responded 200
       (Doc {| beSuccess := true; beValue := Some (Some 2); bePrice := None |});
     birdeyeOverview := Rejected "timeout";
     BIRDEYE_API_KEY := Some "key";
     escapes := false |}.

Definition worldDexOnly : World :=
  {| dexscreener := Responded 200
       (Doc {| pairs := Some
          [ {| liquidityUsd := Some 10; priceUsd := Some 7;
               priceWaifugeH24 := None; priceChangeH24 := None;
               volumeH24 := None; baseSymbol := Some "LOW";
               baseName := None; fdv := None; pairMarketCap := None;
               pairAddress := None |};
            {| liquidityUsd := Some 5000; priceUsd := Some (1234 # 10000000);
               priceWaifugeH24 := Some (25 # 2); priceChangeH24 := None;
               volumeH24 := Some 900; baseSymbol := Some "WAIFU";
               baseName := Some "Waifu"; fdv := None; pairMarketCap := None;
               pairAddress := None |} ] |});
     jupiter := Rejected "timeout";
     birdeyePrice := Rejected "timeout";
     birdeyeOverview := Rejected "timeout";
     BIRDEYE_API_KEY := None;
     escapes := false |}.

Definition worldNoData : World :=
  {| dexscreener := Responded 200 (Doc {| pairs := Some [] |});
     jupiter := Responded 200 (Doc {| jupEntry := None |});
     birdeyePrice := Responded 503 (BadJson "Service Unavailable");
     birdeyeOverview := Rejected "timeout";
     BIRDEYE_API_KEY := Some "key";
     escapes := false |}.

End PriceSpec.

(** The stream client and the component that consumes it *)

Module ClientSpec.
Import Js JupiterClient WaifuTracker.
Local Open Scope Z_scope.

(** A client whose first connection has just been started, with an
    [onError] callback. *)
Definition started (onConnectedGiven : bool) : Client :=
  fst (createTokenSSEStream true onConnectedGiven None).

(** What reaches the client of a stream: a frame, or the resolution of a
    full fetch that a [refresh] frame started ([None]: it resolved with
    [null]). *)
Inductive Arrival : Type :=
  | Frame (ev : WsToken.TokenUpdateEvent)
  | Resolved (fullData : option TokenData).

(** One arrival at clock reading [now], handled by the client and the
    component; [pending] counts the full fetches started and not yet
    resolved (a resolution without one cannot happen). *)
Definition arrive (c : Client) (now : Z) (a : Arrival) (st : State * nat)
  : State * nat :=
  let '(s, pending) := st in
  match a with
  | Frame ev =>
      let effs := onmessage (Some (parse ev)) c in
      (deliver now effs s, (pending + refetches effs)%nat)
  | Resolved fullData =>
      match pending with
      | O => (s, O)
      | S pending' => (deliver now (onRefetched fullData) s, pending')
      end
  end.

(** The arrivals of a stream, each with the clock reading at its arrival,
    handled in turn. *)
Definition consume (c : Client) (arrivals : list (Z * Arrival)) (s : State)
  : State :=
  fst (fold_left (fun st a => arrive c (fst a) (snd a) st) arrivals (s, O)).

(** The frames of a stream that all arrive at [now] *)
Definition framesAt (now : Z) (frames : list WsToken.TokenUpdateEvent)
  : list (Z * Arrival) :=
  map (fun ev => (now, Frame ev)) frames.

(** The arrival is a full fetch that resolved with data / a [refresh]
    frame. *)
Definition resolvedWithData (a : Arrival) : bool :=
  match a with
  | Resolved (Some _) => true
  | _ => false
  end.

Definition isRefresh (a : Arrival) : bool :=
  match a with
  | Frame ev => match WsToken.type ev with
                | WsToken.refresh => true
                | _ => false
                end
  | Resolved _ => false
  end.

(** A token the initial fetch has resolved, and two partial updates *)
Definition fetchedToken : TokenData :=
  {| address := Some "mint"%string; supply := Some 1000000%Q;
     decimals := Some 9%Q; price := Some (2 # 1)%Q;
     marketCap := Some 2000000%Q;
     change24h := Some 1%Q; volume24h := Some 50%Q; name := None;
     symbol := Some "WAIFU"%string; logoURI := None;
     lastUpdated := Some 1700000000000; timestamp := None |}.

Definition partialUpdate (p : Q) (at_ : Z) : TokenData :=
  {| address := None; supply := Some 1000000%Q; decimals := Some 9%Q;
     price := Some p; marketCap := Some 0%Q; change24h := Some 1%Q;
     volume24h := Some 50%Q; name := None; symbol := None; logoURI := None;
     lastUpdated := None; timestamp := Some at_ |}.

Definition tracking : State :=
  {| tokenData := Some fetchedToken; emotion := neutral; chartData := [];
     updateCount := 0; lastUpdate := 0; refs := Scheduler.init;
     generated := [] |}.

(** A connection whose first poll finds a price on Jupiter *)
Definition firstFrames : list WsToken.TokenUpdateEvent :=
  snd (StreamSpec.polls [(StreamSpec.jupiterQuotes 2%Q 1%Q 50%Q, 5000)]
         (WsToken.start "mint")).

End ClientSpec.

(** The chart cache: recency order, fallback texts, sample caches *)

Module ChartSamples.
Import Js Upstream ChartData ChartSpec.
Local Open Scope Z_scope.

(** The entries of the cache, most recently written first *)
Definition byRecency (c : Cache) : list (string * CacheEntry) :=
  JsArray.sort newer (JsMap.entries c).

Definition staleWarning (f : Failure) : string :=
  match f with
  | RateLimited => "Rate limited, returning cached data"
  | Thrown _ => "Error fetching fresh data, returning cached data"
  end.

Definition errorText (f : Failure) : string :=
  match f with
  | RateLimited => "Too many requests. Please wait a moment."
  | Thrown msg => msg
  end.

(** A cache filled to capacity, one write per millisecond *)
Definition keyOf (i : nat) : string :=
  String (Ascii.ascii_of_nat (33 + i)) EmptyString.

Definition somePair : DexPair :=
  {| liquidityUsd := Some 5000%Q; priceUsd := Some (1234 # 10000000)%Q;
     priceWaifugeH24 := None; priceChangeH24 := Some (25 # 2)%Q;
     volumeH24 := Some 900%Q; baseSymbol := Some "WAIFU"%string;
     baseName := Some "Waifu"%string; fdv := None; pairMarketCap := None;
     pairAddress := Some "pair"%string |}.

Definition someResult : ChartResult :=
  {| success := true; price := (1234 # 10000000)%Q;
     priceChange24h := (25 # 2)%Q; volume24h := 900%Q;
     resultPairAddress := Some "pair"%string; pairData := somePair |}.

Definition fullCache : Cache :=
  replay (map (fun i => (Z.of_nat i, keyOf i, someResult)) (List.seq 0 100)).

(** A cache whose only entry was written at 1 s *)
Definition agedCache : Cache := setCachedData 1000 "mint" someResult JsMap.empty.

End ChartSamples.

(** The message scheduler: bursts and spacing *)

Module BurstSpec.
Import Scheduler.
Local Open Scope Z_scope.

(** The last emotion of a burst that differs from the emotion last
    announced, [a] ([None] when nothing was announced), after [acc] *)
Definition lastDiffering (a : option Emotion) (burst : list (Z * Emotion))
  (acc : option Emotion) : option Emotion :=
  fold_left (fun acc te =>
               if opt_emotion_is a (snd te) then acc else Some (snd te))
            burst acc.

(** The messages of a log are at least 5 s apart, the first one at least
    5 s after [prev]. *)
Fixpoint spaced (prev : Z) (log : list (Z * Emotion)) : Prop :=
  match log with
  | [] => True
  | te :: log' => prev + 5000 <= fst te /\ spaced (fst te) log'
  end.

(** An armed timer is not due before the floor. *)
Definition timerAfterFloor (r : Refs) : Prop :=
  match messageTimer r with
  | Some due => lastMessageAt r + 5000 <= due
  | None => True
  end.

(** What a burst delivered after the announcement of [a] leaves behind:
    the announcement stands, and a timer for the floor is armed exactly
    when some emotion of the burst differed from [a], the last such emotion
    pending. *)
Definition coalesced (r0 : Refs) (a : option Emotion) (acc : option Emotion)
  (r : Refs) : Prop :=
  lastMessageAt r = lastMessageAt r0
  /\ lastMessageEmotion r = a
  /\ match acc with
     | None => messageTimer r = None
     | Some e => messageTimer r = Some (lastMessageAt r0 + 5000)
                 /\ pendingEmotion r = Some e /\ opt_emotion_is a e = false
     end.

(** The scheduler once "happy" has been announced, at 10 s *)
Definition afterHappy : Refs := fst (run [Call 10000 happy] init).

End BurstSpec.

(** ** Histories: sequences of handler calls

    The modules below run the handlers of Part I over a sequence of
    events, so that properties of whole histories can be stated. *)

Module SessionRun.
Import Js Upstream WsToken.

(** One connection of the ws-token route, as [start(controller)] runs it:
    the variables its closures share; whether the statements that follow
    [await pollTokenData()] have run (they set the two intervals and add the
    [abort] listener); and how many calls of [pollTokenData] are waiting for
    their [fetchTokenData]. *)
Record Connection : Type := {
  session : Session;
  listening : bool;
  inFlight : nat
}.

(** [start(controller)] up to its [await]: the initial poll is in flight,
    nothing listens for an abort yet. *)
Definition opened (tokenAddress : string) : Connection :=
  {| session := start tokenAddress; listening := false; inFlight := 1 |}.

(** What can happen on a connection: the poll timer goes off, a fetch in
    flight settles (the world answered [w], the clock reads [now]), the
    keep-alive timer goes off, the request's signal aborts. *)
Inductive Step : Type :=
  | Tick
  | Settle (w : World) (now : Z)
  | KeepAlive
  | Abort.

(** - [Tick]: [pollTokenData] is called; it returns at once on a closed
      session and otherwise starts a fetch.  There is no timer before the
      initial poll has settled.
    - [Settle]: the rest of [pollTokenData] runs; when it was the initial
      poll, [start] goes on to set the intervals and add the listener.
    - [Abort]: the listener runs if it has been added; an abort signalled
      before that is not heard. *)
Definition step (st : Step) (c : Connection)
  : Connection * list TokenUpdateEvent :=
  match st with
  | Tick =>
      if listening c && negb (isClosed (session c))
      then ({| session := session c; listening := listening c;
               inFlight := S (inFlight c) |}, [])
      else (c, [])
  | Settle w now =>
      match inFlight c with
      | O => (c, [])
      | S n =>
          let '(s1, sent) := pollSettled (session c) (fetchTokenData w) now in
          ({| session := s1; listening := true; inFlight := n |}, sent)
      end
  | KeepAlive =>
      if listening c then (c, onKeepAlive (session c)) else (c, [])
  | Abort =>
      if listening c
      then ({| session := onAbort (session c); listening := listening c;
               inFlight := inFlight c |}, [])
      else (c, [])
  end.

Fixpoint run (steps : list Step) (c : Connection)
  : Connection * list TokenUpdateEvent :=
  match steps with
  | [] => (c, [])
  | st :: steps' =>
      let '(c1, sent1) := step st c in
      let '(c2, sent2) := run steps' c1 in
      (c2, sent1 ++ sent2)
  end.

(** The data of the [update] events of a stream, in order *)
Fixpoint updatesOf (sent : list TokenUpdateEvent) : list UpdateData :=
  match sent with
  | [] => []
  | ev :: sent' =>
      match type ev, data ev with
      | update, Some u => u :: updatesOf sent'
      | _, _ => updatesOf sent'
      end
  end.

(** Every snapshot of the list has a positive price and differs from the
    one before it ([prev] before the first) on price, supply or decimals. *)
Fixpoint changing (prev : option UpdateData) (l : list UpdateData) : Prop :=
  match l with
  | [] => True
  | u :: l' =>
      gt (u_price u) 0 = true
      /\ match prev with
         | Some p => StreamSpec.differs u p = true
         | None => True
         end
      /\ changing (Some u) l'
  end.

(** The session remembers [last] as the snapshot last sent. *)
Definition remembers (last : option UpdateData) (s : Session) : Prop :=
  match last with
  | None => lastData s = {| last_supply := 0; last_price := 0;
                            last_decimals := 9 |}
  | Some u => lastData s = {| last_supply := u_supply u;
                              last_price := u_price u;
                              last_decimals := u_decimals u |}
              /\ gt (u_price u) 0 = true
  end.

(** The last element of [l], or [prev] when [l] is empty *)
Definition lastOr (prev : option UpdateData) (l : list UpdateData)
  : option UpdateData :=
  fold_left (fun _ u => Some u) l prev.

End SessionRun.

Module ChartRun.
Import Js Upstream ChartData.

(** A request to the chart route: the clock when it is served, its
    [address] parameter, and what DexScreener answers if it is asked. *)
Definition Request : Type := (Z * option string * HttpResult DexBody)%type.

(** The route serving requests one after the other on the shared cache *)
Fixpoint serveAll (reqs : list Request) (cache : Cache)
  : list Response * Cache :=
  match reqs with
  | [] => ([], cache)
  | (now, a, u) :: reqs' =>
      let '(r, c1) := GET now a u cache in
      let '(rs, c2) := serveAll reqs' c1 in
      (r :: rs, c2)
  end.

(** A result worth serving: marked successful, with a price other than 0 *)
Definition usable (r : ChartResult) : Prop :=
  success r = true /\ ~ (price r == 0)%Q.

Definition allUsable (c : Cache) : Prop :=
  forall e, In e c -> usable (data (snd e)).

(** A response is either data with status 200, or an error with another
    status. *)
Definition wellFormed (r : Response) : Prop :=
  match body r with
  | Data d _ _ => status r = 200%Z /\ usable d
  | ErrorBody _ => status r <> 200%Z
  end.

(** A document with one pair, for the examples *)
Definition onePair (p : DexPair) : HttpResult DexBody :=
  Responded 200 (Doc {| pairs := Some [p] |}).

End ChartRun.

Module ClientRun.
Import JupiterClient.

(** What can happen to a stream client: its source opens, a frame arrives
    ([None]: a frame that does not parse), the source reports an error, the
    reconnect timer runs [connect], a full fetch started by a [refresh]
    frame resolves, the caller calls the clean-up function. *)
Inductive Happening : Type :=
  | Opened
  | Message (parsed : option TokenStreamEvent)
  | Failed (readyState : ReadyState)
  | TimerConnect (thrown : option string)
  | Refetched (fullData : option TokenData)
  | CleanedUp.

(** The client together with the number of full fetches it has started
    that have not resolved yet (only such a fetch can resolve). *)
Definition happen (h : Happening) (st : Client * nat)
  : (Client * nat) * list Effect :=
  let '(c, pending) := st in
  match h with
  | Opened => ((onopen c, pending), [])
  | Message parsed =>
      let effs := onmessage parsed c in
      ((c, (pending + refetches effs)%nat), effs)
  | Failed readyState =>
      let '(c1, effs) := onerror readyState c in ((c1, pending), effs)
  | TimerConnect thrown =>
      let '(c1, effs) := connect thrown c in ((c1, pending), effs)
  | Refetched fullData =>
      match pending with
      | O => (st, [])
      | S pending' => ((c, pending'), onRefetched fullData)
      end
  | CleanedUp => ((cleanup c, pending), [])
  end.

Fixpoint run (hs : list Happening) (st : Client * nat)
  : (Client * nat) * list Effect :=
  match hs with
  | [] => (st, [])
  | h :: hs' =>
      let '(st1, eff1) := happen h st in
      let '(st2, eff2) := run hs' st1 in
      (st2, eff1 ++ eff2)
  end.

(** The back-off schedule of ten retries, and the terminal error after
    them *)
Definition retrySchedule : list Effect :=
  [SetTimeoutConnect 2000; SetTimeoutConnect 4000; SetTimeoutConnect 8000;
   SetTimeoutConnect 16000; SetTimeoutConnect 30000; SetTimeoutConnect 30000;
   SetTimeoutConnect 30000; SetTimeoutConnect 30000; SetTimeoutConnect 30000;
   SetTimeoutConnect 30000].

Definition terminalError (onErrorGiven : bool) : list Effect :=
  if onErrorGiven
  then [OnError "Max reconnect attempts reached"%string] else [].

Definition fullSchedule : list Effect := retrySchedule ++ terminalError true.

End ClientRun.

Module SchedulerLog.
Import Scheduler.

(** No message of the log is for the emotion of the message before it
    ([prev] before the first). *)
Fixpoint alternating (prev : option Emotion) (log : list (Z * Emotion)) : Prop :=
  match log with
  | [] => True
  | te :: log' =>
      opt_emotion_is prev (snd te) = false
      /\ alternating (Some (snd te)) log'
  end.

End SchedulerLog.

Module TrackerRun.
Import Js JupiterClient WaifuTracker.

(** The component handling stream updates one after the other; each comes
    with the clock reading at its arrival. *)
Definition updates (us : list (Z * TokenData)) (s : State) : State :=
  fold_left (fun st u => handleRealtimeUpdate (fst u) (snd u) st) us s.

End TrackerRun.

(** ** src/middleware.ts *)

Module Middleware.

(** What the middleware reads and rewrites of [request.nextUrl]: the path and
    the query string ([search] is carried over by [clone()]). *)
Record NextUrl : Type := { pathname : string; search : string }.

Inductive NextResponse : Type :=
  | redirect (url : NextUrl) (status : Z)
  | next.

(** Canonical form of a code unit under the [i] flag: the two cases of an
    ASCII letter are the same, any other code unit only matches itself. *)
Definition fold_case (c : Ascii.ascii) : Ascii.ascii :=
  let n := Ascii.nat_of_ascii c in
  if (65 <=? n)%nat && (n <=? 90)%nat then Ascii.ascii_of_nat (n + 32) else c.

(** The text after a leading match of [pat], ignoring case *)
Fixpoint matchStart_i (pat s : string) : option string :=
  match pat, s with
  | EmptyString, _ => Some s
  | String p pat', String c s' =>
      if Ascii.eqb (fold_case p) (fold_case c) then matchStart_i pat' s'
      else None
  | String _ _, EmptyString => None
  end.

(** pathname.replace(/^\/Waifu/i, '/waifu') *)
Definition replaceWaifu (pathname : string) : string :=
  match matchStart_i "/Waifu" pathname with
  | Some rest => ("/waifu" ++ rest)%string
  | None => pathname
  end.

(** [s.startsWith(pre)] *)
Definition startsWith (s pre : string) : bool := String.prefix pre s.

(** export function middleware(request) *)
Definition middleware (nextUrl : NextUrl) : NextResponse :=
  if String.eqb (pathname nextUrl) "/Waifu"
     || startsWith (pathname nextUrl) "/Waifu/"
  then redirect {| pathname := replaceWaifu (pathname nextUrl);
                   search := search nextUrl |} 301
  else next.

End Middleware.

(** ** The chat list (component ChatList) and the landing form (component
       HomeHero), which share two [localStorage] keys *)

Module Storage.

(** interface ChatItem; an absent key is [None], and [JSON.stringify]
    followed by [JSON.parse] gives the same item back. *)
Record ChatItem : Type := {
  address : string;
  name : option string;
  lastViewed : option Z
}.

(** The string under the key ['savedChats']: the JSON text of a list of
    chats, or a text that is empty or makes [JSON.parse] throw (both
    components treat these two alike). *)
Inductive Saved : Type :=
  | chatsJson (chats : list ChatItem)
  | unparsable.

(** [localStorage]: [None] is what [getItem] returns as [null]. *)
Record LocalStorage : Type := {
  savedChats : option Saved;
  tokenCA : option string
}.

(** chat => chat.address === a *)
Definition hasAddress (a : string) (chat : ChatItem) : bool :=
  String.eqb (address chat) a.

(** chat => chat.address === a ? { ...chat, lastViewed: Date.now() } : chat *)
Definition touch (a : string) (now : Z) (chat : ChatItem) : ChatItem :=
  if hasAddress a chat
  then {| address := address chat; name := name chat;
          lastViewed := Some now |}
  else chat.

(** [chat.lastViewed || 0] *)
Definition viewed (chat : ChatItem) : Z :=
  match lastViewed chat with Some t => t | None => 0 end.

End Storage.

Module ChatList.
Import Js Storage.
Local Open Scope Z_scope.

(** The state of the component *)
Record State : Type := {
  chats : list ChatItem;
  newAddress : string;
  showAddForm : bool
}.

Definition mounted : State :=
  {| chats := []; newAddress := EmptyString; showAddForm := false |}.

Definition setChats (l : list ChatItem) (s : State) : State :=
  {| chats := l; newAddress := newAddress s; showAddForm := showAddForm s |}.

(** The migration from the old format, written out twice in [loadChats] *)
Definition migrate (now : Z) (ls : LocalStorage) (s : State)
  : LocalStorage * State :=
  match tokenCA ls with
  | Some oldCA =>
      if truthy_str (Some oldCA) then
        let migrated :=
          [{| address := oldCA; name := None; lastViewed := Some now |}] in
        ({| savedChats := Some (chatsJson migrated); tokenCA := None |},
         setChats migrated s)
      else (ls, s)
  | None => (ls, s)
  end.

(** const loadChats = () => { ... } *)
Definition loadChats (now : Z) (ls : LocalStorage) (s : State)
  : LocalStorage * State :=
  match savedChats ls with
  | Some (chatsJson parsed) => (ls, setChats parsed s)
  | Some unparsable => migrate now ls s
  | None => migrate now ls s
  end.

(** const saveChats = (updatedChats) => { ... } *)
Definition saveChats (updatedChats : list ChatItem) (ls : LocalStorage)
  (s : State) : LocalStorage * State :=
  ({| savedChats := Some (chatsJson updatedChats); tokenCA := tokenCA ls |},
   setChats updatedChats s).

(** The comparator of [handleOpenChat],
    (a, b) => (b.lastViewed || 0) - (a.lastViewed || 0): the chat viewed
    later goes first. *)
Definition viewedLater (y x : ChatItem) : bool := viewed x <? viewed y.

(** What rendering does to the state: the JSX lists
    [chats.sort((a, b) => (b.lastViewed || 0) - (a.lastViewed || 0))], and
    [sort] orders the array of the state in place.  (With an empty list the
    branch is not rendered, and there is nothing to order.) *)
Definition render (s : State) : State :=
  setChats (JsArray.sort viewedLater (chats s)) s.

Section Browser.

(** [String.prototype.trim] and [encodeURIComponent] *)
Variable trim : string -> string.
Variable encodeURIComponent : string -> string.

(** const handleAddChat = (e) => { ... } *)
Definition handleAddChat (now : Z) (ls : LocalStorage) (s : State)
  : LocalStorage * State :=
  let trimmed := trim (newAddress s) in
  if truthy_str (Some trimmed) && negb (existsb (hasAddress trimmed) (chats s))
  then
    let newChat :=
      {| address := trimmed; name := None; lastViewed := Some now |} in
    let updated := chats s ++ [newChat] in
    let '(ls1, s1) := saveChats updated ls s in
    ({| savedChats := savedChats ls1; tokenCA := Some trimmed |},
     {| chats := chats s1; newAddress := EmptyString; showAddForm := false |})
  else (ls, s).

(** const handleOpenChat = (address) => { ... }; the third component is the
    URL given to [router.push]. *)
Definition handleOpenChat (a : string) (now : Z) (ls : LocalStorage)
  (s : State) : LocalStorage * State * Middleware.NextUrl :=
  let updated := JsArray.sort viewedLater (map (touch a now) (chats s)) in
  (saveChats updated ls s,
   {| Middleware.pathname := "/Waifu";
      Middleware.search := ("?ca=" ++ encodeURIComponent a)%string |}).

End Browser.

(** const handleDeleteChat = (address, e) => { ... } *)
Definition handleDeleteChat (a : string) (ls : LocalStorage) (s : State)
  : LocalStorage * State :=
  let updated := filter (fun chat => negb (hasAddress a chat)) (chats s) in
  saveChats updated ls s.

(** const truncateAddress = (address) => { ... }; the same function as
    [truncateCA] of waifu-tracker.tsx.  Addresses are base58 text, one code
    unit per character. *)
Definition truncateAddress (a : string) : string :=
  if (String.length a <=? 12)%nat then a
  else (substring 0 6 a ++ "..."
        ++ substring (String.length a - 4) 4 a)%string.

End ChatList.

Module HomeHero.
Import Js Storage.
Local Open Scope Z_scope.

(** The effect run on mount: the input field takes the saved address. *)
Definition onMount (ls : LocalStorage) (contractAddress : string) : string :=
  match tokenCA ls with
  | Some savedCA => if truthy_str (Some savedCA) then savedCA
                    else contractAddress
  | None => contractAddress
  end.

Section Browser.

Variable trim : string -> string.
Variable encodeURIComponent : string -> string.

(** const handleSubmit = (e) => { ... }; the second component is the URL
    given to [router.push], if any. *)
Definition handleSubmit (contractAddress : string) (now : Z)
  (ls : LocalStorage) : LocalStorage * option Middleware.NextUrl :=
  let trimmedCA := trim contractAddress in
  if truthy_str (Some trimmedCA) then
    let chats :=
      match savedChats ls with
      | Some (chatsJson parsed) => parsed
      | Some unparsable => []
      | None => []
      end in
    let exists_ := existsb (hasAddress trimmedCA) chats in
    let chats' :=
      if negb exists_
      then chats ++ [{| address := trimmedCA; name := None;
                        lastViewed := Some now |}]
      else map (touch trimmedCA now) chats in
    ({| savedChats := Some (chatsJson chats'); tokenCA := Some trimmedCA |},
     Some {| Middleware.pathname := "/waifu";
             Middleware.search :=
               ("?ca=" ++ encodeURIComponent trimmedCA)%string |})
  else (ls, None).

End Browser.

End HomeHero.

(** ** Histories of the two components over one [localStorage] *)

Module ChatRun.
Import Storage.

Inductive Action : Type :=
  | Mount (now : Z)                        (* ChatList is mounted *)
  | Typed (text : string)                  (* the address field of ChatList *)
  | ShowForm
  | Cancel
  | Add (now : Z)
  | Open (a : string) (now : Z)
  | Delete (a : string)
  | Submit (contractAddress : string) (now : Z).   (* the form of HomeHero *)

Section Browser.

Variable trim : string -> string.
Variable encodeURIComponent : string -> string.

(** What the handler of an action of ChatList does, before the component
    renders again.  ([Typed]: the source passes the handler of the field
    under the prop name [onWaifuge], which React does not call; the action
    is kept, so that the histories also cover a field that works.) *)
Definition handle (x : Action) (st : LocalStorage * ChatList.State)
  : LocalStorage * ChatList.State :=
  let '(ls, s) := st in
  match x with
  | Mount now => ChatList.loadChats now ls ChatList.mounted
  | Typed text =>
      (ls, {| ChatList.chats := ChatList.chats s;
              ChatList.newAddress := text;
              ChatList.showAddForm := ChatList.showAddForm s |})
  | ShowForm =>
      (ls, {| ChatList.chats := ChatList.chats s;
              ChatList.newAddress := ChatList.newAddress s;
              ChatList.showAddForm := true |})
  | Cancel =>
      (ls, {| ChatList.chats := ChatList.chats s;
              ChatList.newAddress := EmptyString;
              ChatList.showAddForm := false |})
  | Add now => ChatList.handleAddChat trim now ls s
  | Open a now => fst (ChatList.handleOpenChat encodeURIComponent a now ls s)
  | Delete a => ChatList.handleDeleteChat a ls s
  | Submit contractAddress now =>
      (fst (HomeHero.handleSubmit trim encodeURIComponent contractAddress
              now ls), s)
  end.

(** An action and the rendering that follows it.  The form of HomeHero is
    on another page: submitting it does not render ChatList. *)
Definition act (x : Action) (st : LocalStorage * ChatList.State)
  : LocalStorage * ChatList.State :=
  match x with
  | Submit _ _ => handle x st
  | _ => (fst (handle x st), ChatList.render (snd (handle x st)))
  end.

Definition run (xs : list Action) (st : LocalStorage * ChatList.State)
  : LocalStorage * ChatList.State :=
  fold_left (fun st x => act x st) xs st.

End Browser.

(** No two chats of the list have the same address. *)
Definition distinct (l : list ChatItem) : Prop := NoDup (map address l).

Definition storedDistinct (ls : LocalStorage) : Prop :=
  match savedChats ls with
  | Some (chatsJson l) => distinct l
  | _ => True
  end.

Definition freshBrowser : LocalStorage * ChatList.State :=
  ({| savedChats := None; tokenCA := None |}, ChatList.mounted).

End ChatRun.

(** ** [fetchTokenData] of jupiter-client.ts: the client's one-shot fetch *)

Module JupiterFetch.
Import Js Upstream JupiterClient.
Local Open Scope Q_scope.

(** The values of [tokenMetadataCache] *)
Record Metadata : Type := {
  m_name : option string;
  m_symbol : option string;
  m_logoURI : option string
}.

(** let tokenMetadataCache = new Map(): no statement of the module writes
    to it. *)
Definition tokenMetadataCache : JsMap.t Metadata := JsMap.empty.

(** async function loadTokenMetadata(tokenAddress) *)
Definition loadTokenMetadata (cache : JsMap.t Metadata) (tokenAddress : string)
  : Metadata :=
  match JsMap.get tokenAddress cache with
  | Some m => m
  | None => {| m_name := None; m_symbol := None; m_logoURI := None |}
  end.

(** Step 2 of [fetchTokenData]: the supply derived from DexScreener's most
    liquid pair; any failure inside the [try] leaves [supply] at 0. *)
Definition supplyFromDex (w : World) (price : number) : number :=
  match okDoc (dexscreener w) with
  | Some dexData =>
      match bestPair dexData with
      | Some bestPair =>
          if truthy_opt_num (fdv bestPair) && gt price 0
          then num_or0 (fdv bestPair) / price
          else if truthy_opt_num (pairMarketCap bestPair) && gt price 0
          then num_or0 (pairMarketCap bestPair) / price
          else 0
      | None => 0
      end
  | None => 0
  end.

(** export async function fetchTokenData(tokenAddress).  [priceResponse] is
    what [/api/token-price] answers, [w] what DexScreener answers to the
    client's own request, [now] is [Date.now()]. *)
Definition fetchTokenData (tokenAddress : string)
  (priceResponse : HttpResult TokenPrice.Body) (w : World) (now : Z)
  : option TokenData :=
  match priceResponse with
  | Rejected _ => None
  | Responded status parsed =>
      if negb (ok status) then None
      else
        match parsed with
        | BadJson _ => None
        | Doc (TokenPrice.ErrorBody _) => None      (* no [success] key *)
        | Doc (TokenPrice.Price priceData) =>
            if negb (TokenPrice.success priceData)
               || seq (TokenPrice.price priceData) 0
            then None
            else
              let price :=
                parseFloat_or0 (Some (TokenPrice.price priceData)) in
              let change24h :=
                parseFloat_or0 (Some (TokenPrice.change24h priceData)) in
              let volume24h :=
                parseFloat_or0 (Some (TokenPrice.volume24h priceData)) in
              let apiSymbol := TokenPrice.tokenSymbol priceData in
              let apiName := TokenPrice.tokenName priceData in
              let supply := supplyFromDex w price in
              let decimals := 9 in
              let metadata :=
                loadTokenMetadata tokenMetadataCache tokenAddress in
              let marketCap :=
                if gt price 0 && gt supply 0 then price * supply else 0 in
              Some {| address := Some tokenAddress;
                      supply := Some supply;
                      decimals := Some decimals;
                      price := Some price;
                      marketCap := Some marketCap;
                      change24h := Some change24h;
                      volume24h := Some volume24h;
                      name := or_str apiName (m_name metadata);
                      symbol := or_str apiSymbol (m_symbol metadata);
                      logoURI := m_logoURI metadata;
                      lastUpdated := Some now;
                      timestamp := None |}
        end
  end.

(** The request of the client answered by the price route of this
    repository *)
Definition askRoute (tokenAddress : string) (w : World)
  : HttpResult TokenPrice.Body :=
  let answer := TokenPrice.GET (Some tokenAddress) w in
  Responded (TokenPrice.status answer) (Doc (TokenPrice.body answer)).

End JupiterFetch.

(** ** [fetchTokenInfo] of waifu-tracker.tsx: the fetch on page load *)

Module TrackerFetch.
Import Js JupiterClient Classifier WaifuTracker.
Local Open Scope Q_scope.






End TrackerFetch.

(** ** src/app/api/generate-message/route.ts *)

Module GenerateMessage.
Import Js.
Local Open Scope Z_scope.

(** The body of the request as the component sends it *)
Record Request : Type := {
  emotion : Emotion;
  change24h : number;
  price : number;
  tokenSymbol : string
}.

Record Env : Type := {
  OPENROUTER_API_KEY : option string;
  OPENROUTER_API : option string
}.

(** What OpenRouter answers.  [textFails]: [response.text()] rejects;
    [completion]: [BadJson] when [response.json()] rejects or yields a
    document the chain [data.choices?.[0]?.message?.content?.trim()] raises
    on, [Doc content] otherwise, with [content] absent ([None]) when the
    chain stops early or the content is [null]. *)
Record Answer : Type := {
  a_status : Z;
  textFails : bool;
  completion : Upstream.Parsed (option string)
}.

Inductive OpenRouter : Type :=
  | Rejected
  | Responded (a : Answer).

(** The body of a response of the route; the [details] key of the
    pass-through error, which only repeats OpenRouter's document, is left
    out. *)
Inductive Body : Type :=
  | ErrorBody (error : string)
  | MessageBody (message : string).

Record Response : Type := { status : Z; body : Body }.

(** The response of the outer [catch] *)
Definition internalError : Response :=
  {| status := 500; body := ErrorBody "Internal server error" |}.

(** A status that admits no body *)
Definition nullBodyStatus (status : Z) : bool :=
  (status =? 101) || (status =? 103) || (status =? 204) || (status =? 205)
  || (status =? 304).

(** [NextResponse.json(body, { status })] inside the [try]: the constructor
    raises for a status outside 200..599 and for a status that admits no
    body, which the [catch] turns into its 500. *)
Definition respond (status : Z) (b : Body) : Response :=
  if (200 <=? status) && (status <=? 599) && negb (nullBodyStatus status)
  then {| status := status; body := b |}
  else internalError.

Section Route.

(** [String.prototype.trim] *)
Variable trim : string -> string.

(** export async function POST(request).  [request] is [None] when
    [request.json()] rejects. *)
Definition POST (env : Env) (request : option Request) (upstream : OpenRouter)
  : Response :=
  match request with
  | None => internalError
  | Some _ =>
      let apiKey := or_str (OPENROUTER_API_KEY env) (OPENROUTER_API env) in
      if negb (truthy_str apiKey) then
        respond 500 (ErrorBody "API key not configured")
      else
        match upstream with
        | Rejected => internalError
        | Responded response =>
            if negb (Upstream.ok (a_status response)) then
              if a_status response =? 402 then
                respond 402 (ErrorBody "insufficient_credits")
              else if textFails response then internalError
              else respond (a_status response)
                     (ErrorBody "Failed to generate message")
            else
              match completion response with
              | Upstream.BadJson _ => internalError
              | Upstream.Doc content =>
                  let message := option_map trim content in
                  match message with
                  | Some m =>
                      if truthy_str (Some m) then respond 200 (MessageBody m)
                      else respond 500 (ErrorBody "No message generated")
                  | None => respond 500 (ErrorBody "No message generated")
                  end
              end
        end
  end.

End Route.

End GenerateMessage.

(** ** The chat of waifu-tracker.tsx: [addMessage], [generateMessage] *)

Module Chat.
Import Js JupiterClient.
Local Open Scope Q_scope.

(** interface Message; [text] is [None] when it is [undefined]. *)
Record Message : Type := {
  text : option string;
  m_emotion : Emotion;
  m_timestamp : Z
}.

(** const MOCK_RESPONSES: Record<Emotion, string[]>, byte for byte *)
Definition MOCK_RESPONSES (e : Emotion) : list string :=
  match e with
  | excited =>
      ["OMG anon!!! We're literally going to the moon! ðŸš€";
       "WAGMI!!! I knew this token was special! âœ¨";
       "This is it! The pump of a lifetime! I'm so happy!";
       "Anon... you're a genius for holding! Let's gooo!"]
  | happy =>
      ["Nice pump, anon! Things are looking good! ðŸ’š";
       "We're in profit! I'm so proud of you for holding!";
       "Green candles make me happy~ Keep it up!";
       "This is comfy, anon. Really comfy."]
  | neutral =>
      ["Crabbing again... patience is key, anon.";
       "Not much happening right now. Want to chat?";
       "Sideways action. Could be accumulation... or not.";
       "The market is thinking. So am I."]
  | worried =>
      ["A-anon... the chart doesn't look too good...";
       "I'm getting a little nervous here...";
       "Maybe we should have taken some profits? ðŸ˜°";
       "The dip is dipping... are you okay?"]
  | sad =>
      ["Anon... we're down bad. Hold me. ðŸ˜¢";
       "I believed in this token... *sniff*";
       "This hurts. But I'm still here with you.";
       "Down bad, but we're down bad together..."]
  | angry =>
      ["WHO DUMPED?! Show yourself, paper hands!";
       "This is manipulation, anon! I just know it!";
       "I can't believe this... ruggers everywhere!";
       "The devs better have an explanation for this!"]
  end%string.

(** const addMessage = (newEmotion, text) => { ... }; [now] is the clock
    reading of [new Date()]. *)
Definition addMessage (now : Z) (newEmotion : Emotion) (text : option string)
  (prev : list Message) : list Message :=
  JsArray.slice_last 9 prev
  ++ [{| text := text; m_emotion := newEmotion; m_timestamp := now |}].

(** The body [generateMessage] posts; [latestTokenData] is
    [tokenDataRef.current]. *)
Definition requestOf (newEmotion : Emotion) (latestTokenData : option TokenData)
  : GenerateMessage.Request :=
  {| GenerateMessage.emotion := newEmotion;
     GenerateMessage.change24h :=
       match latestTokenData with
       | Some d => num_or0 (change24h d)
       | None => 0
       end;
     GenerateMessage.price :=
       match latestTokenData with
       | Some d => num_or0 (price d)
       | None => 0
       end;
     GenerateMessage.tokenSymbol :=
       match latestTokenData with
       | Some d => if truthy_str (symbol d)
                   then match symbol d with Some s => s | None => "TOKEN" end
                   else "TOKEN"
       | None => "TOKEN"
       end |}.

(** [responses[Math.floor(Math.random() * responses.length)]] *)
Definition pick (random : number) (responses : list string) : option string :=
  let i := Qfloor (random * inject_Z (Z.of_nat (List.length responses))) in
  if (i <? 0)%Z then None else nth_error responses (Z.to_nat i).

(** The message of a response the component accepts: [response.ok] and a
    truthy [data.message]. *)
Definition accepted (response : Upstream.HttpResult GenerateMessage.Body)
  : option string :=
  match response with
  | Upstream.Responded status (Upstream.Doc (GenerateMessage.MessageBody m)) =>
      if Upstream.ok status && truthy_str (Some m) then Some m else None
  | _ => None
  end.

(** const generateMessage = async (newEmotion) => { ... }.  [response] is
    what [fetch("/api/generate-message", ..)] comes back with, [random] the
    value of [Math.random()], [now] the clock when the message is added. *)
Definition generateMessage (now : Z) (random : number) (newEmotion : Emotion)
  (response : Upstream.HttpResult GenerateMessage.Body)
  (messages : list Message) : list Message :=
  match accepted response with
  | Some m => addMessage now newEmotion (Some m) messages
  | None =>
      let responses := MOCK_RESPONSES newEmotion in
      let randomResponse := pick random responses in
      addMessage now newEmotion randomResponse messages
  end.

(** The component's request answered by the route of this repository *)
Definition askRoute (trim : string -> string) (env : GenerateMessage.Env)
  (upstream : GenerateMessage.OpenRouter) (newEmotion : Emotion)
  (latestTokenData : option TokenData)
  : Upstream.HttpResult GenerateMessage.Body :=
  let r := GenerateMessage.POST trim env
             (Some (requestOf newEmotion latestTokenData)) upstream in
  Upstream.Responded (GenerateMessage.status r)
    (Upstream.Doc (GenerateMessage.body r)).

(** One announcement: the clock, the random draw, the emotion and the
    response; and a chat receiving announcements one after the other. *)
Record Announcement : Type := {
  an_now : Z;
  an_random : number;
  an_emotion : Emotion;
  an_response : Upstream.HttpResult GenerateMessage.Body
}.

Definition announce (a : Announcement) (messages : list Message)
  : list Message :=
  generateMessage (an_now a) (an_random a) (an_emotion a) (an_response a)
    messages.

Definition chat (l : list Announcement) (messages : list Message)
  : list Message :=
  fold_left (fun ms a => announce a ms) l messages.

End Chat.

(** * Part II: properties *)

(** ** Comparisons and truthiness *)

Module JsFacts.
Import Js.

Lemma gt_spec (a b : number) : gt a b = true <-> (b < a)%Q.
Proof.
  unfold gt. rewrite negb_true_iff. split; intro H.
  - apply Qnot_le_lt. intro Hle. apply Qle_bool_iff in Hle. congruence.
  - destruct (Qle_bool a b) eqn:E; [|reflexivity].
    apply Qle_bool_iff in E. exfalso. exact (Qlt_not_le _ _ H E).
Qed.

Lemma gt_false (a b : number) : gt a b = false <-> (a <= b)%Q.
Proof. unfold gt. rewrite negb_false_iff. apply Qle_bool_iff. Qed.

Lemma ge_spec (a b : number) : ge a b = true <-> (b <= a)%Q.
Proof. unfold ge. apply Qle_bool_iff. Qed.

Lemma sne_spec (a b : number) : sne a b = true <-> ~ (a == b)%Q.
Proof.
  unfold sne. rewrite negb_true_iff. split; intro H.
  - now apply Qeq_bool_neq.
  - destruct (Qeq_bool a b) eqn:E; [|reflexivity].
    apply Qeq_bool_iff in E. contradiction.
Qed.

Lemma sne_false (a b : number) : sne a b = false <-> (a == b)%Q.
Proof. unfold sne. rewrite negb_false_iff. apply Qeq_bool_iff. Qed.

Lemma seq_spec (a b : number) : seq a b = true <-> (a == b)%Q.
Proof. apply Qeq_bool_iff. Qed.

Lemma truthy_or_null (s : option string) :
  or_null s = None \/ (or_null s = s /\ truthy_str s = true).
Proof. unfold or_null. destruct (truthy_str s); auto. Qed.

Lemma or_str_truthy (a b : option string) :
  truthy_str a = true -> or_str a b = a.
Proof. unfold or_str. now intros ->. Qed.

Lemma or_str_falsy (a b : option string) :
  truthy_str a = false -> or_str a b = b.
Proof. unfold or_str. now intros ->. Qed.

End JsFacts.

Lemma Emotion_eqb_refl (a : Emotion) : Emotion_eqb a a = true.
Proof. now destruct a. Qed.

Lemma Emotion_eqb_eq (a b : Emotion) : Emotion_eqb a b = true <-> a = b.
Proof. destruct a, b; simpl; split; congruence. Qed.

Lemma Emotion_eqb_neq (a b : Emotion) : Emotion_eqb a b = false <-> a <> b.
Proof. destruct a, b; simpl; split; congruence. Qed.

(** ** The 24h classifier *)

Module ClassifierSpec.
Import Js JsFacts Classifier.
Local Open Scope Q_scope.

(** Turns every comparison the classifier made into an order fact. *)
Ltac thresholds :=
  repeat match goal with
         | H : gt _ _ = true |- _ => apply gt_spec in H
         | H : gt _ _ = false |- _ => apply gt_false in H
         end.

Example change_12_5_is_happy : getEmotionFromChange (125 # 10) = happy.
Proof. reflexivity. Qed.

Example change_minus_35_is_angry : getEmotionFromChange (-35) = angry.
Proof. reflexivity. Qed.

Example change_20_is_happy : getEmotionFromChange 20 = happy.
Proof. reflexivity. Qed.

(** C2, as the claim words it: a 24h change of exactly 5.0 would classify as
    [happy].  It does not: the test is [change > 5], so 5.0 falls through to
    the next band and classifies as [neutral]. *)
Lemma change_5_is_neutral_not_happy :
  getEmotionFromChange 5 = neutral /\ getEmotionFromChange 5 <> happy.
Proof. split; [reflexivity | discriminate]. Qed.

(** C2 (amended): [getEmotionFromChange] is total and its six bands are
    disjoint and cover every change: excited above 20, happy in (5, 20],
    neutral in (-5, 5], worried in (-15, -5], sad in (-30, -15], angry at or
    below -30.  Every upper bound is closed and every lower bound open, so
    5.0 is neutral and 20.0 is happy. *)
Theorem getEmotionFromChange_bands (change : number) :
  (getEmotionFromChange change = excited <-> 20 < change) /\
  (getEmotionFromChange change = happy <-> 5 < change <= 20) /\
  (getEmotionFromChange change = neutral <-> -5 < change <= 5) /\
  (getEmotionFromChange change = worried <-> -15 < change <= -5) /\
  (getEmotionFromChange change = sad <-> -30 < change <= -15) /\
  (getEmotionFromChange change = angry <-> change <= -30).
Proof.
  unfold getEmotionFromChange.
  destruct (gt change 20) eqn:H20;
    [|destruct (gt change 5) eqn:H5;
      [|destruct (gt change (-5)) eqn:Hm5;
        [|destruct (gt change (-15)) eqn:Hm15;
          [|destruct (gt change (-30)) eqn:Hm30]]]];
    thresholds;
    repeat split; intros; try discriminate; try reflexivity; lra.
Qed.

End ClassifierSpec.

(** ** The price route: order of the adapters, merge of symbol and name,
       status codes *)

Module TokenPriceSpec.
Import Js JsFacts Upstream TokenPrice AggregatorSpec PriceSpec.
Local Open Scope Q_scope.
Local Open Scope string_scope.

(** Each provider block of the route, read as an adapter. *)

Lemma tryDexScreener_adapter (w : World) :
  tryDexScreener w =
  (if yields (dexAdapter w)
   then option_map (fun s => json (bodyOf s)) (dexAdapter w) else None,
   dexSymbol w, dexName w).
Proof.
  unfold tryDexScreener, dexSymbol, dexName, dexAdapter, yields.
  destruct (okDoc (dexscreener w)) as [data|]; [|reflexivity].
  destruct (bestPair data) as [p|]; [|reflexivity].
  simpl. destruct (gt (parseFloat_or0 (priceUsd p)) 0); reflexivity.
Qed.

Lemma tryJupiter_adapter (w : World) (sym name : option string) :
  tryJupiter w sym name =
  if yields (jupAdapter w)
  then option_map
         (fun s => json {| success := true; source := Some (s_source s);
                           price := s_price s; change24h := s_change24h s;
                           volume24h := s_volume24h s;
                           tokenSymbol := or_str sym (s_symbol s);
                           tokenName := or_str name (s_name s) |})
         (jupAdapter w)
  else None.
Proof.
  unfold tryJupiter, jupAdapter, yields.
  destruct (okDoc (jupiter w)) as [data|]; [|reflexivity].
  destruct (jupEntry data) as [d|]; [|reflexivity].
  simpl. destruct (gt (parseFloat_or0 (jupPrice d)) 0); reflexivity.
Qed.

Lemma tryBirdeye_adapter (w : World) (sym name : option string) :
  (if truthy_str (BIRDEYE_API_KEY w) then tryBirdeye w sym name else None) =
  if yields (birdeyeAdapter w)
  then option_map
         (fun s => json {| success := true; source := Some (s_source s);
                           price := s_price s; change24h := s_change24h s;
                           volume24h := s_volume24h s;
                           tokenSymbol := sym; tokenName := name |})
         (birdeyeAdapter w)
  else None.
Proof.
  unfold tryBirdeye, birdeyeAdapter, yields.
  destruct (truthy_str (BIRDEYE_API_KEY w)); [|reflexivity].
  destruct (okDoc (birdeyePrice w)) as [data|]; [|reflexivity].
  simpl.
  destruct (gt match birdeyeAssigned data with Some p => p | None => 0 end 0);
    [|reflexivity].
  destruct (overviewStats (birdeyeOverview w)) as [[c v]|]; reflexivity.
Qed.

(** Symbol and name kept from DexScreener are usable strings or [null]. *)
Lemma dexSymbol_normal (w : World) :
  dexSymbol w = None \/ truthy_str (dexSymbol w) = true.
Proof.
  unfold dexSymbol, dexAdapter.
  destruct (okDoc (dexscreener w)) as [data|]; [|now left].
  destruct (bestPair data) as [p|]; [|now left]. simpl.
  destruct (truthy_or_null (baseSymbol p)) as [->|[-> H]]; auto.
Qed.

Lemma dexName_normal (w : World) :
  dexName w = None \/ truthy_str (dexName w) = true.
Proof.
  unfold dexName, dexAdapter.
  destruct (okDoc (dexscreener w)) as [data|]; [|now left].
  destruct (bestPair data) as [p|]; [|now left]. simpl.
  destruct (truthy_or_null (baseName p)) as [->|[-> H]]; auto.
Qed.

Lemma or_str_self (a : option string) :
  a = None \/ truthy_str a = true -> or_str a a = a.
Proof. unfold or_str. destruct (truthy_str a); reflexivity. Qed.

Lemma or_str_none_r (a : option string) :
  a = None \/ truthy_str a = true -> or_str a None = a.
Proof.
  unfold or_str. intros [->|H]; [reflexivity|]. now rewrite H.
Qed.

Lemma birdeye_no_symbol (w : World) (s : Snapshot) :
  birdeyeAdapter w = Some s -> s_symbol s = None /\ s_name s = None.
Proof.
  unfold birdeyeAdapter.
  destruct (truthy_str (BIRDEYE_API_KEY w)); [|discriminate].
  destruct (okDoc (birdeyePrice w)); [|discriminate].
  intros [= <-]. split; reflexivity.
Qed.

(** C1, as the claim words it, fails on both worlds.  With Jupiter winning
    and carrying its own symbol and name, the route answers with
    DexScreener's (the earlier adapter's values replace the winner's);
    with Birdeye winning, the names Jupiter supplied are not carried
    forward and the route answers [null]. *)
Lemma GET_merge_differs_from_claim :
  (option_map (fun s => (s_symbol s, s_name s))
     (resolveClaimed [] (adapters worldDexNamesJupiterPrice))
   = Some (Some "JUP", Some "Jup Name")
   /\ names (GET (Some "mint") worldDexNamesJupiterPrice)
      = (Some "DEX", Some "Dex Name"))
  /\
  (option_map (fun s => (s_symbol s, s_name s))
     (resolveClaimed [] (adapters worldJupiterNamesBirdeyePrice))
   = Some (Some "JUP", Some "Jup Name")
   /\ names (GET (Some "mint") worldJupiterNamesBirdeyePrice)
      = (None, None)).
Proof. repeat split; vm_compute; reflexivity. Qed.

(** C1 (amended): when no exception escapes the provider blocks, the route
    tries DexScreener, Jupiter, Birdeye in this order (Birdeye only with
    an API key) and answers with the first adapter whose price is
    positive: source, price, 24h change and volume are that adapter's; the
    symbol and the name are DexScreener's whenever DexScreener supplied
    them (even if it had no price), and the winner's own otherwise. *)
Theorem GET_first_positive_adapter
  (tokenAddress : option string) (w : World) (win : Snapshot) :
  truthy_str tokenAddress = true ->
  escapes w = false ->
  firstYield (adapters w) = Some win ->
  GET tokenAddress w =
  json {| success := true;
          source := Some (s_source win);
          price := s_price win;
          change24h := s_change24h win;
          volume24h := s_volume24h win;
          tokenSymbol := or_str (dexSymbol w) (s_symbol win);
          tokenName := or_str (dexName w) (s_name win) |}.
Proof.
  intros Haddr Hesc Hwin.
  unfold GET. rewrite Haddr. simpl negb. cbv iota.
  rewrite tryDexScreener_adapter.
  unfold adapters, firstYield in Hwin.
  destruct (yields (dexAdapter w)) eqn:Ydex.
  - rewrite Hwin. simpl.
    unfold dexSymbol, dexName. rewrite Hwin.
    pose proof (dexSymbol_normal w) as Hs.
    pose proof (dexName_normal w) as Hn.
    unfold dexSymbol in Hs. unfold dexName in Hn. rewrite Hwin in Hs, Hn.
    rewrite (or_str_self _ Hs), (or_str_self _ Hn). reflexivity.
  - rewrite tryJupiter_adapter.
    destruct (yields (jupAdapter w)) eqn:Yjup.
    + rewrite Hwin. reflexivity.
    + rewrite Hesc. rewrite tryBirdeye_adapter.
      destruct (yields (birdeyeAdapter w)) eqn:Ybe; [|discriminate].
      rewrite Hwin. simpl.
      destruct (birdeye_no_symbol w win Hwin) as [-> ->].
      rewrite (or_str_none_r _ (dexSymbol_normal w)).
      rewrite (or_str_none_r _ (dexName_normal w)). reflexivity.
Qed.

Lemma GET_first_positive_adapter_witness :
  GET (Some "mint") worldDexNamesJupiterPrice =
  json {| success := true; source := Some jupiter_src; price := 3 # 2;
          change24h := 4; volume24h := 10;
          tokenSymbol := Some "DEX"; tokenName := Some "Dex Name" |}.
Proof.
  apply (GET_first_positive_adapter (Some "mint") worldDexNamesJupiterPrice
           {| s_source := jupiter_src; s_price := 3 # 2; s_change24h := 4;
              s_volume24h := 10; s_symbol := Some "JUP";
              s_name := Some "Jup Name" |});
    reflexivity.
Defined.

Example GET_picks_most_liquid_pair :
  GET (Some "mint") worldDexOnly =
  json {| success := true; source := Some dexscreener_src;
          price := 1234 # 10000000; change24h := 25 # 2; volume24h := 900;
          tokenSymbol := Some "WAIFU"; tokenName := Some "Waifu" |}.
Proof. reflexivity. Qed.

End TokenPriceSpec.

Module PriceStatusSpec.
Import Js JsFacts Upstream TokenPrice AggregatorSpec PriceSpec TokenPriceSpec.
Local Open Scope Q_scope.
Local Open Scope string_scope.

Lemma addressMissing_falsy (tokenAddress : option string) :
  addressMissing tokenAddress <-> truthy_str tokenAddress = false.
Proof.
  unfold addressMissing. destruct tokenAddress as [[|a s]|]; simpl;
    split; intros; auto; try discriminate.
  destruct H; discriminate.
Qed.

Lemma firstYield_none (w : World) :
  firstYield (adapters w) = None <->
  yields (dexAdapter w) = false /\ yields (jupAdapter w) = false
  /\ yields (birdeyeAdapter w) = false.
Proof.
  unfold adapters, firstYield, yields.
  destruct (dexAdapter w) as [d|], (jupAdapter w) as [j|],
    (birdeyeAdapter w) as [b|];
    repeat match goal with
           | |- context [gt (s_price ?x) 0] => destruct (gt (s_price x) 0)
           end;
    split; intros; repeat split; try discriminate; try reflexivity;
    try (destruct H as [? [? ?]]; discriminate).
Qed.

(** What the route answers to a request that carries an address *)
Lemma GET_answer (tokenAddress : option string) (w : World) :
  truthy_str tokenAddress = true ->
  exists b, GET tokenAddress w = json b /\
    (success b = false <-> firstYield (adapters w) = None \/ internalError w)
    /\ (success b = false -> price b = 0).
Proof.
  intros Haddr. unfold GET. rewrite Haddr. simpl negb. cbv iota.
  rewrite tryDexScreener_adapter. unfold internalError.
  setoid_rewrite firstYield_none.
  destruct (yields (dexAdapter w)) eqn:Ydex.
  - destruct (dexAdapter w) as [d|]; [|discriminate]. simpl.
    eexists; split; [reflexivity|]. simpl.
    split; [split|]; intros; try discriminate.
    destruct H as [[H _]|[_ [H _]]]; discriminate.
  - rewrite tryJupiter_adapter.
    destruct (yields (jupAdapter w)) eqn:Yjup.
    + destruct (jupAdapter w) as [j|]; [|discriminate]. simpl.
      eexists; split; [reflexivity|]. simpl.
      split; [split|]; intros; try discriminate.
      destruct H as [[_ [H _]]|[_ [_ H]]]; discriminate.
    + destruct (escapes w) eqn:Hesc.
      * eexists; split; [reflexivity|]. simpl.
        split; [split|]; intros; auto.
      * rewrite tryBirdeye_adapter.
        destruct (yields (birdeyeAdapter w)) eqn:Ybe.
        -- destruct (birdeyeAdapter w) as [b|]; [|discriminate]. simpl.
           eexists; split; [reflexivity|]. simpl.
           split; [split|]; intros; try discriminate.
           destruct H as [[_ [_ H]]|[H _]]; discriminate.
        -- simpl. eexists; split; [reflexivity|]. simpl.
           split; [split|]; intros; auto.
Qed.

(** C8: the status of the price route is 400 exactly when the address
    parameter is missing (absent or empty, the [!tokenAddress] guard);
    every request with an address is answered with 200, and when no
    adapter yields a positive price, or an internal error occurs, the 200
    body has [success: false] and [price: 0].  No 5xx is ever returned. *)
Theorem GET_status_400_iff_address_missing
  (tokenAddress : option string) (w : World) :
  (status (GET tokenAddress w) = 400%Z <-> addressMissing tokenAddress)
  /\ (~ addressMissing tokenAddress ->
      status (GET tokenAddress w) = 200%Z
      /\ exists b, body (GET tokenAddress w) = Price b
         /\ (firstYield (adapters w) = None \/ internalError w ->
             success b = false /\ price b = 0))
  /\ (status (GET tokenAddress w) = 200%Z \/ status (GET tokenAddress w) = 400%Z).
Proof.
  rewrite addressMissing_falsy.
  destruct (truthy_str tokenAddress) eqn:Haddr.
  - destruct (GET_answer tokenAddress w Haddr) as [b [Hb [Hs Hp]]].
    rewrite Hb. simpl. split; [|split].
    + split; intro; discriminate.
    + intros _. split; [reflexivity|].
      exists b. split; [reflexivity|]. intro Hnone.
      apply Hs in Hnone. auto.
    + now left.
  - unfold GET. rewrite Haddr. simpl.
    repeat split; intros; auto; congruence.
Qed.

Example GET_no_liquidity_pairs :
  GET (Some "mint") worldNoData = json (noPrice None None).
Proof. reflexivity. Qed.

Example GET_without_address :
  status (GET None worldNoData) = 400%Z
  /\ status (GET (Some "") worldNoData) = 400%Z.
Proof. split; reflexivity. Qed.

End PriceStatusSpec.

(** ** The reconnecting stream client: back-off schedule *)

Module ReconnectSpec.
Import JupiterClient ClientSpec.
Local Open Scope Z_scope.

Lemma failures_add (n m : nat) (c : Client) :
  failures (n + m) c =
  (fst (failures m (fst (failures n c))),
   snd (failures n c) ++ snd (failures m (fst (failures n c)))).
Proof.
  revert c. induction n as [|n IH]; intro c; simpl.
  - now destruct (failures m c).
  - destruct (failOnce c) as [c1 e1]. rewrite IH.
    destruct (failures n c1) as [c2 e2]. simpl.
    now rewrite app_assoc.
Qed.

(** Without a source no transport error can arrive any more. *)
Lemma failures_without_source (n : nat) (c : Client) :
  eventSource c = false -> failures n c = (c, []).
Proof.
  intro H. induction n as [|n IH]; simpl; [reflexivity|].
  unfold failOnce, onerror. rewrite H. now rewrite IH.
Qed.

(** C5, as the claim words it: the delay of the first retry would be one
    second.  The counter is incremented before the delay is computed, so
    the first retry waits [1000 * 2^1] ms, two seconds. *)
Lemma first_retry_delay_is_not_1s :
  nthFailure 1 (started true) = [SetTimeoutConnect 2000]
  /\ nthFailure 1 (started true) <> [SetTimeoutConnect 1000].
Proof. split; [reflexivity | discriminate]. Qed.

(** An error event that does not find the source closed is ignored. *)
Lemma errorOnce_not_closed (readyState : ReadyState) (c : Client) :
  readyState <> CLOSED -> errorOnce readyState c = (c, []).
Proof.
  intro H. unfold errorOnce, onerror.
  destruct (eventSource c), readyState; try reflexivity; congruence.
Qed.

(** Only the error events that find the source closed count. *)
Lemma errorsInRow_failures (states : list ReadyState) :
  forall c, errorsInRow states c = failures (closedAmong states) c.
Proof.
  induction states as [|readyState states IH]; intro c; [reflexivity|].
  cbn [errorsInRow].
  destruct readyState; cbn [closedAmong].
  - rewrite errorOnce_not_closed by discriminate. rewrite IH.
    now destruct (failures (closedAmong states) c).
  - rewrite errorOnce_not_closed by discriminate. rewrite IH.
    now destruct (failures (closedAmong states) c).
  - cbn [failures]. change (errorOnce CLOSED c) with (failOnce c).
    destruct (failOnce c) as [c1 eff1]. now rewrite IH.
Qed.

Lemma small_cases (n : nat) : (n <= 11)%nat -> In n (seq 0 12).
Proof. intro H. apply in_seq. lia. Qed.

(** C5 (amended): an error event counts when it finds the source closed
    ([readyState === EventSource.CLOSED]); an error event that leaves the
    source in another state is ignored by the client, which schedules
    nothing and counts nothing.  On such errors in a row the client
    reconnects with exponential back-off; the [k]-th retry ([1 <= k <= 10])
    is delayed by [min(1000 * 2^k, 30000)] ms, that is 2 s for the first
    retry, doubling, capped at 30 s from the fifth on; there are at most 10
    retries, the 11th such error in a row calls [onError] with "Max
    reconnect attempts reached" and schedules nothing, and nothing is
    retried afterwards. *)
Theorem reconnect_backoff_schedule (onConnectedGiven : bool) :
  snd (failures 11 (started onConnectedGiven)) =
    [SetTimeoutConnect 2000; SetTimeoutConnect 4000; SetTimeoutConnect 8000;
     SetTimeoutConnect 16000; SetTimeoutConnect 30000; SetTimeoutConnect 30000;
     SetTimeoutConnect 30000; SetTimeoutConnect 30000; SetTimeoutConnect 30000;
     SetTimeoutConnect 30000; OnError "Max reconnect attempts reached"%string]
  /\ (forall k : nat, (1 <= k <= 10)%nat ->
        nthFailure k (started onConnectedGiven) =
        [SetTimeoutConnect (Z.min (1000 * 2 ^ Z.of_nat k) 30000)])
  /\ (forall n : nat, (11 <= n)%nat ->
        snd (failures n (started onConnectedGiven)) =
        snd (failures 11 (started onConnectedGiven)))
  /\ (forall (readyState : ReadyState) (c : Client),
        readyState <> CLOSED -> onerror readyState c = (c, []))
  /\ (forall states : list ReadyState,
        snd (errorsInRow states (started onConnectedGiven)) =
        firstn (closedAmong states)
          (snd (failures 11 (started onConnectedGiven)))).
Proof.
  assert (Hlate : forall n : nat, (11 <= n)%nat ->
            snd (failures n (started onConnectedGiven)) =
            snd (failures 11 (started onConnectedGiven))).
  { intros n Hn.
    replace n with (11 + (n - 11))%nat by lia.
    rewrite failures_add. cbn [snd].
    rewrite (failures_without_source (n - 11)).
    + cbn [snd]. now rewrite app_nil_r.
    + destruct onConnectedGiven; reflexivity. }
  split; [|split; [|split; [|split]]].
  - destruct onConnectedGiven; reflexivity.
  - intros k Hk.
    assert (Hcases : (k = 1 \/ k = 2 \/ k = 3 \/ k = 4 \/ k = 5 \/ k = 6
                      \/ k = 7 \/ k = 8 \/ k = 9 \/ k = 10)%nat) by lia.
    destruct onConnectedGiven;
      repeat (destruct Hcases as [->|Hcases]; [reflexivity|]);
      subst k; reflexivity.
  - exact Hlate.
  - intros readyState c H. unfold onerror.
    destruct (eventSource c), readyState; try reflexivity; congruence.
  - intros states. rewrite errorsInRow_failures.
    set (n := closedAmong states).
    destruct (Nat.le_gt_cases n 11) as [Hle|Hgt].
    + pose proof (small_cases n Hle) as Hcases. cbn [seq In] in Hcases.
      destruct onConnectedGiven;
        repeat (destruct Hcases as [<-|Hcases]; [reflexivity|]);
        contradiction.
    + rewrite (Hlate n) by lia. symmetry. apply firstn_all2.
      destruct onConnectedGiven; cbn; lia.
Qed.

(** A successful [onopen] starts the count afresh. *)
Lemma onopen_resets (c : Client) : reconnectAttempts (onopen c) = 0.
Proof. reflexivity. Qed.

(** After [cleanup] nothing reconnects. *)
Lemma closed_never_reconnects (rs : ReadyState) (c : Client) :
  isClosed c = true -> snd (onerror rs c) = [].
Proof.
  intro H. unfold onerror.
  destruct (eventSource c), rs; try reflexivity. now rewrite H.
Qed.

End ReconnectSpec.

(** ** The update reducer: throttle, and updates without prior state *)

Module ReducerSpec.
Import Js JupiterClient WaifuTracker ClientSpec.
Local Open Scope Z_scope.

Lemma firstUpdate_keeps_clock (u : TokenData) (s : State) :
  lastUpdate (firstUpdate u s) = lastUpdate s
  /\ updateCount (firstUpdate u s) = updateCount s.
Proof.
  unfold firstUpdate.
  destruct (truthy_str (address u) && _)%bool; split; reflexivity.
Qed.

Lemma mergeUpdate_keeps_clock (now : Z) (prev u : TokenData) (s : State) :
  lastUpdate (mergeUpdate now prev u s) = lastUpdate s
  /\ updateCount (mergeUpdate now prev u s) = updateCount s
  /\ tokenData (mergeUpdate now prev u s)
     = Some (recomputeMarketCap (merge prev u)).
Proof.
  unfold mergeUpdate.
  destruct (if shouldTriggerMessage _ _ then _ else _) as [refs' out].
  repeat split; reflexivity.
Qed.

(** An update inside the window leaves the whole state as it was. *)
Lemma throttled (now : Z) (u : TokenData) (s : State) :
  now - lastUpdate s < UPDATE_THROTTLE_MS ->
  handleRealtimeUpdate now u s = s.
Proof.
  intro H. unfold handleRealtimeUpdate.
  destruct (Z.ltb_spec (now - lastUpdate s) UPDATE_THROTTLE_MS); [reflexivity|lia].
Qed.

(** An update outside the window is accepted: the clock of the throttle
    moves, the counter is incremented and the state is merged. *)
Lemma accepted (now : Z) (u : TokenData) (s : State) :
  UPDATE_THROTTLE_MS <= now - lastUpdate s ->
  lastUpdate (handleRealtimeUpdate now u s) = now
  /\ updateCount (handleRealtimeUpdate now u s) = updateCount s + 1
  /\ (forall prev, tokenData s = Some prev ->
        tokenData (handleRealtimeUpdate now u s)
        = Some (recomputeMarketCap (merge prev u))).
Proof.
  intro H. unfold handleRealtimeUpdate.
  destruct (Z.ltb_spec (now - lastUpdate s) UPDATE_THROTTLE_MS); [lia|].
  cbn [tokenData].
  destruct (tokenData s) as [prev|].
  - destruct (mergeUpdate_keeps_clock now prev u
                {| tokenData := Some prev; emotion := emotion s;
                   chartData := chartData s; updateCount := updateCount s + 1;
                   lastUpdate := now; refs := refs s;
                   generated := generated s |}) as [H1 [H2 H3]].
    rewrite H1, H2, H3. repeat split. intros p [= <-]. reflexivity.
  - destruct (firstUpdate_keeps_clock u
                {| tokenData := None; emotion := emotion s;
                   chartData := chartData s; updateCount := updateCount s + 1;
                   lastUpdate := now; refs := refs s;
                   generated := generated s |}) as [H1 H2].
    rewrite H1, H2. repeat split. intros p [=].
Qed.

(** C9: the window is 500 ms; an update accepted at [t] is applied, and any
    update that arrives less than 500 ms after it is dropped: the state
    after it is the state before it, so nothing of the dropped update is
    kept to be queued or replayed. *)
Theorem update_inside_throttle_window_is_dropped
  (t t' : Z) (u u' : TokenData) (s : State) :
  UPDATE_THROTTLE_MS <= t - lastUpdate s ->
  t' - t < UPDATE_THROTTLE_MS ->
  UPDATE_THROTTLE_MS = 500
  /\ lastUpdate (handleRealtimeUpdate t u s) = t
  /\ updateCount (handleRealtimeUpdate t u s) = updateCount s + 1
  /\ (forall prev, tokenData s = Some prev ->
        tokenData (handleRealtimeUpdate t u s)
        = Some (recomputeMarketCap (merge prev u)))
  /\ handleRealtimeUpdate t' u' (handleRealtimeUpdate t u s)
     = handleRealtimeUpdate t u s.
Proof.
  intros Hfirst Hsecond.
  destruct (accepted t u s Hfirst) as [Hclock [Hcount Hmerge]].
  split; [reflexivity|]. repeat split; auto.
  apply throttled. rewrite Hclock. exact Hsecond.
Qed.

(** Two updates 100 ms apart: only the first is applied. *)
Lemma update_inside_throttle_window_is_dropped_witness :
  handleRealtimeUpdate 1700000000100 (partialUpdate 4%Q 1700000000100)
    (handleRealtimeUpdate 1700000000000 (partialUpdate 3%Q 1700000000000)
       tracking)
  = handleRealtimeUpdate 1700000000000 (partialUpdate 3%Q 1700000000000) tracking.
Proof.
  apply (update_inside_throttle_window_is_dropped
           1700000000000 1700000000100
           (partialUpdate 3%Q 1700000000000) (partialUpdate 4%Q 1700000000100)
           tracking); vm_compute; [discriminate | reflexivity].
Defined.

Example first_of_two_updates_applied :
  option_map price
    (tokenData (handleRealtimeUpdate 1700000000100
                  (partialUpdate 4%Q 1700000000100)
                  (handleRealtimeUpdate 1700000000000
                     (partialUpdate 3%Q 1700000000000) tracking)))
  = Some (Some (3 # 1)%Q).
Proof. reflexivity. Qed.

Lemma firstUpdate_needs_address (u : TokenData) (s : State) :
  tokenData (firstUpdate u s) <> None ->
  truthy_str (address u) = true /\ supply u <> None.
Proof.
  unfold firstUpdate.
  destruct (truthy_str (address u)); simpl; [|congruence].
  destruct (supply u); simpl; [|congruence].
  intros _. split; [reflexivity|discriminate].
Qed.

Lemma handle_without_state (now : Z) (u : TokenData) (s : State) :
  tokenData s = None ->
  tokenData (handleRealtimeUpdate now u s) <> None ->
  truthy_str (address u) = true /\ supply u <> None.
Proof.
  intros Hnone. unfold handleRealtimeUpdate.
  destruct (now - lastUpdate s <? UPDATE_THROTTLE_MS); [congruence|].
  cbn [tokenData]. rewrite Hnone. apply firstUpdate_needs_address.
Qed.

(** Whatever the server put in a frame, the object the client parses out
    of it has no address. *)
Lemma parsed_frame_has_no_address (ev : WsToken.TokenUpdateEvent) (d : TokenData) :
  data (parse ev) = Some d -> address d = None.
Proof.
  unfold parse. simpl. destruct (WsToken.data ev); simpl; [|discriminate].
  intros [= <-]. reflexivity.
Qed.

Lemma frame_keeps_null (c : Client) (now : Z) (ev : WsToken.TokenUpdateEvent)
  (s : State) :
  tokenData s = None ->
  tokenData (deliver now (onmessage (Some (parse ev)) c) s) = None.
Proof.
  intro Hnone. unfold onmessage.
  destruct (isClosed c); [exact Hnone|].
  pose proof (parsed_frame_has_no_address ev) as Hparsed.
  destruct (parse ev) as [ty dat msg tok]. cbn [type data message] in *.
  destruct ty; try exact Hnone.
  - destruct dat as [d|]; [|exact Hnone].
    cbn [deliver fold_left].
    destruct (tokenData (handleRealtimeUpdate now d s)) eqn:Hafter;
      [|reflexivity].
    destruct (handle_without_state now d s Hnone) as [Haddr _].
    + rewrite Hafter. discriminate.
    + rewrite (Hparsed d eq_refl) in Haddr. discriminate.
  - destruct (onErrorGiven c); exact Hnone.
  - destruct (onConnectedGiven c); exact Hnone.
Qed.

(** A full fetch that resolves with [null] changes nothing. *)
Lemma arrive_keeps_null (c : Client) (now : Z) (a : Arrival) (s : State)
  (pending : nat) :
  tokenData s = None -> resolvedWithData a = false ->
  tokenData (fst (arrive c now a (s, pending))) = None.
Proof.
  intros Hnone Ha. destruct a as [ev|[d|]]; cbn [arrive fst].
  - now apply frame_keeps_null.
  - discriminate.
  - destruct pending; exact Hnone.
Qed.

(** Without a [refresh] frame no full fetch is started, so none resolves. *)
Lemma arrive_without_refresh (c : Client) (now : Z) (a : Arrival) (s : State) :
  tokenData s = None -> isRefresh a = false ->
  tokenData (fst (arrive c now a (s, O))) = None
  /\ snd (arrive c now a (s, O)) = O.
Proof.
  intros Hnone Ha. destruct a as [ev|d]; cbn [arrive fst snd].
  - split; [now apply frame_keeps_null|].
    unfold onmessage, isRefresh in *. destruct (isClosed c); [reflexivity|].
    destruct ev as [ty dat msg tok]. cbn [parse type WsToken.type] in *.
    destruct ty; try discriminate; cbn [data]; try reflexivity.
    + now destruct dat.
    + destruct (onErrorGiven c); reflexivity.
    + destruct (onConnectedGiven c); reflexivity.
  - now split.
Qed.

(** The polls of a connection send [update] and [error] events only. *)
Lemma polls_send_no_refresh (ws : list (Upstream.World * Z))
  (s : WsToken.Session) (now : Z) :
  Forall (fun a => isRefresh (snd a) = false)
         (framesAt now (snd (StreamSpec.polls ws s))).
Proof.
  revert s. induction ws as [|[w t] ws IH]; intro s; simpl; [constructor|].
  assert (Hone : Forall (fun a => isRefresh (snd a) = false)
                   (framesAt now (snd (WsToken.pollTokenData s w t)))).
  { unfold WsToken.pollTokenData, WsToken.pollSettled, WsToken.sendEvent.
    repeat match goal with
           | |- context [match ?x with _ => _ end] => destruct x
           | |- context [if ?x then _ else _] => destruct x
           end; cbn; repeat constructor. }
  specialize (IH (fst (WsToken.pollTokenData s w t))).
  destruct (WsToken.pollTokenData s w t) as [s1 sent1]. cbn [fst snd] in *.
  destruct (StreamSpec.polls ws s1) as [s2 sent2]. cbn [fst snd] in *.
  unfold framesAt in *. rewrite map_app. apply Forall_app. now split.
Qed.

(** C10: without prior token state an update creates the initial state only
    if it carries an address and a defined supply; the [update] frames of
    the stream never carry an address, so whatever frames the stream
    delivers while the state is still [null] are discarded and the state
    stays [null], as long as no full fetch has resolved with data (a
    [refresh] frame starts one; without such a frame none can resolve).
    This holds in particular for the events a connection's polls send,
    among which there is no [refresh]. *)
Theorem stream_updates_do_not_create_state (s : State) :
  tokenData s = None ->
  (forall now u, tokenData (handleRealtimeUpdate now u s) <> None ->
                 truthy_str (address u) = true /\ supply u <> None)
  /\ (forall c arrivals,
        Forall (fun a => resolvedWithData (snd a) = false) arrivals ->
        tokenData (consume c arrivals s) = None)
  /\ (forall c arrivals,
        Forall (fun a => isRefresh (snd a) = false) arrivals ->
        tokenData (consume c arrivals s) = None)
  /\ (forall c tokenAddress ws now,
        tokenData
          (consume c
             (framesAt now
                (snd (StreamSpec.polls ws (WsToken.start tokenAddress)))) s)
        = None).
Proof.
  intro Hnone.
  assert (Hquiet : forall c arrivals,
             Forall (fun a => isRefresh (snd a) = false) arrivals ->
             tokenData (consume c arrivals s) = None).
  { intros c arrivals. unfold consume.
    assert (Hgen : forall s0, tokenData s0 = None ->
              Forall (fun a => isRefresh (snd a) = false) arrivals ->
              tokenData
                (fst (fold_left (fun st a => arrive c (fst a) (snd a) st)
                        arrivals (s0, O))) = None).
    { induction arrivals as [|[now a] arrivals IH]; intros s0 H0 Hall;
        cbn [fold_left fst snd]; [exact H0|].
      inversion Hall as [|? ? Ha Hrest]; subst. cbn [snd] in Ha.
      destruct (arrive_without_refresh c now a s0 H0 Ha) as [H1 Hp].
      destruct (arrive c now a (s0, O)) as [s1 p1]. cbn [fst snd] in *.
      subst p1. now apply IH. }
    now apply Hgen. }
  split; [|split; [|split]].
  - intros now u. now apply handle_without_state.
  - intros c arrivals. unfold consume.
    assert (Hgen : forall s0 pending, tokenData s0 = None ->
              Forall (fun a => resolvedWithData (snd a) = false) arrivals ->
              tokenData
                (fst (fold_left (fun st a => arrive c (fst a) (snd a) st)
                        arrivals (s0, pending))) = None).
    { induction arrivals as [|[now a] arrivals IH]; intros s0 pending H0 Hall;
        cbn [fold_left fst snd]; [exact H0|].
      inversion Hall as [|? ? Ha Hrest]; subst. cbn [snd] in Ha.
      pose proof (arrive_keeps_null c now a s0 pending H0 Ha) as H1.
      destruct (arrive c now a (s0, pending)) as [s1 p1]. cbn [fst] in H1.
      now apply IH. }
    now apply Hgen.
  - exact Hquiet.
  - intros c tokenAddress ws now. apply Hquiet. apply polls_send_no_refresh.
Qed.

(** What the second part leaves out does happen: a [refresh] frame starts a
    full fetch, and when that fetch resolves with data the state is
    created. *)
Example refetch_after_refresh_creates_state :
  tokenData
    (consume (started true)
       [(1700000000000,
         Frame {| WsToken.type := WsToken.refresh; WsToken.data := None;
                  WsToken.message := None; WsToken.token := None |});
        (1700000000200, Resolved (Some fetchedToken))] mount)
  = Some fetchedToken.
Proof. reflexivity. Qed.

Lemma mergeUpdate_withMerged (now : Z) (prev updatedData : TokenData)
  (s : State) :
  mergeUpdate now prev updatedData s
  = withMerged now prev (merge prev updatedData) s.
Proof. reflexivity. Qed.

End ReducerSpec.

(** ** The stream's poll step: when an [update] event is sent *)

Module PollSpec.
Import Js JsFacts Upstream WsToken StreamSpec.
Local Open Scope Q_scope.

(** [fetchTokenData] only ever resolves with a positive price. *)
Lemma fetchTokenData_positive (w : World) (d : Fetched) :
  fetchTokenData w = Return d -> gt (price d) 0 = true.
Proof.
  unfold fetchTokenData, viaDexScreener, viaJupiter, viaBirdeye.
  destruct (okDoc (dexscreener w)) as [dex|];
    [destruct (bestPair dex) as [p|];
     [destruct (gt (parseFloat_or0 (priceUsd p)) 0) eqn:Hp;
      [intros [= <-]; exact Hp|]|]|];
    (destruct (okDoc (jupiter w)) as [jup|];
     [destruct (jupEntry jup) as [j|];
      [cbn [l_price];
       destruct (gt (parseFloat_or0 (jupPrice j)) 0) eqn:Hj;
       [intros [= <-]; exact Hj|]|]|]);
    (destruct (truthy_str (BIRDEYE_API_KEY w)); [|discriminate];
     destruct (okDoc (birdeyePrice w)) as [be|]; [|discriminate];
     match goal with
     | |- context [gt ?x 0] => destruct (gt x 0) eqn:Hb
     end; [|discriminate];
     destruct (overviewStats (birdeyeOverview w)) as [[c v]|];
     intros [= <-]; exact Hb).
Qed.

Lemma lastSentSnapshot_app (a b : list TokenUpdateEvent) :
  lastSentSnapshot (a ++ b) =
  match lastSentSnapshot b with
  | Some u => Some u
  | None => lastSentSnapshot a
  end.
Proof.
  induction a as [|ev a IH]; simpl.
  - now destruct (lastSentSnapshot b).
  - rewrite IH. destruct (lastSentSnapshot b); reflexivity.
Qed.

(** The decision of one poll of an open session, in terms of the snapshot
    last sent *)
Lemma pollTokenData_decision (a : string) (s : Session)
  (sent : list TokenUpdateEvent) (w : World) (now : Z) (d : Fetched) :
  tracks a s sent ->
  fetchTokenData w = Return d ->
  pollTokenData s w now =
  if match lastSentSnapshot sent with
     | None => true
     | Some u => differs (snapshotOf d now) u
     end
  then (remember s (snapshotOf d now), [updateEvent a (snapshotOf d now)])
  else (s, []).
Proof.
  intros [Ha [Hopen Hlast]] Hfetch.
  unfold pollTokenData. rewrite Hopen, Hfetch.
  unfold pollSettled, sendEvent, differs, snapshotOf, remember, updateEvent.
  cbn [isClosed tokenAddress u_price u_supply u_decimals]. rewrite Hopen, Ha.
  destruct (lastSentSnapshot sent) as [u|].
  - destruct Hlast as [-> Hpos]. cbn [last_price last_supply last_decimals].
    assert (Hnz : seq (u_price u) 0 = false).
    { destruct (seq (u_price u) 0) eqn:E; [|reflexivity].
      apply seq_spec in E. apply gt_spec in Hpos. lra. }
    rewrite Hnz, orb_false_r. reflexivity.
  - rewrite Hlast. cbn [last_price last_supply last_decimals].
    replace (seq 0 0) with true by reflexivity.
    rewrite orb_true_r. reflexivity.
Qed.

Lemma pollTokenData_tracks (a : string) (s : Session)
  (sent : list TokenUpdateEvent) (w : World) (now : Z) :
  tracks a s sent ->
  tracks a (fst (pollTokenData s w now))
           (sent ++ snd (pollTokenData s w now)).
Proof.
  intros Htr.
  destruct (fetchTokenData w) as [d|msg] eqn:Hfetch.
  - rewrite (pollTokenData_decision a s sent w now d Htr Hfetch).
    destruct Htr as [Ha [Hopen Hlast]].
    destruct (match lastSentSnapshot sent with
              | None => true
              | Some u => differs (snapshotOf d now) u
              end).
    + cbn [fst snd]. unfold tracks. rewrite lastSentSnapshot_app.
      cbn. repeat split; auto.
      exact (fetchTokenData_positive w d Hfetch).
    + cbn [fst snd]. rewrite app_nil_r. repeat split; auto.
  - destruct Htr as [Ha [Hopen Hlast]].
    unfold pollTokenData. rewrite Hopen, Hfetch.
    unfold pollSettled, sendEvent. rewrite Hopen. cbn [fst snd].
    unfold tracks. rewrite lastSentSnapshot_app. cbn.
    repeat split; auto.
Qed.

Lemma polls_tracks (a : string) (ws : list (World * Z)) (s : Session)
  (sent : list TokenUpdateEvent) :
  tracks a s sent ->
  tracks a (fst (polls ws s)) (sent ++ snd (polls ws s)).
Proof.
  revert s sent. induction ws as [|[w now] ws IH]; intros s sent Htr; simpl.
  - now rewrite app_nil_r.
  - pose proof (pollTokenData_tracks a s sent w now Htr) as H1.
    destruct (pollTokenData s w now) as [s1 sent1]. cbn [fst snd] in H1.
    specialize (IH s1 (sent ++ sent1) H1).
    destruct (polls ws s1) as [s2 sent2]. cbn [fst snd] in *.
    now rewrite app_assoc.
Qed.

Lemma start_tracks (a : string) : tracks a (start a) [].
Proof. repeat split. Qed.

(** C4: on a connection that has polled any number of times and is still
    open, a poll whose fetch resolves sends an [update] event exactly when
    no snapshot has been sent yet or the new snapshot differs from the
    snapshot last sent on price, supply or decimals; the event carries the
    full current data and the snapshot is remembered; otherwise nothing is
    sent and the session is unchanged.  The comparison ignores the 24h
    change and volume. *)
Theorem poll_sends_update_iff_snapshot_changed
  (tokenAddress_ : string) (ws : list (World * Z)) (w : World) (now : Z)
  (d : Fetched) :
  fetchTokenData w = Return d ->
  pollTokenData (fst (polls ws (start tokenAddress_))) w now =
  if match lastSentSnapshot (snd (polls ws (start tokenAddress_))) with
     | None => true
     | Some u => differs (snapshotOf d now) u
     end
  then (remember (fst (polls ws (start tokenAddress_))) (snapshotOf d now),
        [updateEvent tokenAddress_ (snapshotOf d now)])
  else (fst (polls ws (start tokenAddress_)), []).
Proof.
  intro Hfetch.
  apply pollTokenData_decision; [|exact Hfetch].
  exact (polls_tracks tokenAddress_ ws (start tokenAddress_) []
           (start_tracks tokenAddress_)).
Qed.

(** [differs] looks at price, supply and decimals only. *)
Lemma differs_ignores_24h (d : Fetched) (c v : number) (now now' : Z)
  (u : UpdateData) :
  differs (snapshotOf {| price := price d; change24h := c; volume24h := v;
                         supply := supply d; decimals := decimals d |} now') u
  = differs (snapshotOf d now) u.
Proof. reflexivity. Qed.

(** A poll that fails sends an [error] event and keeps the session. *)
Lemma poll_failure_sends_error (s : Session) (w : World) (now : Z) (msg : string) :
  isClosed s = false -> fetchTokenData w = Throw msg ->
  pollTokenData s w now =
  (s, [{| type := error; data := None; message := Some msg;
          token := Some (tokenAddress s) |}]).
Proof.
  intros Hopen Hfetch. unfold pollTokenData. rewrite Hopen, Hfetch.
  unfold pollSettled, sendEvent. now rewrite Hopen.
Qed.

(** A closed session polls nothing and sends nothing. *)
Lemma closed_session_is_silent (s : Session) (w : World) (now : Z) :
  isClosed s = true ->
  pollTokenData s w now = (s, []) /\ onKeepAlive s = [].
Proof.
  intro H. unfold pollTokenData, onKeepAlive. now rewrite H.
Qed.

Lemma poll_sends_update_iff_snapshot_changed_witness :
  pollTokenData
    (fst (polls [(jupiterQuotes 2 1 50, 5000%Z)] (start "mint")))
    (jupiterQuotes 2 7 90) 10000
  = (fst (polls [(jupiterQuotes 2 1 50, 5000%Z)] (start "mint")), []).
Proof.
  apply (poll_sends_update_iff_snapshot_changed "mint"
           [(jupiterQuotes 2 1 50, 5000%Z)] (jupiterQuotes 2 7 90) 10000
           {| price := 2; change24h := 7; volume24h := 90; supply := 0;
              decimals := 9 |}).
  reflexivity.
Defined.

Example first_poll_sends_update :
  snd (pollTokenData (start "mint") (jupiterQuotes 2 1 50) 5000)
  = [updateEvent "mint"
       {| u_supply := 0; u_decimals := 9; u_price := 2; u_marketCap := 0;
          u_change24h := 1; u_volume24h := 50; u_timestamp := 5000 |}].
Proof. reflexivity. Qed.

Example price_move_sends_update :
  snd (pollTokenData
         (fst (polls [(jupiterQuotes 2 1 50, 5000%Z)] (start "mint")))
         (jupiterQuotes 3 1 50) 10000)
  = [updateEvent "mint"
       {| u_supply := 0; u_decimals := 9; u_price := 3; u_marketCap := 0;
          u_change24h := 1; u_volume24h := 50; u_timestamp := 10000 |}].
Proof. reflexivity. Qed.

End PollSpec.

(** ** Sorting with a comparator *)

Module SortFacts.
Import JsArray.

Section Sorted.
Variable A : Type.
Variable before : A -> A -> bool.

(** The comparator is a strict weak order. *)
Hypothesis before_asym :
  forall x y, before x y = true -> before y x = false.
Hypothesis before_negtrans :
  forall x y z, before y x = false -> before z y = false -> before z x = false.

Lemma insert_perm (x : A) (l : list A) :
  Permutation (insert before x l) (x :: l).
Proof.
  induction l as [|y l IH]; simpl; [reflexivity|].
  destruct (before y x); [|reflexivity].
  rewrite IH. apply perm_swap.
Qed.

Lemma sort_perm (l : list A) : Permutation (sort before l) l.
Proof.
  induction l as [|x l IH]; simpl; [reflexivity|].
  unfold sort in IH. rewrite insert_perm. now apply perm_skip.
Qed.

Lemma insert_sorted (x : A) (l : list A) :
  StronglySorted (inOrder before) l -> StronglySorted (inOrder before) (insert before x l).
Proof.
  induction 1 as [|y l Hs IH Hall]; simpl.
  - constructor; constructor.
  - destruct (before y x) eqn:E.
    + constructor; [exact IH|].
      rewrite Forall_forall. intros z Hz.
      apply (Permutation_in _ (insert_perm x l)) in Hz.
      destruct Hz as [<-|Hz].
      * unfold inOrder. now apply before_asym.
      * rewrite Forall_forall in Hall. now apply Hall.
    + constructor; [now constructor|].
      constructor; [exact E|].
      rewrite Forall_forall in *. intros z Hz.
      unfold inOrder in *. apply before_negtrans with y; auto.
Qed.

Lemma sort_sorted (l : list A) : StronglySorted (inOrder before) (sort before l).
Proof.
  induction l as [|x l IH]; simpl; [constructor|].
  now apply insert_sorted.
Qed.

(** In a sorted list, whatever is cut off at position [n] may stand behind
    whatever is kept. *)
Lemma sorted_cut (l : list A) :
  StronglySorted (inOrder before) l ->
  forall n x y, In x (firstn n l) -> In y (skipn n l) -> inOrder before x y.
Proof.
  induction 1 as [|z l Hs IH Hall]; intros n x y Hx Hy.
  - destruct n; contradiction.
  - destruct n as [|n]; simpl in *; [contradiction|].
    destruct Hx as [<-|Hx].
    + rewrite Forall_forall in Hall. apply Hall.
      rewrite <- (firstn_skipn n l). apply in_or_app. now right.
    + now apply (IH n).
Qed.

End Sorted.

Arguments sort_perm {A} before l.
Arguments sort_sorted {A before} before_asym before_negtrans l.
Arguments sorted_cut {A before l} _ n x y _ _.

End SortFacts.

(** ** The [Map] *)

Module JsMapFacts.
Import JsMap.

Section Facts.
Variable V : Type.
Implicit Types (m : t V) (k : string) (v : V).

Lemma get_set_same k v m : get k (set k v m) = Some v.
Proof.
  induction m as [|[k' v'] m IH]; simpl.
  - now rewrite String.eqb_refl.
  - destruct (String.eqb k k') eqn:E; simpl; rewrite E; auto.
Qed.


Lemma set_fresh k v m : ~ In k (keys m) -> set k v m = m ++ [(k, v)].
Proof.
  induction m as [|[k' v'] m IH]; simpl; intro H; [reflexivity|].
  destruct (String.eqb_spec k k') as [->|Hk].
  - exfalso. apply H. now left.
  - rewrite IH; auto.
Qed.

Lemma set_present k v m : In k (keys m) -> keys (set k v m) = keys m.
Proof.
  induction m as [|[k' v'] m IH]; simpl; intro H; [contradiction|].
  destruct (String.eqb_spec k k') as [->|Hk]; [reflexivity|].
  simpl. rewrite IH; [reflexivity|]. destruct H; congruence.
Qed.

Lemma set_size k v m : (size (set k v m) <= S (size m))%nat.
Proof.
  unfold size. induction m as [|[k' v'] m IH]; simpl; [lia|].
  destruct (String.eqb k k'); simpl; lia.
Qed.

Lemma set_nodup k v m : NoDup (keys m) -> NoDup (keys (set k v m)).
Proof.
  intro Hm. destruct (in_dec string_dec k (keys m)) as [Hin|Hout].
  - now rewrite set_present.
  - rewrite set_fresh by exact Hout. unfold keys in *.
    rewrite map_app. simpl.
    apply NoDup_app; [exact Hm|repeat constructor; auto|].
    intros a Ha [<-|[]]. contradiction.
Qed.

(** Every entry of the map after [set] is the entry written or was there
    before. *)
Lemma set_entries k v m (e : string * V) :
  In e (set k v m) -> e = (k, v) \/ In e m.
Proof.
  induction m as [|[k' v'] m IH]; simpl.
  - intros [<-|[]]. now left.
  - destruct (String.eqb_spec k k') as [->|Hk]; simpl.
    + intros [<-|H]; auto.
    + intros [<-|H]; auto. destruct (IH H); auto.
Qed.

Lemma of_entries_from (l : list (string * V)) m :
  NoDup (keys (m ++ l)) ->
  fold_left (fun m kv => set (fst kv) (snd kv) m) l m = m ++ l.
Proof.
  revert m. induction l as [|[k v] l IH]; intros m H; simpl.
  - now rewrite app_nil_r.
  - assert (Hfresh : ~ In k (keys m)).
    { unfold keys in *. rewrite map_app in H. simpl in H.
      apply NoDup_remove_2 in H. intro Hin. apply H.
      apply in_or_app. now left. }
    rewrite set_fresh by exact Hfresh.
    rewrite IH; rewrite <- app_assoc; simpl; auto.
Qed.

(** Rebuilding a map from entries with distinct keys gives these entries,
    in their order. *)
Lemma of_entries_nodup (l : list (string * V)) :
  NoDup (map fst l) -> of_entries l = l.
Proof.
  intro H. unfold of_entries, empty. now rewrite of_entries_from.
Qed.

Lemma of_entries_size_from (l : list (string * V)) m :
  (size (fold_left (fun m kv => set (fst kv) (snd kv) m) l m)
   <= size m + List.length l)%nat.
Proof.
  revert m. induction l as [|[k v] l IH]; intro m; simpl; [lia|].
  specialize (IH (set k v m)). pose proof (set_size k v m). lia.
Qed.

Lemma of_entries_size (l : list (string * V)) :
  (size (of_entries l) <= List.length l)%nat.
Proof. exact (of_entries_size_from l empty). Qed.

End Facts.

End JsMapFacts.

(** ** The pair the DexScreener blocks read *)

Module BestPairSpec.
Import Js JsFacts Upstream.
Local Open Scope Q_scope.

Lemma more_liquid_asym (x y : DexPair) :
  more_liquid x y = true -> more_liquid y x = false.
Proof.
  unfold more_liquid. intro H. apply gt_spec in H. apply gt_false. lra.
Qed.

Lemma more_liquid_negtrans (x y z : DexPair) :
  more_liquid y x = false -> more_liquid z y = false ->
  more_liquid z x = false.
Proof.
  unfold more_liquid. intros H1 H2.
  apply gt_false in H1. apply gt_false in H2. apply gt_false. lra.
Qed.

(** [sortedPairs[0]] is a pair of the document, and no pair of the
    document has more liquidity. *)
Lemma bestPair_most_liquid (data : DexBody) (p : DexPair) :
  bestPair data = Some p ->
  exists ps, pairs data = Some ps /\ In p ps
    /\ forall q, In q ps ->
         num_or0 (liquidityUsd q) <= num_or0 (liquidityUsd p).
Proof.
  unfold bestPair. destruct (pairs data) as [[|p0 ps]|]; try discriminate.
  pose proof (SortFacts.sort_perm more_liquid (p0 :: ps)) as Hperm.
  pose proof (SortFacts.sort_sorted more_liquid_asym more_liquid_negtrans
                (p0 :: ps)) as Hsorted.
  unfold sortPairs.
  destruct (JsArray.sort more_liquid (p0 :: ps)) as [|best rest];
    [discriminate|].
  intros [= ->]. exists (p0 :: ps). split; [reflexivity|]. split.
  - apply (Permutation_in _ Hperm). now left.
  - intros q Hq. apply (Permutation_in _ (Permutation_sym Hperm)) in Hq.
    destruct Hq as [<-|Hq]; [apply Qle_refl|].
    inversion Hsorted as [|? ? _ Hall]; subst.
    rewrite Forall_forall in Hall. specialize (Hall q Hq).
    unfold JsArray.inOrder, more_liquid in Hall. now apply gt_false in Hall.
Qed.

(** Among pairs of equal liquidity the first one of the document wins. *)
Example bestPair_tie_keeps_first :
  option_map baseSymbol
    (bestPair {| pairs := Some
       [ {| liquidityUsd := Some 5; priceUsd := None; priceWaifugeH24 := None;
            priceChangeH24 := None; volumeH24 := None;
            baseSymbol := Some "A"%string; baseName := None; fdv := None;
            pairMarketCap := None; pairAddress := None |};
         {| liquidityUsd := Some 5; priceUsd := None; priceWaifugeH24 := None;
            priceChangeH24 := None; volumeH24 := None;
            baseSymbol := Some "B"%string; baseName := None; fdv := None;
            pairMarketCap := None; pairAddress := None |} ] |})
  = Some (Some "A"%string).
Proof. reflexivity. Qed.

End BestPairSpec.

(** ** The chart cache: capacity, eviction, stale fallback *)

Module CacheSpec.
Import Js Upstream ChartData ChartSpec ChartSamples.
Local Open Scope Z_scope.

Lemma newer_asym (x y : string * CacheEntry) :
  newer x y = true -> newer y x = false.
Proof. unfold newer. rewrite Z.ltb_lt, Z.ltb_ge. lia. Qed.

Lemma newer_negtrans (x y z : string * CacheEntry) :
  newer y x = false -> newer z y = false -> newer z x = false.
Proof. unfold newer. rewrite !Z.ltb_ge. lia. Qed.

Lemma byRecency_perm (c : Cache) : Permutation (byRecency c) c.
Proof. apply SortFacts.sort_perm. Qed.

Lemma byRecency_keys_nodup (c : Cache) :
  NoDup (JsMap.keys c) -> NoDup (map fst (byRecency c)).
Proof.
  intro H. apply Permutation_NoDup with (map fst c); [|exact H].
  apply Permutation_map. symmetry. apply byRecency_perm.
Qed.

Lemma firstn_nodup {A : Type} (n : nat) (l : list A) :
  NoDup l -> NoDup (firstn n l).
Proof.
  intro H. rewrite <- (firstn_skipn n l) in H.
  now apply NoDup_app_remove_r in H.
Qed.

(** Over capacity, the rebuilt cache is the first 100 entries by recency. *)
Lemma evicted_cache (c : Cache) :
  NoDup (JsMap.keys c) ->
  JsMap.of_entries (firstn 100 (byRecency c)) = firstn 100 (byRecency c).
Proof.
  intro H. apply JsMapFacts.of_entries_nodup.
  rewrite <- firstn_map. apply firstn_nodup. now apply byRecency_keys_nodup.
Qed.

(** The capacity bound needs no assumption on the cache. *)
Lemma setCachedData_size (now : Z) (k : string) (d : ChartResult) (c : Cache) :
  (JsMap.size (setCachedData now k d c) <= 100)%nat.
Proof.
  unfold setCachedData.
  destruct (Nat.ltb_spec 100
              (JsMap.size (JsMap.set k {| data := d; timestamp := now |} c)))
    as [Hover|Hfits]; [|exact Hfits].
  etransitivity; [apply JsMapFacts.of_entries_size|].
  rewrite length_firstn. lia.
Qed.

Lemma setCachedData_nodup (now : Z) (k : string) (d : ChartResult) (c : Cache) :
  NoDup (JsMap.keys c) -> NoDup (JsMap.keys (setCachedData now k d c)).
Proof.
  intro H. unfold setCachedData.
  set (written := JsMap.set k {| data := d; timestamp := now |} c).
  assert (Hw : NoDup (JsMap.keys written)) by now apply JsMapFacts.set_nodup.
  destruct (100 <? JsMap.size written)%nat; [|exact Hw].
  fold (byRecency written). rewrite (evicted_cache written Hw).
  unfold JsMap.keys. rewrite <- firstn_map.
  apply firstn_nodup. now apply byRecency_keys_nodup.
Qed.

(** Every cache the route can build has distinct keys. *)
Lemma replay_nodup (puts : list (Z * string * ChartResult)) :
  NoDup (JsMap.keys (replay puts)).
Proof.
  unfold replay.
  assert (H : forall c : Cache, NoDup (JsMap.keys c) ->
            NoDup (JsMap.keys
                     (fold_left
                        (fun c p => setCachedData (fst (fst p)) (snd (fst p))
                                      (snd p) c) puts c))).
  { induction puts as [|p puts IH]; intros c Hc; simpl; [exact Hc|].
    apply IH. now apply setCachedData_nodup. }
  apply H. constructor.
Qed.

(** Every cache the route can build holds at most 100 entries. *)
Lemma replay_size (puts : list (Z * string * ChartResult)) :
  (JsMap.size (replay puts) <= 100)%nat.
Proof.
  unfold replay. destruct (rev puts) as [|p rest] eqn:Hrev.
  - assert (puts = []) as ->
      by (apply (f_equal (@rev _)) in Hrev; now rewrite rev_involutive in Hrev).
    simpl. lia.
  - assert (puts = rev rest ++ [p]) as ->
      by (apply (f_equal (@rev _)) in Hrev; now rewrite rev_involutive in Hrev).
    rewrite fold_left_app. simpl. apply setCachedData_size.
Qed.

(** C7: after a put the cache holds at most 100 entries.  A put that does
    not take the store over 100 entries only writes its entry; a put that
    does leaves exactly 100 entries, all of them entries of the store as
    written, and every entry it drops was written no later than every entry
    it keeps: the 100 most recently written entries survive. *)
Theorem setCachedData_keeps_100_newest
  (now : Z) (k : string) (d : ChartResult) (cache : Cache) :
  NoDup (JsMap.keys cache) ->
  (JsMap.size (setCachedData now k d cache) <= 100)%nat
  /\ ((JsMap.size (JsMap.set k {| data := d; timestamp := now |} cache)
       <= 100)%nat ->
      setCachedData now k d cache
      = JsMap.set k {| data := d; timestamp := now |} cache)
  /\ ((100 < JsMap.size (JsMap.set k {| data := d; timestamp := now |} cache))%nat ->
      JsMap.size (setCachedData now k d cache) = 100%nat
      /\ (forall e, In e (setCachedData now k d cache) ->
                    In e (JsMap.set k {| data := d; timestamp := now |} cache))
      /\ (forall kept dropped,
            In kept (setCachedData now k d cache) ->
            In dropped (JsMap.set k {| data := d; timestamp := now |} cache) ->
            ~ In dropped (setCachedData now k d cache) ->
            timestamp (snd dropped) <= timestamp (snd kept))).
Proof.
  intro Hnodup.
  split; [apply setCachedData_size|].
  unfold setCachedData.
  set (written := JsMap.set k {| data := d; timestamp := now |} cache).
  assert (Hw : NoDup (JsMap.keys written)) by now apply JsMapFacts.set_nodup.
  destruct (Nat.ltb_spec 100 (JsMap.size written)) as [Hover|Hfits].
  - fold (byRecency written). rewrite (evicted_cache written Hw).
    split; [intro; lia|]. intros _.
    pose proof (byRecency_perm written) as Hperm.
    split; [|split].
    + unfold JsMap.size in *. rewrite length_firstn.
      rewrite (Permutation_length Hperm). lia.
    + intros e He. apply (Permutation_in _ Hperm).
      rewrite <- (firstn_skipn 100 (byRecency written)).
      apply in_or_app. now left.
    + intros kept dropped Hkept Hdrop Hgone.
      assert (Hcut : In dropped (skipn 100 (byRecency written))).
      { apply (Permutation_in _ (Permutation_sym Hperm)) in Hdrop.
        rewrite <- (firstn_skipn 100 (byRecency written)) in Hdrop.
        apply in_app_or in Hdrop. destruct Hdrop; [contradiction|assumption]. }
      pose proof (SortFacts.sorted_cut
                    (SortFacts.sort_sorted newer_asym newer_negtrans written)
                    100 kept dropped Hkept Hcut) as Hord.
      unfold JsArray.inOrder, newer in Hord.
      now apply Z.ltb_ge in Hord.
  - split; [reflexivity|]. intro; lia.
Qed.

(** The 101st key evicts the entry written first. *)
Lemma setCachedData_keeps_100_newest_witness :
  (JsMap.size (setCachedData 100 (keyOf 100) someResult fullCache) <= 100)%nat
  /\ JsMap.size fullCache = 100%nat
  /\ JsMap.get (keyOf 0) (setCachedData 100 (keyOf 100) someResult fullCache)
     = None
  /\ JsMap.keys (setCachedData 100 (keyOf 100) someResult fullCache)
     = map keyOf (rev (List.seq 1 100)).
Proof.
  split.
  - exact (proj1 (setCachedData_keeps_100_newest 100 (keyOf 100) someResult
                    fullCache (replay_nodup _))).
  - split; [|split]; vm_compute; reflexivity.
Defined.

(** The stale fallback *)

(** C6: when the route calls upstream (the cache holds no fresh entry for
    the address) and the call answers 429 or throws, the route returns the
    cached value for the address, whatever its age, spread with
    [cached: true] and a warning; only without a cache entry does it answer
    with an error, 429 after a 429 and 500 after a throw.  The cache is left
    as it was. *)
Theorem GET_falls_back_to_stale_cache
  (now : Z) (tokenAddress : string) (upstream : HttpResult DexBody)
  (cache : Cache) (f : Failure) :
  truthy_str (Some tokenAddress) = true ->
  getCachedData now tokenAddress cache = None ->
  failure upstream = Some f ->
  GET now (Some tokenAddress) upstream cache =
  (match JsMap.get tokenAddress cache with
   | Some staleCache =>
       {| status := 200;
          body := Data (data staleCache) true (Some (staleWarning f)) |}
   | None => {| status := errorStatus f; body := ErrorBody (errorText f) |}
   end, cache).
Proof.
  intros Haddr Hfresh Hfail.
  unfold GET. rewrite Haddr. cbn [negb].
  unfold serve. rewrite Hfresh.
  unfold failure in Hfail.
  destruct upstream as [msg|st [msg|doc]].
  - injection Hfail as <-. unfold onThrown.
    destruct (JsMap.get tokenAddress cache); reflexivity.
  - destruct (ok st); cbn [negb].
    + injection Hfail as <-. unfold onThrown.
      destruct (JsMap.get tokenAddress cache); reflexivity.
    + destruct (st =? 429); [|discriminate]. injection Hfail as <-.
      destruct (JsMap.get tokenAddress cache); reflexivity.
  - destruct (ok st); cbn [negb]; [discriminate|].
    destruct (st =? 429); [|discriminate]. injection Hfail as <-.
    destruct (JsMap.get tokenAddress cache); reflexivity.
Qed.

(** A fresh entry is served as it is, and upstream is not consulted. *)
Lemma fresh_hit_skips_upstream (now : Z) (tokenAddress : string)
  (upstream upstream' : HttpResult DexBody) (cache : Cache) (d : ChartResult) :
  truthy_str (Some tokenAddress) = true ->
  getCachedData now tokenAddress cache = Some d ->
  GET now (Some tokenAddress) upstream cache = (json (Data d false None), cache)
  /\ GET now (Some tokenAddress) upstream cache
     = GET now (Some tokenAddress) upstream' cache.
Proof.
  intros Haddr Hfresh. unfold GET. rewrite Haddr. cbn [negb].
  unfold serve. rewrite Hfresh. split; reflexivity.
Qed.

(** An entry written a minute ago is served when upstream rate-limits. *)
Lemma GET_falls_back_to_stale_cache_witness :
  GET 61000 (Some "mint"%string) (Responded 429 (BadJson "Too Many Requests"))
    agedCache
  = ({| status := 200;
        body := Data someResult true
                  (Some "Rate limited, returning cached data"%string) |},
     agedCache).
Proof.
  apply (GET_falls_back_to_stale_cache 61000 "mint"
           (Responded 429 (BadJson "Too Many Requests")) agedCache RateLimited);
    reflexivity.
Defined.

Example GET_rate_limited_without_cache :
  fst (GET 61000 (Some "mint"%string) (Responded 429 (BadJson "")) JsMap.empty)
  = {| status := 429;
       body := ErrorBody "Too many requests. Please wait a moment." |}.
Proof. reflexivity. Qed.

Example GET_thrown_without_cache :
  fst (GET 61000 (Some "mint"%string) (Rejected "fetch failed") JsMap.empty)
  = {| status := 500; body := ErrorBody "fetch failed" |}.
Proof. reflexivity. Qed.

(** Within the TTL the cached value is served as it was stored. *)
Lemma getCachedData_after_put (now now' : Z) (k : string) (d : ChartResult)
  (c : Cache) :
  (JsMap.size (JsMap.set k {| data := d; timestamp := now |} c) <= 100)%nat ->
  getCachedData now' k (setCachedData now k d c)
  = if now' - now <? CACHE_TTL then Some d else None.
Proof.
  intro Hfits. unfold getCachedData, setCachedData.
  destruct (Nat.ltb_spec 100
              (JsMap.size (JsMap.set k {| data := d; timestamp := now |} c)));
    [lia|].
  now rewrite JsMapFacts.get_set_same.
Qed.

End CacheSpec.

(** ** The message scheduler: bursts and the 5-second floor *)

Module SchedulerSpec.
Import Scheduler BurstSpec.
Local Open Scope Z_scope.

Lemma call_coalesces (r0 : Refs) (a : option Emotion) (acc : option Emotion)
  (r : Refs) (t : Z) (e : Emotion) :
  coalesced r0 a acc r ->
  t - lastMessageAt r0 < 5000 ->
  snd (scheduleMessage t e r) = []
  /\ coalesced r0 a (if opt_emotion_is a e then acc else Some e)
       (fst (scheduleMessage t e r)).
Proof.
  intros [Hat [Hem Hacc]] Hwin.
  unfold scheduleMessage. rewrite Hem.
  destruct (opt_emotion_is a e) eqn:Hae.
  - split; [reflexivity|]. repeat split; assumption.
  - destruct (Z.leb_spec 5000 (t - lastMessageAt r)) as [Hle|Hlt]; [lia|].
    cbn [andb]. unfold armed.
    destruct acc as [p|].
    + destruct Hacc as [Htimer [Hpend Hne]]. rewrite Htimer.
      split; [reflexivity|]. unfold coalesced.
      cbn [fst lastMessageAt lastMessageEmotion pendingEmotion messageTimer].
      repeat split; auto.
    + rewrite Hacc. split; [reflexivity|].
      unfold coalesced.
      cbn [fst lastMessageAt lastMessageEmotion pendingEmotion messageTimer].
      repeat split; auto.
      f_equal. lia.
Qed.

Lemma burst_coalesces (r0 : Refs) (a : option Emotion)
  (burst : list (Z * Emotion)) :
  forall (acc : option Emotion) (r : Refs),
  coalesced r0 a acc r ->
  (forall te, In te burst -> fst te - lastMessageAt r0 < 5000) ->
  snd (run (calls burst) r) = []
  /\ coalesced r0 a (lastDiffering a burst acc) (fst (run (calls burst) r)).
Proof.
  induction burst as [|[t e] burst IH]; intros acc r Hco Hwin; simpl.
  - split; [reflexivity|exact Hco].
  - destruct (call_coalesces r0 a acc r t e Hco) as [Hout Hco'].
    { apply (Hwin (t, e)). now left. }
    destruct (scheduleMessage t e r) as [r1 out1]. cbn [fst snd] in *.
    subst out1.
    destruct (IH _ r1 Hco') as [Hout2 Hco2].
    { intros te Hte. apply Hwin. now right. }
    destruct (run (calls burst) r1) as [r2 out2]. cbn [fst snd] in *.
    subst out2. split; [reflexivity|exact Hco2].
Qed.

Lemma fire_after_burst (r0 : Refs) (a : option Emotion) (acc : option Emotion)
  (r : Refs) (tfire : Z) :
  coalesced r0 a acc r ->
  snd (fireIfArmed tfire r) =
  match acc with Some e => [(tfire, e)] | None => [] end.
Proof.
  intros [Hat [Hem Hacc]]. unfold fireIfArmed, armed.
  destruct acc as [e|].
  - destruct Hacc as [Htimer [Hpend Hne]]. rewrite Htimer.
    unfold step, onTimer. rewrite Hpend, Hem, Hne. reflexivity.
  - rewrite Hacc. reflexivity.
Qed.

(** Every step keeps the timer behind the floor, and whatever it announces
    comes at least 5 s after the previous announcement. *)
Lemma step_spaced (ev : Event) (r : Refs) :
  timerAfterFloor r -> enabled ev r = true ->
  timerAfterFloor (fst (step ev r))
  /\ match snd (step ev r) with
     | [] => lastMessageAt (fst (step ev r)) = lastMessageAt r
     | [te] => lastMessageAt r + 5000 <= fst te
               /\ lastMessageAt (fst (step ev r)) = fst te
     | _ => False
     end.
Proof.
  intros Hfloor Hen. unfold timerAfterFloor in *.
  destruct ev as [t e|t]; unfold step.
  - unfold scheduleMessage.
    destruct (opt_emotion_is (lastMessageEmotion r) e); [now split|].
    unfold armed.
    destruct (messageTimer r) as [due|] eqn:Htimer.
    + rewrite andb_false_r.
      cbn [fst snd map messageTimer lastMessageAt]. now split.
    + rewrite andb_true_r.
      destruct (Z.leb_spec 5000 (t - lastMessageAt r)) as [Hle|Hlt];
        cbn [fst snd map messageTimer lastMessageAt].
      * repeat split; lia.
      * split; [lia|reflexivity].
  - unfold enabled in Hen.
    destruct (messageTimer r) as [due|] eqn:Htimer; [|discriminate].
    apply Z.leb_le in Hen. unfold onTimer.
    destruct (pendingEmotion r) as [p|]; [|now split].
    destruct (opt_emotion_is (lastMessageEmotion r) p);
      cbn [fst snd map messageTimer lastMessageAt]; [now split|].
    repeat split; lia.
Qed.

(** Any two consecutive announcements of a feasible run are at least 5 s
    apart. *)
Lemma run_spaced (evs : list Event) :
  forall (clock : Z) (r : Refs),
  timerAfterFloor r -> feasible clock evs r = true ->
  spaced (lastMessageAt r) (snd (run evs r))
  /\ timerAfterFloor (fst (run evs r)).
Proof.
  induction evs as [|ev evs IH]; intros clock r Hfloor Hfeas; simpl.
  - now split.
  - simpl in Hfeas. apply andb_prop in Hfeas as [Hfeas Hrest].
    apply andb_prop in Hfeas as [_ Hen].
    destruct (step_spaced ev r Hfloor Hen) as [Hfloor1 Hout].
    destruct (step ev r) as [r1 out1]. cbn [fst snd] in *.
    destruct (IH _ r1 Hfloor1 Hrest) as [Hsp Hfloor2].
    destruct (run evs r1) as [r2 out2]. cbn [fst snd] in *.
    split; [|exact Hfloor2].
    destruct out1 as [|te [|te' out1]]; [| |contradiction].
    + simpl. now rewrite <- Hout.
    + destruct Hout as [Hgap Hat]. simpl. split; [exact Hgap|].
      now rewrite <- Hat.
Qed.

Lemma lastDiffering_last (a : option Emotion) (burst : list (Z * Emotion))
  (t : Z) (e : Emotion) (acc : option Emotion) :
  opt_emotion_is a e = false ->
  lastDiffering a (burst ++ [(t, e)]) acc = Some e.
Proof.
  intro H. unfold lastDiffering. rewrite fold_left_app. cbn. now rewrite H.
Qed.

(** A call at least 5 s after the last announcement, with no timer
    pending and an emotion other than the one last announced, announces at
    once. *)
Lemma idle_call_announces (r : Refs) (t : Z) (e : Emotion) :
  messageTimer r = None ->
  5000 <= t - lastMessageAt r ->
  opt_emotion_is (lastMessageEmotion r) e = false ->
  scheduleMessage t e r =
  ({| lastMessageAt := t; lastMessageEmotion := Some e;
      pendingEmotion := Some e; messageTimer := None |}, [e]).
Proof.
  intros Htimer Hidle Hne. unfold scheduleMessage, armed.
  rewrite Hne, Htimer.
  destruct (Z.leb_spec 5000 (t - lastMessageAt r)); [reflexivity|lia].
Qed.

Lemma lastDiffering_none (a : option Emotion) (burst : list (Z * Emotion)) :
  (forall te, In te burst -> opt_emotion_is a (snd te) = true) ->
  lastDiffering a burst None = None.
Proof.
  unfold lastDiffering. induction burst as [|te burst IH]; intro H; simpl.
  - reflexivity.
  - rewrite (H te (or_introl eq_refl)). apply IH.
    intros te' Hin. apply H. now right.
Qed.

(** C3, as the claim words it, fails.  The scheduler is idle when the burst
    sad (10 s), happy (11 s) arrives: "sad" is announced at once and "happy"
    when the timer goes off at 15 s.  The burst lies within one 5-second
    window, yet two messages are announced for it, and the only one inside
    the window is for the first emotion of the burst, not for the last. *)
Lemma burst_from_idle_announces_first_emotion_too :
  feasible 10000 [Call 10000 sad; Call 11000 happy; Fire 15000] init = true
  /\ snd (run [Call 10000 sad; Call 11000 happy; Fire 15000] init)
     = [(10000, sad); (15000, happy)]
  /\ 11000 - 10000 < 5000
  /\ snd (List.last [(10000, sad); (11000, happy)] (0, neutral)) = happy
  /\ sad <> happy.
Proof. repeat split; try reflexivity. discriminate. Qed.

(** C3 (amended): announcements are at least 5 s apart in every feasible
    run, so no 5-second window holds more than one.  A call that finds the
    scheduler idle (no timer, 5 s or more since the last announcement) with
    an emotion other than the one last announced announces it at once.
    Emotion changes delivered less than 5 s after the last announcement (no
    timer pending at the start) announce nothing while they arrive; when
    the burst ends on an emotion other than the one last announced, one
    timer is armed for the end of the 5 s floor and, when it goes off,
    exactly one message is announced, for the last emotion of the burst;
    when no emotion of the burst differs from the one last announced, no
    timer is armed and nothing is announced. *)
Theorem burst_coalesced_into_one_message :
  (forall clock evs r,
     timerAfterFloor r -> feasible clock evs r = true ->
     spaced (lastMessageAt r) (snd (run evs r)))
  /\
  (forall r t e,
     messageTimer r = None -> 5000 <= t - lastMessageAt r ->
     opt_emotion_is (lastMessageEmotion r) e = false ->
     snd (scheduleMessage t e r) = [e]
     /\ lastMessageAt (fst (scheduleMessage t e r)) = t
     /\ lastMessageEmotion (fst (scheduleMessage t e r)) = Some e
     /\ messageTimer (fst (scheduleMessage t e r)) = None)
  /\
  (forall r burst tfire,
     messageTimer r = None ->
     (forall te, In te burst -> fst te - lastMessageAt r < 5000) ->
     snd (run (calls burst) r) = []
     /\ (forall burst' t e,
           burst = burst' ++ [(t, e)] ->
           opt_emotion_is (lastMessageEmotion r) e = false ->
           messageTimer (fst (run (calls burst) r))
           = Some (lastMessageAt r + 5000)
           /\ snd (fireIfArmed tfire (fst (run (calls burst) r)))
              = [(tfire, e)])
     /\ ((forall te, In te burst ->
            opt_emotion_is (lastMessageEmotion r) (snd te) = true) ->
         messageTimer (fst (run (calls burst) r)) = None
         /\ snd (fireIfArmed tfire (fst (run (calls burst) r))) = [])).
Proof.
  split; [|split].
  - intros clock evs r Hfloor Hfeas.
    exact (proj1 (run_spaced evs clock r Hfloor Hfeas)).
  - intros r t e Htimer Hidle Hne.
    rewrite (idle_call_announces r t e Htimer Hidle Hne).
    repeat split.
  - intros r burst tfire Htimer Hwin.
    assert (Hstart : coalesced r (lastMessageEmotion r) None r)
      by (repeat split; exact Htimer).
    destruct (burst_coalesces r (lastMessageEmotion r) burst None r Hstart Hwin)
      as [Hout Hco].
    pose proof (fire_after_burst r (lastMessageEmotion r) _ _ tfire Hco)
      as Hfire.
    split; [exact Hout|]. split.
    + intros burst' t e -> He. rewrite Hfire.
      destruct Hco as [_ [_ Hacc]].
      rewrite (lastDiffering_last _ burst' t e None He) in *.
      split; [now destruct Hacc|reflexivity].
    + intros Hsame. rewrite Hfire.
      destruct Hco as [_ [_ Hacc]].
      rewrite (lastDiffering_none _ burst Hsame) in *.
      split; [exact Hacc|reflexivity].
Qed.

(** After "happy", the burst sad (11 s), angry (12 s) gives one message,
    "angry", at the floor. *)
Lemma burst_coalesced_into_one_message_witness :
  snd (run (calls [(11000, sad); (12000, angry)]) afterHappy) = []
  /\ snd (fireIfArmed 15000
            (fst (run (calls [(11000, sad); (12000, angry)]) afterHappy)))
     = [(15000, angry)]
  /\ spaced 0 (snd (run [Call 10000 happy; Call 11000 sad; Call 12000 angry;
                         Fire 15000; Call 16000 happy; Fire 20000] init)).
Proof.
  assert (Hwin : forall te, In te [(11000, sad); (12000, angry)] ->
                 fst te - lastMessageAt afterHappy < 5000).
  { intros te [<-|[<-|[]]]; vm_compute; reflexivity. }
  destruct (proj2 (proj2 burst_coalesced_into_one_message) afterHappy
              [(11000, sad); (12000, angry)] 15000 eq_refl Hwin)
    as [Hquiet [Hlast _]].
  split; [exact Hquiet|]. split.
  - exact (proj2 (Hlast [(11000, sad)] 12000 angry eq_refl eq_refl)).
  - exact (proj1 burst_coalesced_into_one_message 10000
             [Call 10000 happy; Call 11000 sad; Call 12000 angry;
              Fire 15000; Call 16000 happy; Fire 20000] init I eq_refl).
Defined.

(** A burst that returns to the emotion last announced: the call that
    brings "happy" back returns before it touches the pending emotion, so
    the timer armed for "sad" still announces "sad" at 15 s, although the
    emotion is "happy" again (the test [pending === lastMessageEmotion] of
    the timer's callback never sees the emotion that came back). *)
Lemma returning_burst_announces_stale_emotion :
  feasible 10000 [Call 10000 happy; Call 11000 sad; Call 12000 happy;
                  Fire 15000] init = true
  /\ snd (run [Call 10000 happy; Call 11000 sad; Call 12000 happy; Fire 15000]
            init)
     = [(10000, happy); (15000, sad)]
  /\ pendingEmotion
       (fst (run (calls [(11000, sad); (12000, happy)]) afterHappy))
     = Some sad.
Proof. repeat split; reflexivity. Qed.

End SchedulerSpec.

(** ** The server's frames at the client, end to end *)

Module EndToEnd.
Import Js Upstream JupiterClient WaifuTracker ClientSpec.
Local Open Scope Z_scope.

Example firstFrames_is_one_update :
  map WsToken.type firstFrames = [WsToken.update].
Proof. reflexivity. Qed.

(** The component has just mounted: the update of the first poll is thrown
    away, although it passes the throttle. *)
Lemma stream_updates_do_not_create_state_witness :
  tokenData
    (consume (started true) (framesAt 1700000000000 firstFrames) mount)
  = None.
Proof.
  exact (proj2 (proj2 (proj2 (ReducerSpec.stream_updates_do_not_create_state
                                mount eq_refl)))
           (started true) "mint"%string
           [(StreamSpec.jupiterQuotes 2%Q 1%Q 50%Q, 5000)] 1700000000000).
Defined.

Example first_frame_passes_throttle :
  updateCount
    (consume (started true) (framesAt 1700000000000 firstFrames) mount)
  = 1.
Proof. reflexivity. Qed.

(** The same frame once the initial fetch has set the state is merged. *)
Example frame_after_fetch_is_merged :
  option_map price
    (tokenData
       (consume (started true) (framesAt 1700000000000 firstFrames)
          tracking))
  = Some (Some 2%Q).
Proof. reflexivity. Qed.

End EndToEnd.

(** ** The price route and the stream's fetch, compared *)

Module AdapterAgreement.
Import Js JsFacts Upstream AggregatorSpec PriceSpec.
Local Open Scope Q_scope.

(** X1: whatever the providers answer, a body of the price route says
    [success: true] exactly when its price is positive, and a body that
    says [success: false] has price, 24h change and volume 0 and no
    source. *)
Theorem GET_success_iff_positive_price
  (tokenAddress : option string) (w : World) (b : TokenPrice.PriceBody) :
  TokenPrice.body (TokenPrice.GET tokenAddress w) = TokenPrice.Price b ->
  (TokenPrice.success b = true <-> 0 < TokenPrice.price b)
  /\ (TokenPrice.success b = false ->
      TokenPrice.price b = 0 /\ TokenPrice.change24h b = 0
      /\ TokenPrice.volume24h b = 0 /\ TokenPrice.source b = None).
Proof.
  unfold TokenPrice.GET.
  destruct (truthy_str tokenAddress); cbn [negb]; [|discriminate].
  rewrite TokenPriceSpec.tryDexScreener_adapter.
  assert (Hfail : forall sym name,
    (TokenPrice.success (TokenPrice.noPrice sym name) = true
     <-> 0 < TokenPrice.price (TokenPrice.noPrice sym name))
    /\ (TokenPrice.success (TokenPrice.noPrice sym name) = false ->
        TokenPrice.price (TokenPrice.noPrice sym name) = 0
        /\ TokenPrice.change24h (TokenPrice.noPrice sym name) = 0
        /\ TokenPrice.volume24h (TokenPrice.noPrice sym name) = 0
        /\ TokenPrice.source (TokenPrice.noPrice sym name) = None)).
  { intros. cbn. split; [split; intro H; [discriminate|lra]|auto]. }
  destruct (yields (dexAdapter w)) eqn:Ydex.
  - destruct (dexAdapter w) as [d|]; [|discriminate]. simpl in *.
    intros [= <-]. cbn. apply gt_spec in Ydex.
    split; [split; auto|discriminate].
  - rewrite TokenPriceSpec.tryJupiter_adapter.
    destruct (yields (jupAdapter w)) eqn:Yjup.
    + destruct (jupAdapter w) as [j|]; [|discriminate]. simpl in *.
      intros [= <-]. cbn. apply gt_spec in Yjup.
      split; [split; auto|discriminate].
    + destruct (escapes w); [intros [= <-]; apply Hfail|].
      rewrite TokenPriceSpec.tryBirdeye_adapter.
      destruct (yields (birdeyeAdapter w)) eqn:Ybe.
      * destruct (birdeyeAdapter w) as [be|]; [|discriminate]. simpl in *.
        intros [= <-]. cbn. apply gt_spec in Ybe.
        split; [split; auto|discriminate].
      * simpl. intros [= <-]. apply Hfail.
Qed.

Lemma GET_success_iff_positive_price_witness :
  (TokenPrice.success
     {| TokenPrice.success := true;
        TokenPrice.source := Some TokenPrice.jupiter_src;
        TokenPrice.price := 3 # 2; TokenPrice.change24h := 4;
        TokenPrice.volume24h := 10;
        TokenPrice.tokenSymbol := Some "DEX"%string;
        TokenPrice.tokenName := Some "Dex Name"%string |} = true
   <-> 0 < 3 # 2).
Proof.
  exact (proj1 (GET_success_iff_positive_price (Some "mint"%string)
                  worldDexNamesJupiterPrice _ eq_refl)).
Defined.

(** The stream's three blocks, read as adapters *)

Lemma viaDexScreener_adapter (w : World) (l : WsToken.Locals) :
  match dexAdapter w with
  | Some s =>
      if gt (s_price s) 0 then
        exists d, fst (WsToken.viaDexScreener w l) = Some d
                  /\ WsToken.price d = s_price s
                  /\ WsToken.change24h d = s_change24h s
                  /\ WsToken.volume24h d = s_volume24h s
      else fst (WsToken.viaDexScreener w l) = None
           /\ WsToken.l_price (snd (WsToken.viaDexScreener w l)) = s_price s
           /\ WsToken.l_supply (snd (WsToken.viaDexScreener w l))
              = WsToken.l_supply l
  | None => WsToken.viaDexScreener w l = (None, l)
  end.
Proof.
  unfold dexAdapter, WsToken.viaDexScreener.
  destruct (okDoc (dexscreener w)) as [data|]; [|reflexivity].
  destruct (bestPair data) as [p|]; [|reflexivity].
  cbn [s_price].
  destruct (gt (parseFloat_or0 (priceUsd p)) 0) eqn:Hp.
  - eexists. split; [reflexivity|]. repeat split.
  - rewrite !andb_false_r. repeat split.
Qed.

Lemma viaJupiter_adapter (w : World) (l : WsToken.Locals) :
  match jupAdapter w with
  | Some s =>
      if gt (s_price s) 0 then
        exists d, fst (WsToken.viaJupiter w l) = Some d
                  /\ WsToken.price d = s_price s
                  /\ WsToken.change24h d = s_change24h s
                  /\ WsToken.volume24h d = s_volume24h s
                  /\ WsToken.supply d = WsToken.l_supply l
      else fst (WsToken.viaJupiter w l) = None
           /\ WsToken.l_price (snd (WsToken.viaJupiter w l)) = s_price s
           /\ WsToken.l_supply (snd (WsToken.viaJupiter w l))
              = WsToken.l_supply l
  | None => WsToken.viaJupiter w l = (None, l)
  end.
Proof.
  unfold jupAdapter, WsToken.viaJupiter.
  destruct (okDoc (jupiter w)) as [data|]; [|reflexivity].
  destruct (jupEntry data) as [j|]; [|reflexivity].
  cbn [s_price WsToken.l_price].
  destruct (gt (parseFloat_or0 (jupPrice j)) 0) eqn:Hp.
  - eexists. split; [reflexivity|]. repeat split.
  - repeat split.
Qed.

Lemma birdeyeBlock_adapter (w : World) (l : WsToken.Locals) :
  gt (WsToken.l_price l) 0 = false ->
  match birdeyeAdapter w with
  | Some s =>
      if gt (s_price s) 0 then
        exists d,
          (if truthy_str (BIRDEYE_API_KEY w)
           then fst (WsToken.viaBirdeye w l) else None) = Some d
          /\ WsToken.price d = s_price s
          /\ WsToken.supply d = WsToken.l_supply l
      else (if truthy_str (BIRDEYE_API_KEY w)
            then fst (WsToken.viaBirdeye w l) else None) = None
  | None => (if truthy_str (BIRDEYE_API_KEY w)
             then fst (WsToken.viaBirdeye w l) else None) = None
  end.
Proof.
  intro Hl. unfold birdeyeAdapter, WsToken.viaBirdeye.
  destruct (truthy_str (BIRDEYE_API_KEY w)); [|reflexivity].
  destruct (okDoc (birdeyePrice w)) as [data|]; [|reflexivity].
  cbn [s_price].
  destruct (birdeyeAssigned data) as [p|].
  - destruct (gt p 0) eqn:Hp.
    + destruct (overviewStats (birdeyeOverview w)) as [[c v]|];
        eexists; (split; [reflexivity|]); split; reflexivity.
    + reflexivity.
  - replace (gt 0 0) with false by reflexivity. now rewrite Hl.
Qed.

(** X2: the stream's [fetchTokenData] follows the same adapters as the
    price route.  For a request that carries an address, when no exception
    escapes the provider blocks, the fetch resolves exactly when the route
    answers [success: true], with the same price; it throws exactly when
    the route answers its "no price" body. *)
Theorem stream_fetch_agrees_with_price_route
  (tokenAddress : option string) (w : World) :
  truthy_str tokenAddress = true ->
  escapes w = false ->
  match WsToken.fetchTokenData w with
  | WsToken.Return d =>
      exists b, TokenPrice.GET tokenAddress w = TokenPrice.json b
                /\ TokenPrice.success b = true
                /\ TokenPrice.price b = WsToken.price d
  | WsToken.Throw msg =>
      msg = "No price data available from any source"%string
      /\ TokenPrice.GET tokenAddress w
         = TokenPrice.json (TokenPrice.noPrice (dexSymbol w) (dexName w))
  end.
Proof.
  intros Haddr Hesc.
  unfold TokenPrice.GET. rewrite Haddr, Hesc. cbn [negb].
  rewrite TokenPriceSpec.tryDexScreener_adapter.
  rewrite TokenPriceSpec.tryJupiter_adapter.
  rewrite TokenPriceSpec.tryBirdeye_adapter.
  unfold WsToken.fetchTokenData.
  set (l0 := {| WsToken.l_price := 0; WsToken.l_change24h := 0;
                WsToken.l_volume24h := 0; WsToken.l_supply := 0 |}).
  pose proof (viaDexScreener_adapter w l0) as Hdex.
  destruct (WsToken.viaDexScreener w l0) as [r1 l1]. cbn [fst snd] in Hdex.
  assert (Hl1 : yields (dexAdapter w) = false ->
                r1 = None /\ gt (WsToken.l_price l1) 0 = false).
  { unfold yields. destruct (dexAdapter w) as [s|].
    - intro Hs. rewrite Hs in Hdex. destruct Hdex as [-> [-> _]]. auto.
    - intros _. injection Hdex as -> ->. auto. }
  destruct (yields (dexAdapter w)) eqn:Ydex.
  - unfold yields in Ydex. destruct (dexAdapter w) as [s|]; [|discriminate].
    rewrite Ydex in Hdex. destruct Hdex as [d [-> [Hp _]]].
    eexists. cbn. split; [reflexivity|]. split; [reflexivity|now rewrite Hp].
  - destruct (Hl1 eq_refl) as [-> Hneg1]. clear Hl1 Hdex.
    pose proof (viaJupiter_adapter w l1) as Hjup.
    destruct (WsToken.viaJupiter w l1) as [r2 l2]. cbn [fst snd] in Hjup.
    assert (Hl2 : yields (jupAdapter w) = false ->
                  r2 = None /\ gt (WsToken.l_price l2) 0 = false).
    { unfold yields. destruct (jupAdapter w) as [s|].
      - intro Hs. rewrite Hs in Hjup. destruct Hjup as [-> [-> _]]. auto.
      - intros _. injection Hjup as -> ->. auto. }
    destruct (yields (jupAdapter w)) eqn:Yjup.
    + unfold yields in Yjup. destruct (jupAdapter w) as [s|]; [|discriminate].
      rewrite Yjup in Hjup. destruct Hjup as [d [-> [Hp _]]].
      eexists. cbn. split; [reflexivity|]. split; [reflexivity|now rewrite Hp].
    + destruct (Hl2 eq_refl) as [-> Hneg2]. clear Hl2 Hjup.
      pose proof (birdeyeBlock_adapter w l2 Hneg2) as Hbe.
      unfold yields. destruct (birdeyeAdapter w) as [s|].
      * destruct (gt (s_price s) 0) eqn:Hs.
        -- destruct Hbe as [d [-> [Hp _]]].
           eexists. cbn. split; [reflexivity|].
           split; [reflexivity|now rewrite Hp].
        -- rewrite Hbe. split; reflexivity.
      * rewrite Hbe. split; reflexivity.
Qed.

Lemma stream_fetch_agrees_with_price_route_witness :
  exists b, TokenPrice.GET (Some "mint"%string) worldDexNamesJupiterPrice
            = TokenPrice.json b
            /\ TokenPrice.success b = true
            /\ TokenPrice.price b = 3 # 2.
Proof.
  exact (stream_fetch_agrees_with_price_route (Some "mint"%string)
           worldDexNamesJupiterPrice eq_refl eq_refl).
Defined.

(** What [fetchTokenData] resolves with: 9 decimals, and no supply unless
    DexScreener had the price. *)
Lemma fetched_decimals_and_supply (w : World) (d : WsToken.Fetched) :
  WsToken.fetchTokenData w = WsToken.Return d ->
  WsToken.decimals d = 9
  /\ (yields (dexAdapter w) = false ->
      WsToken.supply d = 0
      /\ forall now,
           WsToken.u_supply (StreamSpec.snapshotOf d now) = 0
           /\ WsToken.u_marketCap (StreamSpec.snapshotOf d now) = 0).
Proof.
  unfold WsToken.fetchTokenData.
  set (l0 := {| WsToken.l_price := 0; WsToken.l_change24h := 0;
                WsToken.l_volume24h := 0; WsToken.l_supply := 0 |}).
  pose proof (viaDexScreener_adapter w l0) as Hdex.
  assert (Hzero : forall d', WsToken.supply d' = 0 ->
            forall now,
              WsToken.u_supply (StreamSpec.snapshotOf d' now) = 0
              /\ WsToken.u_marketCap (StreamSpec.snapshotOf d' now) = 0).
  { intros d' Hd' now. unfold StreamSpec.snapshotOf. cbn. rewrite Hd'.
    replace (truthy_num 0) with false by reflexivity.
    replace (gt 0 0) with false by reflexivity.
    rewrite andb_false_r. split; reflexivity. }
  assert (Hnine : forall l r l',
            WsToken.viaDexScreener w l = (Some r, l')
            \/ WsToken.viaJupiter w l = (Some r, l')
            \/ WsToken.viaBirdeye w l = (Some r, l') ->
            WsToken.decimals r = 9).
  { intros l r l' [H|[H|H]].
    - unfold WsToken.viaDexScreener in H.
      destruct (okDoc (dexscreener w)) as [data|]; [|discriminate].
      destruct (bestPair data); [|discriminate].
      destruct (gt _ 0); [|discriminate]. now injection H as <- _.
    - unfold WsToken.viaJupiter in H.
      destruct (okDoc (jupiter w)) as [data|]; [|discriminate].
      destruct (jupEntry data); [|discriminate].
      destruct (gt _ 0); [|discriminate]. now injection H as <- _.
    - unfold WsToken.viaBirdeye in H.
      destruct (okDoc (birdeyePrice w)) as [data|]; [|discriminate].
      destruct (gt _ 0); [|discriminate].
      destruct (overviewStats _) as [[c v]|]; now injection H as <- _. }
  destruct (WsToken.viaDexScreener w l0) as [r1 l1] eqn:E1.
  cbn [fst snd] in Hdex.
  destruct r1 as [d1|].
  - intros [= <-]. split; [exact (Hnine _ _ _ (or_introl E1))|].
    unfold yields. destruct (dexAdapter w) as [s|].
    + destruct (gt (s_price s) 0); [discriminate|].
      destruct Hdex as [Hd _]. discriminate.
    + discriminate.
  - assert (Hs1 : WsToken.l_supply l1 = 0).
    { destruct (dexAdapter w) as [s|].
      - destruct (gt (s_price s) 0).
        + destruct Hdex as [d' [Hd' _]]. discriminate.
        + now destruct Hdex as [_ [_ ->]].
      - now injection Hdex as ->. }
    pose proof (viaJupiter_adapter w l1) as Hjup.
    destruct (WsToken.viaJupiter w l1) as [r2 l2] eqn:E2.
    cbn [fst snd] in Hjup.
    destruct r2 as [d2|].
    + intros [= <-]. split; [exact (Hnine _ _ _ (or_intror (or_introl E2)))|].
      intros _.
      assert (Hsup : WsToken.supply d2 = 0).
      { destruct (jupAdapter w) as [s|].
        - destruct (gt (s_price s) 0).
          + destruct Hjup as [d' [[= <-] [_ [_ [_ ->]]]]]. exact Hs1.
          + destruct Hjup as [Hd _]. discriminate.
        - discriminate. }
      split; [exact Hsup|exact (Hzero _ Hsup)].
    + assert (Hs2 : WsToken.l_supply l2 = 0).
      { destruct (jupAdapter w) as [s|].
        - destruct (gt (s_price s) 0).
          + destruct Hjup as [d' [Hd' _]]. discriminate.
          + destruct Hjup as [_ [_ ->]]. exact Hs1.
        - injection Hjup as ->. exact Hs1. }
      destruct (truthy_str (BIRDEYE_API_KEY w)); [|discriminate].
      destruct (WsToken.viaBirdeye w l2) as [r3 l3] eqn:E3. cbn [fst].
      destruct r3 as [d3|]; [|discriminate].
      intros [= <-].
      split; [exact (Hnine _ _ _ (or_intror (or_intror E3)))|].
      intros _.
      assert (Hsup : WsToken.supply d3 = 0).
      { unfold WsToken.viaBirdeye in E3.
        destruct (okDoc (birdeyePrice w)) as [data|]; [|discriminate].
        destruct (gt _ 0); [|discriminate].
        destruct (overviewStats _) as [[c v]|]; injection E3 as <- _;
          exact Hs2. }
      split; [exact Hsup|exact (Hzero _ Hsup)].
Qed.

(** X3: the stream's [fetchTokenData] always reports 9 decimals, and it
    derives a supply from DexScreener only: when the price comes from
    Jupiter or Birdeye the supply is 0, and so are the supply and the
    market cap of the [update] event built from it. *)
Theorem stream_supply_comes_from_dexscreener_only
  (w : World) (d : WsToken.Fetched) :
  WsToken.fetchTokenData w = WsToken.Return d ->
  WsToken.decimals d = 9
  /\ (yields (dexAdapter w) = false ->
      WsToken.supply d = 0
      /\ forall now,
           WsToken.u_supply (StreamSpec.snapshotOf d now) = 0
           /\ WsToken.u_marketCap (StreamSpec.snapshotOf d now) = 0).
Proof. exact (fetched_decimals_and_supply w d). Qed.

Lemma stream_supply_comes_from_dexscreener_only_witness :
  WsToken.decimals
    {| WsToken.price := 2; WsToken.change24h := 1; WsToken.volume24h := 50;
       WsToken.supply := 0; WsToken.decimals := 9 |} = 9.
Proof.
  exact (proj1 (stream_supply_comes_from_dexscreener_only
                  (StreamSpec.jupiterQuotes 2 1 50) _ eq_refl)).
Defined.

End AdapterAgreement.

(** ** Histories of one stream connection *)

Module SessionRunSpec.
Import Js JsFacts Upstream WsToken StreamSpec SessionRun.
Local Open Scope Q_scope.

(** A settled poll never reopens a session, and sends nothing on a closed
    one. *)
Lemma pollSettled_closed (s : Session) (fetched : Outcome Fetched) (now : Z) :
  isClosed (fst (pollSettled s fetched now)) = isClosed s
  /\ (isClosed s = true -> snd (pollSettled s fetched now) = []).
Proof.
  unfold pollSettled, sendEvent.
  destruct fetched as [d|msg].
  - destruct (_ || _)%bool; cbn [fst snd isClosed].
    + split; [reflexivity|]. now intros ->.
    + now split.
  - cbn [fst snd]. split; [reflexivity|]. now intros ->.
Qed.

Lemma step_closed (st : Step) (c : Connection) :
  isClosed (session c) = true ->
  snd (step st c) = [] /\ isClosed (session (fst (step st c))) = true.
Proof.
  intro H. destruct st as [|w now| |]; cbn [step].
  - rewrite H, andb_false_r. now split.
  - destruct (inFlight c); [now split|].
    destruct (pollSettled_closed (session c) (fetchTokenData w) now)
      as [Hsame Hsilent].
    destruct (pollSettled (session c) (fetchTokenData w) now) as [s1 sent].
    cbn [fst snd session] in *. split; [now apply Hsilent|congruence].
  - destruct (listening c); [|now split].
    unfold onKeepAlive. rewrite H. now split.
  - destruct (listening c); now split.
Qed.

Lemma closed_session_run (steps : list Step) :
  forall c, isClosed (session c) = true ->
  snd (run steps c) = [] /\ isClosed (session (fst (run steps c))) = true.
Proof.
  induction steps as [|st steps IH]; intros c H; cbn [run]; [now split|].
  destruct (step_closed st c H) as [Hsent Hc].
  destruct (step st c) as [c1 sent1]. cbn [fst snd] in *. subst sent1.
  destruct (IH c1 Hc) as [Hsent2 Hc2].
  destruct (run steps c1) as [c2 sent2]. cbn [fst snd] in *. now subst sent2.
Qed.

(** X4: once the abort listener has run, the connection sends nothing any
    more and stays closed, whatever timers still go off, whatever polls in
    flight settle and however often the abort is signalled again.  The
    listener is added only after the initial poll has settled: an abort
    signalled before that is not heard, and the connection goes on as if
    nothing had happened. *)
Theorem aborted_session_stays_silent (steps : list Step) (c : Connection) :
  (listening c = true ->
   snd (run (Abort :: steps) c) = []
   /\ isClosed (session (fst (run (Abort :: steps) c))) = true)
  /\ (listening c = false -> run (Abort :: steps) c = run steps c).
Proof.
  split; intro H; cbn [run step]; rewrite H.
  - pose proof (closed_session_run steps
                  {| session := onAbort (session c); listening := true;
                     inFlight := inFlight c |} eq_refl) as [Hsent Hc].
    destruct (run steps _) as [c2 sent2]. cbn [fst snd] in *.
    now subst sent2.
  - now destruct (run steps c).
Qed.

(** An abort during the initial poll is lost: the polls go on sending. *)
Example abort_during_initial_poll_is_lost :
  map type
    (snd (run [Abort; Settle (jupiterQuotes 2 1 50) 1000; Tick;
               Settle (jupiterQuotes 3 1 50) 6000; KeepAlive]
            (opened "mint")))
  = [update; update; keepalive].
Proof. reflexivity. Qed.

Lemma updatesOf_app (a b : list TokenUpdateEvent) :
  updatesOf (a ++ b) = updatesOf a ++ updatesOf b.
Proof.
  induction a as [|ev a IH]; simpl; [reflexivity|].
  destruct (type ev), (data ev); simpl; now rewrite IH.
Qed.

Lemma changing_app (prev : option UpdateData) (a b : list UpdateData) :
  changing prev a -> changing (lastOr prev a) b -> changing prev (a ++ b).
Proof.
  revert prev. induction a as [|u a IH]; intros prev Ha Hb; simpl in *.
  - exact Hb.
  - destruct Ha as [Hp [Hd Ha]]. repeat split; auto.
Qed.

Lemma lastOr_app (prev : option UpdateData) (a b : list UpdateData) :
  lastOr prev (a ++ b) = lastOr (lastOr prev a) b.
Proof. unfold lastOr. now rewrite fold_left_app. Qed.

(** A settled poll on an open session: what it sends keeps the chain of
    changing snapshots going, and the session remembers the last one. *)
Lemma settle_changing (s : Session) (w : World) (now : Z)
  (last : option UpdateData) :
  isClosed s = false -> remembers last s ->
  changing last (updatesOf (snd (pollSettled s (fetchTokenData w) now)))
  /\ remembers
       (lastOr last (updatesOf (snd (pollSettled s (fetchTokenData w) now))))
       (fst (pollSettled s (fetchTokenData w) now)).
Proof.
  intros Hclosed Hrem.
  assert (Hpoll : pollSettled s (fetchTokenData w) now = pollTokenData s w now)
    by (unfold pollTokenData; now rewrite Hclosed).
  rewrite Hpoll.
  destruct (fetchTokenData w) as [d|msg] eqn:Hfetch.
  - assert (Htr : tracks (tokenAddress s) s
                    match last with
                    | Some u => [updateEvent (tokenAddress s) u]
                    | None => []
                    end).
    { split; [reflexivity|]. split; [exact Hclosed|].
      destruct last as [u|]; exact Hrem. }
    rewrite (PollSpec.pollTokenData_decision _ _ _ w now d Htr Hfetch).
    assert (Hlast : lastSentSnapshot
                      match last with
                      | Some u => [updateEvent (tokenAddress s) u]
                      | None => []
                      end = last) by (destruct last; reflexivity).
    rewrite Hlast.
    pose proof (PollSpec.fetchTokenData_positive w d Hfetch) as Hpos.
    destruct last as [u|].
    + destruct (differs (snapshotOf d now) u) eqn:Hdiff; cbn.
      * repeat split; auto.
      * now split.
    + cbn. repeat split; auto.
  - unfold pollTokenData. rewrite Hclosed, Hfetch.
    unfold pollSettled, sendEvent. rewrite Hclosed. cbn. now split.
Qed.

(** One step of a connection: what it sends keeps the chain of changing
    snapshots going; afterwards the session is closed for good or
    remembers the last snapshot sent. *)
Lemma step_changing (st : Step) (c : Connection) (last : option UpdateData) :
  isClosed (session c) = true \/ remembers last (session c) ->
  changing last (updatesOf (snd (step st c)))
  /\ (isClosed (session (fst (step st c))) = true
      \/ remembers (lastOr last (updatesOf (snd (step st c))))
           (session (fst (step st c)))).
Proof.
  intro Hinv.
  destruct (isClosed (session c)) eqn:Hclosed.
  { destruct (step_closed st c Hclosed) as [-> Hc]. cbn. now split; [|left]. }
  destruct Hinv as [Hinv|Hrem]; [discriminate|].
  destruct st as [|w now| |]; cbn [step].
  - rewrite Hclosed. destruct (listening c); cbn; (split; [exact I|]);
      right; destruct last; exact Hrem.
  - destruct (inFlight c).
    + cbn. split; [exact I|]. right. destruct last; exact Hrem.
    + destruct (settle_changing (session c) w now last Hclosed Hrem)
        as [Hch Hrem'].
      destruct (pollSettled (session c) (fetchTokenData w) now) as [s1 sent].
      cbn [fst snd session] in *. split; [exact Hch|now right].
  - destruct (listening c).
    + unfold onKeepAlive, sendEvent. rewrite Hclosed. cbn.
      split; [exact I|]. right. destruct last; exact Hrem.
    + cbn. split; [exact I|]. right. destruct last; exact Hrem.
  - destruct (listening c); cbn; (split; [exact I|]).
    + now left.
    + right. destruct last; exact Hrem.
Qed.

Lemma run_changing (steps : list Step) :
  forall (c : Connection) (last : option UpdateData),
  isClosed (session c) = true \/ remembers last (session c) ->
  changing last (updatesOf (snd (run steps c))).
Proof.
  induction steps as [|st steps IH]; intros c last Hinv; simpl.
  - exact I.
  - destruct (step_changing st c last Hinv) as [Hch Hinv'].
    destruct (step st c) as [c1 sent1]. cbn [fst snd] in *.
    specialize (IH c1 _ Hinv').
    destruct (run steps c1) as [c2 sent2]. cbn [fst snd] in *.
    rewrite updatesOf_app. now apply changing_app.
Qed.

(** X5: over the whole life of a connection (polls, keep-alives, abort, in
    any order) every [update] event carries a positive price, and no two
    consecutive [update] events carry the same price, supply and
    decimals. *)
Theorem updates_of_a_connection_keep_changing
  (tokenAddress_ : string) (steps : list Step) :
  changing None (updatesOf (snd (run steps (opened tokenAddress_)))).
Proof. apply run_changing. right. reflexivity. Qed.

End SessionRunSpec.

(** ** The chart route over time *)

Module ChartRunSpec.
Import Js JsFacts Upstream ChartData ChartSpec ChartSamples ChartRun.
Local Open Scope Z_scope.

Lemma set_contains {V : Type} (k : string) (v : V) (m : JsMap.t V) :
  exists k', In (k', v) (JsMap.set k v m) /\ k' = k.
Proof.
  induction m as [|[k0 v0] m IH]; simpl.
  - exists k. auto.
  - destruct (String.eqb_spec k k0) as [->|Hk].
    + exists k0. split; [now left|reflexivity].
    + destruct IH as [k' [Hin ->]]. exists k. split; [now right|reflexivity].
Qed.

Lemma rebuilt_entries {V : Type} (l : list (string * V)) (m : JsMap.t V)
  (e : string * V) :
  In e (fold_left (fun m kv => JsMap.set (fst kv) (snd kv) m) l m) ->
  In e m \/ In e l.
Proof.
  revert m. induction l as [|[k v] l IH]; intros m H; simpl in *.
  - now left.
  - destruct (IH _ H) as [Hm|Hl]; [|now right; right].
    destruct (JsMapFacts.set_entries _ k v m e Hm) as [->|Hm']; auto.
Qed.

(** Whatever the cache holds after a put was written by it or held before. *)
Lemma setCachedData_entries (now : Z) (k : string) (d : ChartResult)
  (c : Cache) (e : string * CacheEntry) :
  In e (setCachedData now k d c) ->
  e = (k, {| data := d; timestamp := now |}) \/ In e c.
Proof.
  unfold setCachedData.
  destruct (100 <? JsMap.size _)%nat.
  - intro H. apply rebuilt_entries in H. destruct H as [[]|H].
    apply JsMapFacts.set_entries.
    apply (Permutation_in _ (CacheSpec.byRecency_perm _)).
    rewrite <- (firstn_skipn 100). apply in_or_app. left. exact H.
  - apply JsMapFacts.set_entries.
Qed.

(** An entry written later than everything the cache holds survives the
    put, eviction included. *)
Lemma newest_survives (now : Z) (k : string) (d : ChartResult) (c : Cache) :
  NoDup (JsMap.keys c) ->
  (forall e, In e c -> timestamp (snd e) < now) ->
  JsMap.get k (setCachedData now k d c)
  = Some {| data := d; timestamp := now |}.
Proof.
  intros Hnodup Holder. unfold setCachedData.
  set (written := JsMap.set k {| data := d; timestamp := now |} c).
  destruct (100 <? JsMap.size written)%nat;
    [|apply JsMapFacts.get_set_same].
  assert (Hw : NoDup (JsMap.keys written))
    by now apply JsMapFacts.set_nodup.
  fold (byRecency written). rewrite (CacheSpec.evicted_cache written Hw).
  pose proof (CacheSpec.byRecency_perm written) as Hperm.
  assert (Hsorted : StronglySorted (JsArray.inOrder newer) (byRecency written))
    by exact (SortFacts.sort_sorted CacheSpec.newer_asym
                CacheSpec.newer_negtrans written).
  destruct (set_contains k {| data := d; timestamp := now |} c)
    as [k' [Hin ->]]. fold written in Hin.
  apply (Permutation_in _ (Permutation_sym Hperm)) in Hin.
  destruct (byRecency written) as [|h rest] eqn:Hby; [contradiction|].
  assert (Hh : h = (k, {| data := d; timestamp := now |})).
  { destruct Hin as [Hin|Hin]; [exact Hin|].
    assert (Hhw : In h written)
      by (apply (Permutation_in _ Hperm); now left).
    destruct (JsMapFacts.set_entries _ _ _ _ _ Hhw) as [Heq|Hold];
      [exact Heq|].
    inversion Hsorted as [|? ? _ Hall]; subst.
    rewrite Forall_forall in Hall. specialize (Hall _ Hin).
    unfold JsArray.inOrder, newer in Hall. cbn in Hall.
    apply Z.ltb_ge in Hall. specialize (Holder _ Hold). lia. }
  subst h. cbn. now rewrite String.eqb_refl.
Qed.

(** X6: a value put into the cache at [now], later than every entry the
    cache holds, is what a get of the same address returns for the next
    5 seconds, even when the put evicted entries; from 5 seconds on the
    get returns nothing. *)
Theorem cached_value_is_served_for_ttl
  (now now' : Z) (k : string) (d : ChartResult) (cache : Cache) :
  NoDup (JsMap.keys cache) ->
  (forall e, In e cache -> timestamp (snd e) < now) ->
  (now' - now < 5000 ->
   getCachedData now' k (setCachedData now k d cache) = Some d)
  /\ (5000 <= now' - now ->
      getCachedData now' k (setCachedData now k d cache) = None).
Proof.
  intros Hnodup Holder. unfold getCachedData.
  rewrite (newest_survives now k d cache Hnodup Holder).
  cbn [timestamp data]. unfold CACHE_TTL.
  split; intro H; destruct (Z.ltb_spec (now' - now) 5000); auto; lia.
Qed.

Lemma fullCache_older (e : string * CacheEntry) :
  In e fullCache -> timestamp (snd e) < 100.
Proof.
  intro H. apply Z.ltb_lt.
  refine (proj1 (forallb_forall (fun e => timestamp (snd e) <? 100) fullCache)
            _ e H).
  vm_compute. reflexivity.
Qed.

Lemma cached_value_is_served_for_ttl_witness :
  getCachedData 5099 (keyOf 100)
    (setCachedData 100 (keyOf 100) someResult fullCache) = Some someResult
  /\ getCachedData 5100 (keyOf 100)
       (setCachedData 100 (keyOf 100) someResult fullCache) = None.
Proof.
  destruct (cached_value_is_served_for_ttl 100 5099 (keyOf 100) someResult
              fullCache (CacheSpec.replay_nodup _) fullCache_older)
    as [Hfresh _].
  destruct (cached_value_is_served_for_ttl 100 5100 (keyOf 100) someResult
              fullCache (CacheSpec.replay_nodup _) fullCache_older)
    as [_ Hstale].
  split; [apply Hfresh|apply Hstale]; vm_compute; [reflexivity|discriminate].
Defined.

(** What one request does to the cache and what it answers *)
Lemma GET_keeps_usable (now : Z) (a : option string)
  (u : HttpResult DexBody) (c : Cache) :
  allUsable c ->
  wellFormed (fst (GET now a u c)) /\ allUsable (snd (GET now a u c)).
Proof.
  intro Hc.
  assert (Hget : forall k e, JsMap.get k c = Some e -> usable (data e)).
  { intros k e H. clear - H Hc.
    induction c as [|[k0 v0] c IH]; simpl in H; [discriminate|].
    destruct (String.eqb k k0).
    - injection H as <-. apply (Hc (k0, v0)). now left.
    - apply IH; auto. intros e' He'. apply Hc. now right. }
  unfold GET. destruct a as [a|]; [|split; [cbn; discriminate|exact Hc]].
  destruct (truthy_str (Some a)); cbn [negb];
    [|split; [cbn; discriminate|exact Hc]].
  assert (Hthrown : forall msg, wellFormed (onThrown a msg c)).
  { intro msg. unfold onThrown.
    destruct (JsMap.get a c) as [e|] eqn:He; cbn; [|discriminate].
    split; [reflexivity|]. now apply (Hget a). }
  unfold serve.
  destruct (getCachedData now a c) as [hit|] eqn:Hhit.
  { split; [|exact Hc]. cbn. split; [reflexivity|].
    unfold getCachedData in Hhit.
    destruct (JsMap.get a c) as [e|] eqn:He; [|discriminate].
    destruct (now - timestamp e <? CACHE_TTL); [|discriminate].
    injection Hhit as <-. now apply (Hget a). }
  destruct u as [msg|st parsed]; [split; [apply Hthrown|exact Hc]|].
  destruct (ok st) eqn:Hok; cbn [negb].
  2:{ destruct (Z.eqb_spec st 429) as [->|Hne].
      - destruct (JsMap.get a c) as [stale|] eqn:Hs; (split; [|exact Hc]);
          cbn; [|discriminate].
        split; [reflexivity|]. now apply (Hget a).
      - destruct (refusal st) as [msg|]; (split; [|exact Hc]);
          [apply Hthrown|].
        cbn. intros ->. discriminate. }
  destruct parsed as [msg|doc]; [split; [apply Hthrown|exact Hc]|].
  destruct (bestPair doc) as [p|]; [|split; [cbn; discriminate|exact Hc]].
  destruct (seq (parseFloat_or0 (priceUsd p)) 0%Q) eqn:Hzero;
    [split; [cbn; discriminate|exact Hc]|].
  unfold seq in Hzero. apply Qeq_bool_neq in Hzero.
  split; [cbn; split; [reflexivity|split; [reflexivity|exact Hzero]]|].
  intros e He. apply setCachedData_entries in He.
  destruct He as [->|He]; [|now apply Hc].
  cbn. split; [reflexivity|exact Hzero].
Qed.

(** A request leaves the cache alone or puts one result into it. *)
Lemma GET_cache_effect (now : Z) (a : option string)
  (u : HttpResult DexBody) (c : Cache) :
  snd (GET now a u c) = c
  \/ exists k r, a = Some k /\ snd (GET now a u c) = setCachedData now k r c.
Proof.
  unfold GET, serve.
  repeat match goal with
         | |- context [match ?x with _ => _ end] => destruct x
         | |- context [if ?x then _ else _] => destruct x
         end; cbn [snd]; auto.
  all: right; eexists; eexists; split; reflexivity.
Qed.

Lemma serveAll_keeps (reqs : list Request) :
  forall c : Cache,
  allUsable c -> (JsMap.size c <= 100)%nat ->
  Forall wellFormed (fst (serveAll reqs c))
  /\ allUsable (snd (serveAll reqs c))
  /\ (JsMap.size (snd (serveAll reqs c)) <= 100)%nat.
Proof.
  induction reqs as [|[[now a] u] reqs IH]; intros c Hc Hsize; simpl.
  - split; [constructor|split; assumption].
  - destruct (GET_keeps_usable now a u c Hc) as [Hr Hc1].
    assert (Hsize1 : (JsMap.size (snd (GET now a u c)) <= 100)%nat).
    { destruct (GET_cache_effect now a u c) as [->|[k [r [_ ->]]]];
        [exact Hsize|apply CacheSpec.setCachedData_size]. }
    destruct (GET now a u c) as [r c1]. cbn [fst snd] in *.
    destruct (IH c1 Hc1 Hsize1) as [Hrs [Hc2 Hsize2]].
    destruct (serveAll reqs c1) as [rs c2]. cbn [fst snd] in *.
    split; [now constructor|split; assumption].
Qed.

(** X7: whatever requests the chart route serves, starting with an empty
    cache, every response is either data with status 200, whose price is
    not 0 and which is marked successful, or an error with a status other
    than 200; the cache only ever holds such data (an error or a zero
    price is never cached) and never more than 100 entries. *)
Theorem chart_route_serves_and_caches_usable_data_only (reqs : list Request) :
  Forall wellFormed (fst (serveAll reqs JsMap.empty))
  /\ allUsable (snd (serveAll reqs JsMap.empty))
  /\ (JsMap.size (snd (serveAll reqs JsMap.empty)) <= 100)%nat.
Proof.
  apply serveAll_keeps.
  - intros e [].
  - cbn. lia.
Qed.








(** Requests for another address in between do not disturb the entry: the
    second request for "mint" is answered from the cache although upstream
    is offline by then. *)
Example other_address_in_between :
  fst (serveAll
         [(1000, Some "mint"%string, onePair somePair);
          (2000, Some "other"%string, onePair somePair);
          (3000, Some "mint"%string, Rejected "offline")]
         JsMap.empty)
  = [json (Data someResult false None);
     json (Data someResult false None);
     json (Data someResult false None)].
Proof. reflexivity. Qed.

(** A failed upstream call whose status [NextResponse.json] refuses is
    answered by the [catch]: 500 without a cache entry, the stale entry
    with one. *)
Example refused_status_is_answered_by_catch :
  status (fst (GET 1000 (Some "mint"%string) (Responded 304 (BadJson "empty"))
                 JsMap.empty)) = 500
  /\ fst (GET 9000 (Some "mint"%string) (Responded 700 (BadJson "odd"))
            (setCachedData 1000 "mint" someResult JsMap.empty))
     = json (Data someResult true
               (Some "Error fetching fresh data, returning cached data"%string)).
Proof. split; reflexivity. Qed.

End ChartRunSpec.

(** ** Histories of the stream client *)

Module ClientRunSpec.
Import JupiterClient ClientSpec ClientRun.
Local Open Scope Z_scope.

(** X9: a successful open starts the back-off afresh.  Whatever happened
    before, once [onopen] has run on a client that has a source and is not
    closed, the error events that follow in a row are answered as at the
    start: those that do not find the source closed are ignored, and those
    that do are retried after 2 s, 4 s, 8 s, 16 s and six times 30 s; the
    eleventh of them calls [onError], when the caller gave one, with the
    terminal error, and nothing is scheduled from then on. *)
Theorem open_restarts_backoff (c : Client) (states : list ReadyState) :
  eventSource c = true -> isClosed c = false ->
  snd (errorsInRow states (onopen c))
  = firstn (closedAmong states)
      (retrySchedule ++ terminalError (onErrorGiven c)).
Proof.
  intros Hsrc Hopen.
  destruct c as [oe oc es cl rt ra]. cbn in Hsrc, Hopen. subst es cl.
  rewrite ReconnectSpec.errorsInRow_failures.
  set (n := closedAmong states). cbn [onErrorGiven].
  destruct (Nat.le_gt_cases n 11) as [Hle|Hgt].
  - pose proof (ReconnectSpec.small_cases n Hle) as Hcases.
    cbn [seq In] in Hcases.
    destruct oe;
      repeat (destruct Hcases as [<-|Hcases]; [reflexivity|]);
      contradiction.
  - replace n with (11 + (n - 11))%nat by lia.
    rewrite ReconnectSpec.failures_add. cbn [snd].
    rewrite (ReconnectSpec.failures_without_source (n - 11))
      by (destruct oe; reflexivity).
    cbn [snd]. rewrite app_nil_r. rewrite firstn_all2.
    + destruct oe; reflexivity.
    + destruct oe; cbn; lia.
Qed.

Lemma open_restarts_backoff_witness :
  snd (errorsInRow [CLOSED; CONNECTING; CLOSED; OPEN; CLOSED]
         (onopen (fst (failures 7 (started true)))))
  = firstn (closedAmong [CLOSED; CONNECTING; CLOSED; OPEN; CLOSED])
      (retrySchedule
       ++ terminalError (onErrorGiven (fst (failures 7 (started true))))).
Proof.
  apply (open_restarts_backoff (fst (failures 7 (started true)))
           [CLOSED; CONNECTING; CLOSED; OPEN; CLOSED]);
    reflexivity.
Defined.




(** The call that is still made: a [refresh] frame starts a full fetch,
    the caller cleans up, the fetch resolves. *)
Example refetch_outlives_cleanup :
  snd (run [Message (Some {| type := WsToken.refresh; data := None;
                             message := None; token := None |});
            CleanedUp; Refetched (Some fetchedToken)]
         (started true, O))
  = [Refetch; OnUpdateFull fetchedToken].
Proof. reflexivity. Qed.

End ClientRunSpec.

(** ** The log of the message scheduler *)

Module SchedulerLogSpec.
Import Scheduler SchedulerLog.
Local Open Scope Z_scope.

Lemma step_alternating (ev : Event) (r : Refs) :
  match snd (step ev r) with
  | [] => lastMessageEmotion (fst (step ev r)) = lastMessageEmotion r
  | [te] => opt_emotion_is (lastMessageEmotion r) (snd te) = false
            /\ lastMessageEmotion (fst (step ev r)) = Some (snd te)
  | _ => False
  end.
Proof.
  destruct ev as [t e|t]; unfold step.
  - unfold scheduleMessage.
    destruct (opt_emotion_is (lastMessageEmotion r) e) eqn:He;
      [reflexivity|].
    destruct ((5000 <=? t - lastMessageAt r) && negb (armed r))%bool;
      [cbn; auto|].
    destruct (armed r); reflexivity.
  - unfold onTimer.
    destruct (pendingEmotion r) as [p|]; [|reflexivity].
    destruct (opt_emotion_is (lastMessageEmotion r) p) eqn:Hp;
      [reflexivity|]. cbn. auto.
Qed.

(** X11: the scheduler never announces the same emotion twice in a row:
    in every history of calls and timer firings, each message generated is
    for an emotion other than the one of the message before it. *)
Theorem no_emotion_is_announced_twice_in_a_row (evs : list Event) (r : Refs) :
  alternating (lastMessageEmotion r) (snd (run evs r)).
Proof.
  revert r. induction evs as [|ev evs IH]; intro r; simpl; [exact I|].
  pose proof (step_alternating ev r) as Hstep.
  destruct (step ev r) as [r1 out1]. cbn [fst snd] in Hstep.
  specialize (IH r1).
  destruct (run evs r1) as [r2 out2]. cbn [fst snd] in *.
  destruct out1 as [|te [|te' out1]]; [| |contradiction].
  - simpl. now rewrite <- Hstep.
  - destruct Hstep as [Hne Hlast]. simpl. split; [exact Hne|].
    now rewrite <- Hlast.
Qed.

End SchedulerLogSpec.

(** * Rounding to the nearest double *)

Module Float64Facts.
Import Float64.
Local Open Scope Q_scope.

Lemma pow2_pos (e : Z) : 0 < pow2 e.
Proof. apply Qpower_0_lt. reflexivity. Qed.

Lemma pow2_add (a b : Z) : pow2 (a + b) == pow2 a * pow2 b.
Proof. apply Qpower_plus. intro H. discriminate H. Qed.

Lemma pow2_le (a b : Z) : (a <= b)%Z -> pow2 a <= pow2 b.
Proof. intro H. apply Qpower_le_compat_l; [exact H|]. discriminate. Qed.

Lemma pow2_lt (a b : Z) : (a < b)%Z -> pow2 a < pow2 b.
Proof. intro H. apply Qpower_lt_compat_l; [exact H|]. reflexivity. Qed.

Lemma pow2_lt_inv (a b : Z) : pow2 a < pow2 b -> (a < b)%Z.
Proof. intro H. apply (Qpower_lt_compat_l_inv 2); [exact H|reflexivity]. Qed.

Lemma pow2_le_inv (a b : Z) : pow2 a <= pow2 b -> (a <= b)%Z.
Proof. intro H. apply (Qpower_le_compat_l_inv 2); [exact H|reflexivity]. Qed.

Lemma pow2_Z (e : Z) : (0 <= e)%Z -> pow2 e == inject_Z (2 ^ e).
Proof. intro H. symmetry. apply (Zpower_Qpower 2 e H). Qed.

Lemma pow2_succ (e : Z) : pow2 (e + 1) == 2 * pow2 e.
Proof. rewrite pow2_add. change (pow2 1) with 2. ring. Qed.

(** ** The nearest integer *)

Lemma rne_bounds (x : Q) :
  inject_Z (rne x) - (1 # 2) <= x <= inject_Z (rne x) + (1 # 2).
Proof.
  destruct x as [n d]. unfold rne. cbn [Qnum Qden].
  pose proof (Z.div_mod n (Z.pos d) ltac:(lia)) as Hdm.
  pose proof (Z.mod_pos_bound n (Z.pos d) ltac:(lia)) as Hr.
  set (q := (n / Z.pos d)%Z) in *. set (r := (n mod Z.pos d)%Z) in *.
  unfold Qle, Qminus, Qplus, Qopp, inject_Z. cbn [Qnum Qden].
  destruct (Z.ltb_spec (2 * r) (Z.pos d));
    [|destruct (Z.ltb_spec (Z.pos d) (2 * r)); [|destruct (Z.even q)]];
    split; nia.
Qed.

(** At a tie the even neighbour is chosen. *)
Lemma rne_tie (x : Q) :
  x == inject_Z (rne x) - (1 # 2) \/ x == inject_Z (rne x) + (1 # 2) ->
  Z.even (rne x) = true.
Proof.
  destruct x as [n d]. unfold rne. cbn [Qnum Qden].
  pose proof (Z.div_mod n (Z.pos d) ltac:(lia)) as Hdm.
  pose proof (Z.mod_pos_bound n (Z.pos d) ltac:(lia)) as Hr.
  set (q := (n / Z.pos d)%Z) in *. set (r := (n mod Z.pos d)%Z) in *.
  unfold Qeq, Qminus, Qplus, Qopp, inject_Z. cbn [Qnum Qden].
  destruct (Z.ltb_spec (2 * r) (Z.pos d));
    [|destruct (Z.ltb_spec (Z.pos d) (2 * r)); [|destruct (Z.even q) eqn:E]];
    intros [Ht|Ht]; try nia; try exact E.
  all: rewrite Z.even_add, E; reflexivity.
Qed.

Lemma rne_le (x y : Q) : x <= y -> (rne x <= rne y)%Z.
Proof.
  intro Hxy.
  destruct (Z.le_gt_cases (rne x) (rne y)) as [|Hgt]; [assumption|exfalso].
  pose proof (rne_bounds x) as [Hx _]. pose proof (rne_bounds y) as [_ Hy].
  assert (Hz : inject_Z (rne y) + 1 <= inject_Z (rne x)).
  { change 1 with (inject_Z 1). rewrite <- inject_Z_plus, <- Zle_Qle. lia. }
  assert (Ex : x == inject_Z (rne x) - (1 # 2)) by lra.
  assert (Ey : y == inject_Z (rne y) + (1 # 2)) by lra.
  assert (Ez : inject_Z (rne x) == inject_Z (rne y) + 1) by lra.
  pose proof (rne_tie x (or_introl Ex)) as Evx.
  pose proof (rne_tie y (or_intror Ey)) as Evy.
  assert (Ez' : rne x = (rne y + 1)%Z)
    by (apply inject_Z_injective; rewrite inject_Z_plus; exact Ez).
  rewrite Ez', Z.even_add, Evy in Evx. discriminate.
Qed.

Lemma rne_proper (x y : Q) : x == y -> rne x = rne y.
Proof.
  intro H. apply Z.le_antisymm; apply rne_le; rewrite H; apply Qle_refl.
Qed.

Lemma rne_Z (x : Q) (z : Z) : x == inject_Z z -> rne x = z.
Proof.
  intro H. pose proof (rne_bounds x) as [Hlo Hhi].
  assert (H1 : inject_Z (rne x) < inject_Z z + 1) by lra.
  assert (H2 : inject_Z z < inject_Z (rne x) + 1) by lra.
  change 1 with (inject_Z 1) in H1, H2.
  rewrite <- inject_Z_plus, <- Zlt_Qlt in H1, H2. lia.
Qed.


(** ** The binary logarithm and the exponent of the grid *)

Lemma ilog2_spec (x : Q) :
  0 < x -> pow2 (ilog2 x) <= x < pow2 (ilog2 x + 1).
Proof.
  intro Hx. destruct x as [n d].
  assert (Hn : (0 < n)%Z) by (unfold Qlt in Hx; simpl in Hx; lia).
  unfold ilog2. cbn [Qnum Qden].
  pose proof (Z.log2_spec n Hn) as [Ha1 Ha2].
  pose proof (Z.log2_spec (Z.pos d) ltac:(lia)) as [Hb1 Hb2].
  pose proof (Z.log2_nonneg n) as Ha0.
  pose proof (Z.log2_nonneg (Z.pos d)) as Hb0.
  set (a := Z.log2 n) in *. set (b := Z.log2 (Z.pos d)) in *.
  assert (Qa1 : pow2 a <= inject_Z n)
    by (rewrite pow2_Z by lia; rewrite <- Zle_Qle; exact Ha1).
  assert (Qa2 : inject_Z n < pow2 (a + 1))
    by (rewrite pow2_Z by lia; rewrite <- Zlt_Qlt; exact Ha2).
  assert (Qb1 : pow2 b <= inject_Z (Z.pos d))
    by (rewrite pow2_Z by lia; rewrite <- Zle_Qle; exact Hb1).
  assert (Qb2 : inject_Z (Z.pos d) < pow2 (b + 1))
    by (rewrite pow2_Z by lia; rewrite <- Zlt_Qlt; exact Hb2).
  assert (Hxd : (n # d) * inject_Z (Z.pos d) == inject_Z n)
    by (unfold Qeq, Qmult, inject_Z; simpl; lia).
  set (x := n # d) in *.
  assert (Hup : x < pow2 (a - b + 1)).
  { apply (Qmult_lt_r _ _ (pow2 b) (pow2_pos b)). rewrite <- pow2_add.
    replace (a - b + 1 + b)%Z with (a + 1)%Z by lia.
    apply Qle_lt_trans with (x * inject_Z (Z.pos d)).
    - apply Qmult_le_l; assumption.
    - rewrite Hxd. exact Qa2. }
  assert (Hlow : pow2 (a - b - 1) <= x).
  { apply (Qmult_le_r _ _ (pow2 (b + 1)) (pow2_pos (b + 1))).
    rewrite <- pow2_add.
    replace (a - b - 1 + (b + 1))%Z with a by lia.
    apply Qle_trans with (inject_Z n); [exact Qa1|].
    rewrite <- Hxd. apply Qmult_le_l; [exact Hx|].
    now apply Qlt_le_weak. }
  destruct (Qle_bool (pow2 (a - b)) x) eqn:E.
  - apply Qle_bool_iff in E. now split.
  - split; [exact Hlow|].
    replace (a - b - 1 + 1)%Z with (a - b)%Z by lia.
    apply Qnot_le_lt. intro H. apply Qle_bool_iff in H. congruence.
Qed.

Lemma ilog2_lt (x : Q) (k : Z) : 0 < x -> x < pow2 k -> (ilog2 x < k)%Z.
Proof.
  intros Hx H. apply pow2_lt_inv.
  apply Qle_lt_trans with x; [apply (ilog2_spec x Hx)|exact H].
Qed.

Lemma ilog2_ge (x : Q) (k : Z) : 0 < x -> pow2 k <= x -> (k <= ilog2 x)%Z.
Proof.
  intros Hx H.
  assert (k < ilog2 x + 1)%Z; [|lia]. apply pow2_lt_inv.
  apply Qle_lt_trans with x; [exact H|apply (ilog2_spec x Hx)].
Qed.

Lemma ilog2_le (x y : Q) : 0 < x -> x <= y -> (ilog2 x <= ilog2 y)%Z.
Proof.
  intros Hx Hxy. apply ilog2_ge; [lra|].
  apply Qle_trans with x; [apply (ilog2_spec x Hx)|exact Hxy].
Qed.

Lemma expo_le (x y : Q) : 0 < x -> x <= y -> (expo x <= expo y)%Z.
Proof.
  intros Hx Hxy. unfold expo. pose proof (ilog2_le x y Hx Hxy). lia.
Qed.

Lemma expo_ge (x : Q) : (-1074 <= expo x)%Z.
Proof. unfold expo. lia. Qed.

(** ** The scaled value and its rounding *)

Lemma scaled_lt (x : Q) : 0 < x -> x / pow2 (expo x) < pow2 53.
Proof.
  intro Hx. apply Qlt_shift_div_r; [apply pow2_pos|].
  rewrite <- pow2_add.
  apply Qlt_le_trans with (pow2 (ilog2 x + 1)); [apply (ilog2_spec x Hx)|].
  apply pow2_le. unfold expo. lia.
Qed.

Lemma scaled_ge (x : Q) :
  0 < x -> (-1074 < expo x)%Z -> pow2 52 <= x / pow2 (expo x).
Proof.
  intros Hx He. apply Qle_shift_div_l; [apply pow2_pos|].
  rewrite <- pow2_add.
  apply Qle_trans with (pow2 (ilog2 x)); [|apply (ilog2_spec x Hx)].
  apply pow2_le. unfold expo in *. lia.
Qed.

Lemma scaled_pos (x : Q) : 0 < x -> 0 < x / pow2 (expo x).
Proof.
  intro Hx. apply Qlt_shift_div_l; [apply pow2_pos|]. lra.
Qed.

Lemma mantissa_bounds (x : Q) :
  0 < x -> (0 <= rne (x / pow2 (expo x)) <= 2 ^ 53)%Z.
Proof.
  intro Hx. split.
  - rewrite <- (rne_Z 0 0 (Qeq_refl 0)). apply rne_le.
    apply Qlt_le_weak. now apply scaled_pos.
  - rewrite <- (rne_Z (pow2 53) (2 ^ 53) (pow2_Z 53 ltac:(lia))).
    apply rne_le. apply Qlt_le_weak. now apply scaled_lt.
Qed.

Lemma mantissa_normal (x : Q) :
  0 < x -> (-1074 < expo x)%Z -> (2 ^ 52 <= rne (x / pow2 (expo x)))%Z.
Proof.
  intros Hx He.
  rewrite <- (rne_Z (pow2 52) (2 ^ 52) (pow2_Z 52 ltac:(lia))).
  apply rne_le. now apply scaled_ge.
Qed.

Lemma roundPos_nonneg (x : Q) : 0 < x -> 0 <= roundPos x.
Proof.
  intro Hx. unfold roundPos. apply Qmult_le_0_compat.
  - change 0 with (inject_Z 0). rewrite <- Zle_Qle.
    apply (mantissa_bounds x Hx).
  - apply Qlt_le_weak, pow2_pos.
Qed.

Lemma roundPos_le_hi (x : Q) : 0 < x -> roundPos x <= pow2 (expo x + 53).
Proof.
  intro Hx. unfold roundPos. rewrite Z.add_comm, pow2_add.
  apply Qmult_le_r; [apply pow2_pos|].
  rewrite (pow2_Z 53) by lia. rewrite <- Zle_Qle.
  apply (mantissa_bounds x Hx).
Qed.

Lemma roundPos_ge_lo (x : Q) :
  0 < x -> (-1074 < expo x)%Z -> pow2 (expo x + 52) <= roundPos x.
Proof.
  intros Hx He. unfold roundPos. rewrite Z.add_comm, pow2_add.
  apply Qmult_le_r; [apply pow2_pos|].
  rewrite (pow2_Z 52) by lia. rewrite <- Zle_Qle.
  now apply mantissa_normal.
Qed.

Lemma roundPos_le (x y : Q) : 0 < x -> x <= y -> roundPos x <= roundPos y.
Proof.
  intros Hx Hxy. assert (Hy : 0 < y) by lra.
  pose proof (expo_le x y Hx Hxy) as He.
  destruct (Z.eq_dec (expo x) (expo y)) as [Heq|Hne].
  - unfold roundPos. rewrite Heq.
    apply Qmult_le_r; [apply pow2_pos|]. rewrite <- Zle_Qle.
    apply rne_le. unfold Qdiv.
    apply Qmult_le_r; [apply Qinv_lt_0_compat, pow2_pos|exact Hxy].
  - apply Qle_trans with (pow2 (expo x + 53)); [now apply roundPos_le_hi|].
    apply Qle_trans with (pow2 (expo y + 52)).
    + apply pow2_le. lia.
    + apply roundPos_ge_lo; [exact Hy|]. pose proof (expo_ge x). lia.
Qed.

Lemma roundPos_proper (x y : Q) : 0 < x -> x == y -> roundPos x == roundPos y.
Proof.
  intros Hx H. apply Qle_antisym; apply roundPos_le; lra.
Qed.

(** ** Rounding is monotone and odd *)

Lemma fl_pos (x : Q) : 0 < x -> fl x = roundPos x.
Proof.
  intro H. unfold fl. destruct (Qcompare_spec x 0); [lra|lra|reflexivity].
Qed.

Lemma fl_neg (x : Q) : x < 0 -> fl x = - roundPos (- x).
Proof.
  intro H. unfold fl. destruct (Qcompare_spec x 0); [lra|reflexivity|lra].
Qed.

Lemma fl_zero (x : Q) : x == 0 -> fl x = 0.
Proof.
  intro H. unfold fl. destruct (Qcompare_spec x 0); [reflexivity|lra|lra].
Qed.

Lemma fl_le (x y : Q) : x <= y -> fl x <= fl y.
Proof.
  intro Hxy.
  destruct (Qcompare_spec x 0) as [Hx|Hx|Hx];
    destruct (Qcompare_spec y 0) as [Hy|Hy|Hy]; try lra.
  - rewrite (fl_zero x Hx), (fl_zero y Hy). lra.
  - rewrite (fl_zero x Hx), (fl_pos y Hy). now apply roundPos_nonneg.
  - rewrite (fl_neg x Hx), (fl_zero y Hy).
    pose proof (roundPos_nonneg (- x)). lra.
  - rewrite (fl_neg x Hx), (fl_neg y Hy).
    pose proof (roundPos_le (- y) (- x)). lra.
  - rewrite (fl_neg x Hx), (fl_pos y Hy).
    pose proof (roundPos_nonneg (- x)). pose proof (roundPos_nonneg y). lra.
  - rewrite (fl_pos x Hx), (fl_pos y Hy). now apply roundPos_le.
Qed.

Lemma fl_proper (x y : Q) : x == y -> fl x == fl y.
Proof. intro H. apply Qle_antisym; apply fl_le; lra. Qed.

Lemma fl_opp (x : Q) : fl (- x) == - fl x.
Proof.
  destruct (Qcompare_spec x 0) as [Hx|Hx|Hx].
  - rewrite (fl_zero x Hx), (fl_zero (- x)) by lra. reflexivity.
  - rewrite (fl_neg x Hx), (fl_pos (- x)) by lra. ring.
  - rewrite (fl_pos x Hx), (fl_neg (- x)) by lra.
    rewrite (roundPos_proper (- - x) x); [reflexivity|lra|ring].
Qed.


(** ** The grid *)

Lemma fl_onGrid (x : Q) : onGrid (fl x).
Proof.
  destruct (Qcompare_spec x 0) as [Hx|Hx|Hx].
  - rewrite (fl_zero x Hx). exists 0%Z, 0%Z.
    split; [|split]; [cbn; lia|lia|reflexivity].
  - rewrite (fl_neg x Hx).
    assert (Hpos : 0 < - x) by lra.
    exists (- rne (- x / pow2 (expo (- x))))%Z, (expo (- x)).
    pose proof (mantissa_bounds (- x) Hpos).
    split; [|split]; [lia|apply expo_ge|].
    unfold roundPos. rewrite inject_Z_opp. ring.
  - rewrite (fl_pos x Hx).
    exists (rne (x / pow2 (expo x))), (expo x).
    pose proof (mantissa_bounds x Hx).
    split; [|split]; [lia|apply expo_ge|reflexivity].
Qed.

Lemma scaled_grid (m e e' : Z) :
  (e' <= e)%Z ->
  inject_Z m * pow2 e / pow2 e' == inject_Z (m * 2 ^ (e - e')).
Proof.
  intro H. rewrite inject_Z_mult, <- (pow2_Z (e - e')) by lia.
  replace e with (e - e' + e')%Z at 1 by lia. rewrite pow2_add.
  field. intro H0. pose proof (pow2_pos e'). lra.
Qed.

Lemma grid_roundPos (x : Q) (m e : Z) :
  0 < x -> (m <= 2 ^ 53)%Z -> (-1074 <= e)%Z ->
  x == inject_Z m * pow2 e -> roundPos x == x.
Proof.
  intros Hx Hm He Hxm.
  assert (Hint : exists k : Z, x / pow2 (expo x) == inject_Z k).
  { destruct (Z.le_gt_cases (expo x) e) as [Hle|Hgt].
    - exists (m * 2 ^ (e - expo x))%Z.
      rewrite <- (scaled_grid m e (expo x) Hle).
      unfold Qdiv. apply Qmult_comp; [exact Hxm|reflexivity].
    - exists (2 ^ 52)%Z.
      assert (Hhi : x <= pow2 (e + 53)).
      { rewrite Hxm, Z.add_comm, pow2_add.
        apply Qmult_le_r; [apply pow2_pos|].
        rewrite (pow2_Z 53) by lia. now rewrite <- Zle_Qle. }
      assert (Hlog : (e + 53 <= ilog2 x)%Z) by (unfold expo in Hgt; lia).
      assert (Hlo : pow2 (e + 53) <= x).
      { apply Qle_trans with (pow2 (ilog2 x)); [now apply pow2_le|].
        apply (ilog2_spec x Hx). }
      assert (Hlog' : (ilog2 x <= e + 53)%Z).
      { assert (ilog2 x < e + 53 + 1)%Z; [|lia].
        apply ilog2_lt; [exact Hx|].
        apply Qle_lt_trans with (pow2 (e + 53)); [exact Hhi|].
        apply pow2_lt. lia. }
      assert (Hexp : expo x = (e + 1)%Z) by (unfold expo in *; lia).
      rewrite Hexp, <- (pow2_Z 52) by lia.
      apply Qle_antisym.
      + apply Qle_shift_div_r; [apply pow2_pos|].
        rewrite <- pow2_add. replace (52 + (e + 1))%Z with (e + 53)%Z by lia.
        exact Hhi.
      + apply Qle_shift_div_l; [apply pow2_pos|].
        rewrite <- pow2_add. replace (52 + (e + 1))%Z with (e + 53)%Z by lia.
        exact Hlo. }
  destruct Hint as [k Hk]. unfold roundPos.
  rewrite (rne_Z _ k Hk), <- Hk. field.
  intro H0. pose proof (pow2_pos (expo x)). lra.
Qed.

Lemma grid_fl (x : Q) : onGrid x -> fl x == x.
Proof.
  intros [m [e [Hm [He Hx]]]].
  destruct (Qcompare_spec x 0) as [H0|H0|H0].
  - rewrite (fl_zero x H0). lra.
  - rewrite (fl_neg x H0).
    rewrite (grid_roundPos (- x) (- m) e); [ring|lra|lia|exact He|].
    rewrite inject_Z_opp, Hx. ring.
  - rewrite (fl_pos x H0).
    apply (grid_roundPos x m e); [exact H0|lia|exact He|exact Hx].
Qed.

Lemma isDouble_onGrid (x : Q) : isDouble x = true <-> onGrid x.
Proof.
  unfold isDouble. rewrite Qeq_bool_iff. split.
  - intro H. destruct (fl_onGrid x) as [m [e [Hm [He Hx]]]].
    exists m, e. split; [|split]; [exact Hm|exact He|]. now rewrite <- H.
  - apply grid_fl.
Qed.

Lemma pow2_onGrid (k : Z) : (-1074 <= k)%Z -> onGrid (pow2 k).
Proof.
  intro H. exists 1%Z, k. split; [|split]; [cbn; lia|exact H|ring].
Qed.

(** A positive number of the grid is at least the smallest subnormal. *)
Lemma grid_min (x : Q) : onGrid x -> 0 < x -> pow2 (-1074) <= x.
Proof.
  intros [m [e [Hm [He Hx]]]] Hpos.
  assert (Hm1 : (1 <= m)%Z).
  { destruct (Z.le_gt_cases 1 m) as [|Hlt]; [assumption|exfalso].
    assert (inject_Z m <= 0)
      by (change 0 with (inject_Z 0); rewrite <- Zle_Qle; lia).
    pose proof (pow2_pos e). nra. }
  apply Qle_trans with (pow2 e); [now apply pow2_le|].
  rewrite Hx. rewrite <- (Qmult_1_l (pow2 e)) at 1.
  apply Qmult_le_r; [apply pow2_pos|].
  change 1 with (inject_Z 1). now rewrite <- Zle_Qle.
Qed.

(** Rounding loses less than half of what it rounds. *)
Lemma fl_lower (x : Q) : pow2 (-1074) <= x -> x < 2 * fl x.
Proof.
  intro H. assert (Hx : 0 < x) by (pose proof (pow2_pos (-1074)); lra).
  assert (Hk : (-1074 <= ilog2 x)%Z) by now apply ilog2_ge.
  pose proof (ilog2_spec x Hx) as [Hlo Hhi].
  pose proof (fl_le _ _ Hlo) as Hfl.
  rewrite (grid_fl _ (pow2_onGrid _ Hk)) in Hfl.
  rewrite pow2_succ in Hhi. lra.
Qed.

(** The difference of two numbers of the grid is a number of the grid when
    it is no larger than the one of them with the finer spacing. *)
Lemma grid_sub_aux (ma ea mb eb : Z) (a b : Q) :
  (ea <= eb)%Z -> (-1074 <= ea)%Z ->
  a == inject_Z ma * pow2 ea -> b == inject_Z mb * pow2 eb ->
  (Z.abs ma <= 2 ^ 53)%Z ->
  - Qabs a <= a - b <= Qabs a ->
  onGrid (a - b).
Proof.
  intros Hle He Ha Hb Hma Hbound.
  assert (Hb' : b == inject_Z (mb * 2 ^ (eb - ea)) * pow2 ea).
  { rewrite Hb, inject_Z_mult, <- (pow2_Z (eb - ea)) by lia.
    replace eb with (eb - ea + ea)%Z at 1 by lia. rewrite pow2_add. ring. }
  set (M := (ma - mb * 2 ^ (eb - ea))%Z).
  assert (HM : a - b == inject_Z M * pow2 ea).
  { unfold M. rewrite Ha, Hb'. unfold Z.sub.
    rewrite inject_Z_plus, inject_Z_opp. ring. }
  exists M, ea. split; [|split]; [|exact He|exact HM].
  assert (Habs : Qabs a == inject_Z (Z.abs ma) * pow2 ea).
  { rewrite Ha, Qabs_Qmult, (Qabs_pos (pow2 ea)).
    - apply Qmult_comp; [|reflexivity].
      unfold Qabs, inject_Z. reflexivity.
    - apply Qlt_le_weak, pow2_pos. }
  rewrite HM, Habs in Hbound. destruct Hbound as [H1 H2].
  assert (H1' : inject_Z (- Z.abs ma) * pow2 ea <= inject_Z M * pow2 ea)
    by (rewrite inject_Z_opp; lra).
  apply Qmult_le_r in H1'; [|apply pow2_pos].
  apply Qmult_le_r in H2; [|apply pow2_pos].
  rewrite <- Zle_Qle in H1', H2. lia.
Qed.

(** Sterbenz: the difference of two positive doubles within a factor two
    of each other is a double. *)
Lemma grid_sub (a b : Q) :
  onGrid a -> onGrid b -> 0 < a -> 0 < b -> a <= 2 * b -> b <= 2 * a ->
  onGrid (a - b).
Proof.
  intros [ma [ea [Hma [Hea Ha]]]] [mb [eb [Hmb [Heb Hb]]]] Hapos Hbpos H1 H2.
  destruct (Z.le_gt_cases ea eb) as [Hle|Hgt].
  - apply (grid_sub_aux ma ea mb eb a b Hle Hea Ha Hb Hma).
    rewrite (Qabs_pos a) by lra. lra.
  - assert (Hneg : onGrid (b - a)).
    { apply (grid_sub_aux mb eb ma ea b a ltac:(lia) Heb Hb Ha Hmb).
      rewrite (Qabs_pos b) by lra. lra. }
    destruct Hneg as [M [E [HM [HE Hba]]]].
    exists (- M)%Z, E. split; [|split]; [lia|exact HE|].
    rewrite inject_Z_opp.
    assert (Hab : a - b == - (b - a)) by ring. rewrite Hab, Hba. ring.
Qed.


(** ** The relative move of a price, as the machine computes it *)

Lemma rounded_rise (p n : Q) :
  onGrid p -> onGrid n -> 0 < p -> 0 < n ->
  p * (101 # 100) <= n -> 1 # 100 <= fl (fl (n - p) / p).
Proof.
  intros Gp Gn Hp Hn H.
  destruct (Qlt_le_dec (2 * p) n) as [Hfar|Hnear].
  - assert (H1 : p <= fl (n - p)).
    { rewrite <- (grid_fl p Gp) at 1. apply fl_le. lra. }
    assert (H2 : 1 <= fl (n - p) / p)
      by (apply Qle_shift_div_l; [exact Hp|lra]).
    apply fl_le in H2.
    assert (H3 : fl 1 == 1) by (apply Qeq_bool_iff; vm_compute; reflexivity).
    lra.
  - assert (Gd : onGrid (n - p)) by (apply grid_sub; auto; lra).
    assert (H2 : 1 # 100 <= fl (n - p) / p).
    { apply Qle_shift_div_l; [exact Hp|]. rewrite (grid_fl _ Gd). lra. }
    apply fl_le in H2.
    assert (H3 : 1 # 100 <= fl (1 # 100))
      by (apply Qle_bool_iff; vm_compute; reflexivity).
    lra.
Qed.

Lemma rounded_drop (p n : Q) :
  onGrid p -> onGrid n -> 0 < p -> 0 < n ->
  n <= p * (99 # 100) -> fl (fl (n - p) / p) <= - (1 # 100).
Proof.
  intros Gp Gn Hp Hn H.
  destruct (Qlt_le_dec (2 * n) p) as [Hfar|Hnear].
  - pose proof (grid_min n Gn Hn) as Hmin.
    assert (Hlow : p - n < 2 * fl (p - n)) by (apply fl_lower; lra).
    assert (Hopp : fl (n - p) == - fl (p - n)).
    { rewrite <- fl_opp. apply fl_proper. ring. }
    assert (H2 : fl (n - p) / p <= - (1 # 4)).
    { apply Qle_shift_div_r; [exact Hp|]. rewrite Hopp. lra. }
    apply fl_le in H2.
    assert (H3 : fl (- (1 # 4)) == - (1 # 4))
      by (apply Qeq_bool_iff; vm_compute; reflexivity).
    lra.
  - assert (Gd : onGrid (n - p)) by (apply grid_sub; auto; lra).
    assert (H2 : fl (n - p) / p <= - (1 # 100)).
    { apply Qle_shift_div_r; [exact Hp|]. rewrite (grid_fl _ Gd). lra. }
    apply fl_le in H2.
    assert (H3 : fl (- (1 # 100)) <= - (1 # 100))
      by (apply Qle_bool_iff; vm_compute; reflexivity).
    lra.
Qed.

End Float64Facts.

(** ** The short-window classifier and the reducer's use of it *)

Module TrackerSpec.
Import Js JsFacts JupiterClient Classifier WaifuTracker ClientSpec TrackerRun.
Local Open Scope Q_scope.

Ltac bounds :=
  repeat match goal with
         | H : ge _ _ = true |- _ => apply ge_spec in H
         | H : ge _ _ = false |- _ =>
             apply not_true_iff_false in H; rewrite ge_spec in H;
             apply Qnot_le_lt in H
         | H : le _ _ = true |- _ => unfold le in H; apply ge_spec in H
         | H : le _ _ = false |- _ =>
             unfold le in H; apply not_true_iff_false in H;
             rewrite ge_spec in H; apply Qnot_le_lt in H
         end.

(** X12: the short-window classifier overrides with "excited" from +1%,
    "happy" from +0.3% up to (not including) +1%, "angry" down from -1%,
    "sad" from above -1% down to -0.3%, and gives no override strictly
    between -0.3% and +0.3%; every bound named is included in its band.  It
    never answers "neutral" or "worried". *)
Theorem getEmotionFromShortMove_bands (diffRatio : number) :
  (getEmotionFromShortMove diffRatio = Some excited <-> 1 # 100 <= diffRatio)
  /\ (getEmotionFromShortMove diffRatio = Some happy
      <-> 3 # 1000 <= diffRatio < 1 # 100)
  /\ (getEmotionFromShortMove diffRatio = Some angry
      <-> diffRatio <= - (1 # 100))
  /\ (getEmotionFromShortMove diffRatio = Some sad
      <-> - (1 # 100) < diffRatio <= - (3 # 1000))
  /\ (getEmotionFromShortMove diffRatio = None
      <-> - (3 # 1000) < diffRatio < 3 # 1000)
  /\ getEmotionFromShortMove diffRatio <> Some neutral
  /\ getEmotionFromShortMove diffRatio <> Some worried.
Proof.
  unfold getEmotionFromShortMove.
  destruct (ge diffRatio (1 # 100)) eqn:H1;
    [|destruct (ge diffRatio (3 # 1000)) eqn:H2;
      [|destruct (le diffRatio (- (1 # 100))) eqn:H3;
        [|destruct (le diffRatio (- (3 # 1000))) eqn:H4]]];
    bounds;
    repeat split; intros; try discriminate; try reflexivity; lra.
Qed.

Lemma rise_is_excited (r : number) :
  1 # 100 <= r -> getEmotionFromShortMove r = Some excited.
Proof.
  intro H. unfold getEmotionFromShortMove.
  destruct (ge r (1 # 100)) eqn:E; [reflexivity|]. bounds. lra.
Qed.

Lemma drop_is_angry (r : number) :
  r <= - (1 # 100) -> getEmotionFromShortMove r = Some angry.
Proof.
  intro H. unfold getEmotionFromShortMove.
  destruct (ge r (1 # 100)) eqn:E1; [bounds; lra|].
  destruct (ge r (3 # 1000)) eqn:E2; [bounds; lra|].
  destruct (le r (- (1 # 100))) eqn:E3; [reflexivity|]. bounds. lra.
Qed.

(** The state after an accepted update that finds a previous state *)
Lemma accepted_merge (now : Z) (prev upd : TokenData) (s : State) :
  tokenData s = Some prev ->
  (UPDATE_THROTTLE_MS <= now - lastUpdate s)%Z ->
  handleRealtimeUpdate now upd s =
  mergeUpdate now prev upd
    {| tokenData := tokenData s; emotion := emotion s;
       chartData := chartData s; updateCount := (updateCount s + 1)%Z;
       lastUpdate := now; refs := refs s; generated := generated s |}.
Proof.
  intros Hprev Hacc. unfold handleRealtimeUpdate.
  destruct (Z.ltb_spec (now - lastUpdate s) UPDATE_THROTTLE_MS); [lia|].
  cbn [tokenData]. now rewrite Hprev.
Qed.

Lemma merged_price (prev upd : TokenData) (n : number) :
  price upd = Some n ->
  price (recomputeMarketCap (merge prev upd)) = Some n.
Proof.
  intro H. unfold recomputeMarketCap.
  destruct (gt_opt (price (merge prev upd)) 0
            && gt_opt (supply (merge prev upd)) 0)%bool;
    cbn; now rewrite H.
Qed.

Lemma emotion_of_mergeUpdate (now : Z) (prev upd : TokenData) (s : State)
  (e : Emotion) :
  getEmotionFromShortMove
    (shortMove prev (recomputeMarketCap (merge prev upd))) = Some e ->
  emotion (mergeUpdate now prev upd s) = e.
Proof.
  intro H. unfold mergeUpdate. rewrite H.
  destruct (if shouldTriggerMessage _ _ then _ else _) as [refs' out].
  reflexivity.
Qed.

(** X13: the short-window move takes precedence over the 24h figure.  When
    an accepted update moves a positive price up by 1% or more the emotion
    becomes "excited", and when it moves it down by 1% or more the emotion
    becomes "angry", whatever 24h change the update or the state carries.
    The two prices are doubles and the move is measured on their exact
    values; the subtraction and the division of the code round to the
    nearest double, which does not change the verdict. *)
Theorem short_move_overrides_24h_change
  (now : Z) (prev upd : TokenData) (s : State) (p n : number) :
  tokenData s = Some prev ->
  (UPDATE_THROTTLE_MS <= now - lastUpdate s)%Z ->
  price prev = Some p -> price upd = Some n -> 0 < p -> 0 < n ->
  Float64.isDouble p = true -> Float64.isDouble n = true ->
  (p * (101 # 100) <= n ->
   emotion (handleRealtimeUpdate now upd s) = excited)
  /\ (n <= p * (99 # 100) ->
      emotion (handleRealtimeUpdate now upd s) = angry).
Proof.
  intros Hprev Hacc Hp Hn Hppos Hnpos Dp Dn.
  apply Float64Facts.isDouble_onGrid in Dp, Dn.
  rewrite (accepted_merge now prev upd s Hprev Hacc).
  assert (Hmove : shortMove prev (recomputeMarketCap (merge prev upd))
                  = Float64.fl (Float64.fl (n - p) / p)).
  { unfold shortMove. rewrite (merged_price prev upd n Hn), Hp.
    cbn [gt_opt num_or0 parseFloat_or0].
    apply gt_spec in Hppos. apply gt_spec in Hnpos.
    now rewrite Hppos, Hnpos. }
  split; intro H; apply emotion_of_mergeUpdate; rewrite Hmove.
  - apply rise_is_excited. now apply Float64Facts.rounded_rise.
  - apply drop_is_angry. now apply Float64Facts.rounded_drop.
Qed.

Lemma short_move_overrides_24h_change_witness :
  emotion (handleRealtimeUpdate 1700000000000
             {| address := None; supply := None; decimals := None;
                price := Some 3; marketCap := None;
                change24h := Some (-40); volume24h := None; name := None;
                symbol := None; logoURI := None; lastUpdated := None;
                timestamp := None |} tracking) = excited.
Proof.
  match goal with |- emotion (handleRealtimeUpdate _ ?u _) = _ =>
    refine (proj1 (short_move_overrides_24h_change 1700000000000 fetchedToken
                     u tracking 2 3 eq_refl _ eq_refl eq_refl _ _ _ _) _)
  end; vm_compute; try reflexivity; discriminate.
Defined.

(** Next to the threshold the roundings decide.  The double nearest to
    3.03 lies below 3.03, and from 3 to it the move computed is below 1%:
    the emotion is "happy".  One double further up the move is 1% or more
    and the emotion is "excited". *)
Example move_next_to_the_threshold :
  let price303 := 6822953435466301 # 2251799813685248 in
  let next303 := 3411476717733151 # 1125899906842624 in
  let upd := fun q =>
    {| address := None; supply := None; decimals := None;
       price := Some q; marketCap := None; change24h := Some 0;
       volume24h := None; name := None; symbol := None; logoURI := None;
       lastUpdated := None; timestamp := None |} in
  let at3 :=
    {| tokenData := Some (upd 3); emotion := neutral; chartData := [];
       updateCount := 0; lastUpdate := 0; refs := Scheduler.init;
       generated := [] |} in
  Float64.isDouble price303 = true
  /\ Float64.isDouble next303 = true
  /\ emotion (handleRealtimeUpdate 1700000000000 (upd price303) at3) = happy
  /\ emotion (handleRealtimeUpdate 1700000000000 (upd next303) at3)
     = excited.
Proof. vm_compute. repeat split. Qed.

Lemma small_delta_below (c x : number) :
  0 < c -> x == 0 -> ge (abs x) c = false.
Proof.
  intros Hc Hx. destruct (ge (abs x) c) eqn:E; [|reflexivity].
  apply ge_spec in E. unfold abs in E. rewrite Hx in E.
  change (Qabs 0) with 0 in E. lra.
Qed.

(** X14: an accepted update after which the price and the 24h change are
    what they were before (the price being positive) does not reach the
    message scheduler: no message is generated and no timer is armed. *)
Theorem unchanged_price_and_change_schedule_no_message
  (now : Z) (prev upd : TokenData) (s : State) (p n : number) :
  tokenData s = Some prev ->
  (UPDATE_THROTTLE_MS <= now - lastUpdate s)%Z ->
  price prev = Some p -> 0 < p ->
  price (merge prev upd) = Some n -> n == p ->
  num_or0 (change24h (merge prev upd)) == num_or0 (change24h prev) ->
  refs (handleRealtimeUpdate now upd s) = refs s
  /\ generated (handleRealtimeUpdate now upd s) = generated s.
Proof.
  intros Hprev Hacc Hp Hppos Hn Hnp Hchange.
  rewrite (accepted_merge now prev upd s Hprev Hacc).
  assert (Hquiet : shouldTriggerMessage (Some prev)
                     (recomputeMarketCap (merge prev upd)) = false).
  { assert (Hprice : price (recomputeMarketCap (merge prev upd)) = Some n).
    { unfold recomputeMarketCap.
      destruct (gt_opt _ 0 && gt_opt _ 0)%bool; exact Hn. }
    assert (Hch : change24h (recomputeMarketCap (merge prev upd))
                  = change24h (merge prev upd)).
    { unfold recomputeMarketCap.
      destruct (gt_opt _ 0 && gt_opt _ 0)%bool; reflexivity. }
    unfold shouldTriggerMessage. rewrite Hprice, Hch, Hp.
    cbn [le_opt].
    assert (Hp0 : le p 0 = false).
    { destruct (le p 0) eqn:E; [|reflexivity]. bounds. lra. }
    assert (Hn0 : le n 0 = false).
    { destruct (le n 0) eqn:E; [|reflexivity]. bounds. lra. }
    rewrite Hp0, Hn0. cbn [orb].
    rewrite (small_delta_below (5 # 10000) ((n - p) / p));
      [|lra|unfold Qdiv; rewrite Hnp; ring].
    rewrite (small_delta_below (5 # 100)); [reflexivity|lra|].
    rewrite Hchange. ring. }
  unfold mergeUpdate. rewrite Hquiet. cbn [refs generated map].
  split; [reflexivity|apply app_nil_r].
Qed.

Lemma unchanged_price_and_change_schedule_no_message_witness :
  generated (handleRealtimeUpdate 1700000000000
               (partialUpdate 2 1700000000000) tracking) = [].
Proof.
  refine (proj2 (unchanged_price_and_change_schedule_no_message
                   1700000000000 fetchedToken (partialUpdate 2 1700000000000)
                   tracking 2 2 eq_refl _ eq_refl _ eq_refl _ _));
    vm_compute; try reflexivity; discriminate.
Defined.

Lemma slice_last_length {A : Type} (n : nat) (l : list A) :
  (List.length (JsArray.slice_last n l) <= n)%nat.
Proof. unfold JsArray.slice_last. rewrite length_skipn. lia. Qed.

Lemma handle_chart_bound (now : Z) (u : TokenData) (s : State) :
  (List.length (chartData s) <= 50)%nat ->
  (List.length (chartData (handleRealtimeUpdate now u s)) <= 50)%nat.
Proof.
  intro H. unfold handleRealtimeUpdate.
  destruct (now - lastUpdate s <? UPDATE_THROTTLE_MS)%Z; [exact H|].
  cbn [tokenData]. destruct (tokenData s) as [prev|].
  - unfold mergeUpdate.
    destruct (if shouldTriggerMessage _ _ then _ else _) as [refs' out].
    cbn [chartData].
    destruct (gt_opt _ 0); [|exact H].
    rewrite length_app. cbn [List.length].
    pose proof (slice_last_length 49 (chartData s)). lia.
  - unfold firstUpdate. destruct (_ && _)%bool; exact H.
Qed.

(** X15: the rolling chart buffer never grows beyond 50 points, whatever
    stream updates the component handles. *)
Theorem chart_buffer_holds_at_most_50_points
  (us : list (Z * TokenData)) (s : State) :
  (List.length (chartData s) <= 50)%nat ->
  (List.length (chartData (updates us s)) <= 50)%nat.
Proof.
  revert s. unfold updates.
  induction us as [|[now u] us IH]; intros s H; simpl; [exact H|].
  apply IH. now apply handle_chart_bound.
Qed.

Lemma chart_buffer_holds_at_most_50_points_witness :
  (List.length
     (chartData
        (updates (map (fun i => (1700000000000 + 1000 * Z.of_nat i,
                                 partialUpdate (3 + inject_Z (Z.of_nat i))
                                   (1000 * Z.of_nat i))%Z)
                      (List.seq 0 60)) tracking)) <= 50)%nat.
Proof.
  apply chart_buffer_holds_at_most_50_points. vm_compute. lia.
Defined.

Example chart_buffer_fills_up :
  List.length
    (chartData
       (updates (map (fun i => (1700000000000 + 1000 * Z.of_nat i,
                                partialUpdate (3 + inject_Z (Z.of_nat i))
                                  (1000 * Z.of_nat i))%Z)
                     (List.seq 0 60)) tracking)) = 50%nat.
Proof. vm_compute. reflexivity. Qed.

(** X16: a stream update whose price did not come from DexScreener carries
    supply 0 and market cap 0, and the reducer merges them as they are:
    after such an update is accepted the token state has supply 0 and market
    cap 0 (the recomputation needs a positive supply), with the new
    price. *)
Theorem update_without_dexscreener_zeroes_supply_and_market_cap
  (w : Upstream.World) (d : WsToken.Fetched) (tpoll now : Z)
  (prev : TokenData) (s : State) :
  WsToken.fetchTokenData w = WsToken.Return d ->
  AggregatorSpec.yields (AggregatorSpec.dexAdapter w) = false ->
  tokenData s = Some prev ->
  (UPDATE_THROTTLE_MS <= now - lastUpdate s)%Z ->
  exists m,
    tokenData (handleRealtimeUpdate now
                 (parseData (StreamSpec.snapshotOf d tpoll)) s) = Some m
    /\ supply m = Some 0 /\ marketCap m = Some 0
    /\ price m = Some (WsToken.price d).
Proof.
  intros Hfetch Hdex Hprev Hacc.
  destruct (AdapterAgreement.fetched_decimals_and_supply w d Hfetch)
    as [_ Hzero].
  destruct (Hzero Hdex) as [_ Hsnap].
  destruct (Hsnap tpoll) as [Hsupply Hcap].
  rewrite (accepted_merge now prev _ s Hprev Hacc).
  unfold mergeUpdate.
  destruct (if shouldTriggerMessage _ _ then _ else _) as [refs' out].
  cbn [tokenData]. eexists. split; [reflexivity|].
  unfold recomputeMarketCap, merge, parseData. cbn [price supply spread].
  rewrite Hsupply. cbn [gt_opt].
  replace (gt 0 0) with false by reflexivity. rewrite andb_false_r.
  cbn [supply marketCap price spread]. rewrite ?Hsupply, ?Hcap.
  repeat split.
Qed.

Lemma update_without_dexscreener_zeroes_supply_and_market_cap_witness :
  exists m,
    tokenData (handleRealtimeUpdate 1700000000000
                 (parseData
                    (StreamSpec.snapshotOf
                       {| WsToken.price := 2; WsToken.change24h := 1;
                          WsToken.volume24h := 50; WsToken.supply := 0;
                          WsToken.decimals := 9 |} 5000)) tracking) = Some m
    /\ supply m = Some 0 /\ marketCap m = Some 0 /\ price m = Some 2.
Proof.
  refine (update_without_dexscreener_zeroes_supply_and_market_cap
            (StreamSpec.jupiterQuotes 2 1 50) _ 5000 1700000000000
            fetchedToken tracking eq_refl eq_refl eq_refl _).
  vm_compute. discriminate.
Defined.

End TrackerSpec.

(** * The middleware *)

Module MiddlewareSpec.
Import Middleware.

Lemma prefix_split (pre s : string) :
  String.prefix pre s = true -> exists rest, s = (pre ++ rest)%string.
Proof.
  revert s. induction pre as [|c pre IH]; intros s H; simpl in *.
  - now exists s.
  - destruct s as [|d s]; [discriminate|]. simpl in H.
    destruct (Ascii.ascii_dec c d) as [->|]; [|discriminate].
    destruct (IH s H) as [rest ->]. now exists rest.
Qed.

Lemma lowercase_path_passes (rest q : string) :
  middleware {| pathname := ("/waifu" ++ rest)%string; search := q |} = next.
Proof. reflexivity. Qed.

(** X17: Whenever the middleware redirects, the request path is [/Waifu]
    followed by nothing or by a sub-path, the redirect is permanent (301),
    its target is [/waifu] followed by the same rest with the query string
    unchanged, and the middleware lets the target through: a redirect is
    never followed by a second one. *)
Theorem waifu_redirect_is_permanent_and_final (nextUrl : NextUrl) :
  middleware nextUrl = next
  \/ exists rest,
       pathname nextUrl = ("/Waifu" ++ rest)%string
       /\ middleware nextUrl
          = redirect {| pathname := ("/waifu" ++ rest)%string;
                        search := search nextUrl |} 301
       /\ middleware {| pathname := ("/waifu" ++ rest)%string;
                        search := search nextUrl |} = next.
Proof.
  destruct nextUrl as [p q]. unfold middleware. cbn [pathname search].
  destruct (String.eqb p "/Waifu") eqn:Heq; cbn [orb].
  - apply String.eqb_eq in Heq. subst p. right. exists EmptyString.
    repeat split.
  - destruct (startsWith p "/Waifu/") eqn:Hpre; [|now left].
    right. apply prefix_split in Hpre. destruct Hpre as [rest ->].
    exists ("/" ++ rest)%string. repeat split.
Qed.

End MiddlewareSpec.

(** * The chat list and the landing form *)

Module ChatListSpec.
Import Js Storage ChatList ChatRun.
Local Open Scope nat_scope.

Lemma substring_length (s : string) :
  forall n m, String.length (substring n m s) = Nat.min m (String.length s - n).
Proof.
  induction s as [|c s IH]; intros [|n] [|m]; simpl; try reflexivity.
  - now rewrite IH, Nat.sub_0_r.
  - apply IH.
  - apply IH.
Qed.

Lemma append_length (a b : string) :
  String.length (a ++ b) = String.length a + String.length b.
Proof. induction a as [|c a IH]; simpl; [reflexivity|now rewrite IH]. Qed.

Lemma substring_append_start (a b : string) :
  substring 0 (String.length a) (a ++ b) = a.
Proof.
  induction a as [|c a IH]; simpl.
  - now destruct b.
  - now rewrite IH.
Qed.

Lemma substring_append_skip (a b : string) (m : nat) :
  substring (String.length a) m (a ++ b) = substring 0 m b.
Proof. induction a as [|c a IH]; simpl; [reflexivity|exact IH]. Qed.

Lemma substring_all (s : string) : substring 0 (String.length s) s = s.
Proof. induction s as [|c s IH]; simpl; [reflexivity|now rewrite IH]. Qed.

(** X18: An abbreviated address is as long as the address or 13 characters
    long, whichever is less; an address of more than 12 characters is
    rendered as its first six characters, three dots and its last four. *)
Theorem truncateAddress_length_and_ends (a : string) :
  String.length (truncateAddress a) = Nat.min (String.length a) 13
  /\ ((String.length a <=? 12)%nat = false ->
      substring 0 6 (truncateAddress a) = substring 0 6 a
      /\ substring 6 3 (truncateAddress a) = "..."%string
      /\ substring 9 4 (truncateAddress a)
         = substring (String.length a - 4) 4 a).
Proof.
  unfold truncateAddress.
  destruct (String.length a <=? 12)%nat eqn:Hlen.
  - apply Nat.leb_le in Hlen. split; [lia|discriminate].
  - apply Nat.leb_gt in Hlen.
    assert (H6 : String.length (substring 0 6 a) = 6)
      by (rewrite substring_length; lia).
    assert (H4 : String.length (substring (String.length a - 4) 4 a) = 4)
      by (rewrite substring_length; lia).
    split; [|intros _; repeat split].
    + rewrite !append_length, H6, H4. simpl. lia.
    + rewrite <- H6 at 1. apply substring_append_start.
    + rewrite <- H6 at 1. rewrite substring_append_skip. simpl.
      now destruct (substring (String.length a - 4) 4 a).
    + change 9 with (6 + 3). rewrite <- H6 at 1.
      set (x := substring 0 6 a) in *.
      set (y := substring (String.length a - 4) 4 a) in *.
      replace (x ++ "..." ++ y)%string with ((x ++ "...") ++ y)%string.
      * replace (String.length x + 3) with (String.length (x ++ "..."))
          by (rewrite append_length; reflexivity).
        rewrite substring_append_skip. rewrite <- H4 at 1.
        apply substring_all.
      * clear. induction x as [|c x IH]; simpl; [reflexivity|now rewrite IH].
Qed.

Lemma truncateAddress_length_and_ends_witness :
  substring 0 6 (truncateAddress "So11111111111111111111111111111111111111112")
  = "So1111"%string.
Proof.
  exact (proj1 (proj2 (truncateAddress_length_and_ends
                         "So11111111111111111111111111111111111111112")
                  eq_refl)).
Defined.

(** ** Addresses stay distinct *)

Lemma touch_address (a : string) (now : Z) (c : ChatItem) :
  address (touch a now c) = address c.
Proof. unfold touch. now destruct (hasAddress a c). Qed.

Lemma map_touch_addresses (a : string) (now : Z) (l : list ChatItem) :
  map address (map (touch a now) l) = map address l.
Proof.
  rewrite map_map. apply map_ext. intros c. apply touch_address.
Qed.

Lemma absent_address (a : string) (l : list ChatItem) :
  existsb (hasAddress a) l = false -> ~ In a (map address l).
Proof.
  intros H Hin. apply in_map_iff in Hin. destruct Hin as [c [Hc Hin]].
  assert (existsb (hasAddress a) l = true); [|congruence].
  apply existsb_exists. exists c. split; [exact Hin|].
  unfold hasAddress. now apply String.eqb_eq.
Qed.

Lemma distinct_snoc (a : string) (n : option string) (t : option Z)
  (l : list ChatItem) :
  distinct l -> existsb (hasAddress a) l = false ->
  distinct (l ++ [{| address := a; name := n; lastViewed := t |}]).
Proof.
  intros Hd Habs. unfold distinct in *. rewrite map_app. simpl.
  apply absent_address in Habs.
  apply (Permutation_NoDup (l := a :: map address l)).
  - apply Permutation_cons_append.
  - now constructor.
Qed.

Lemma distinct_touch (a : string) (now : Z) (l : list ChatItem) :
  distinct l -> distinct (map (touch a now) l).
Proof. unfold distinct. now rewrite map_touch_addresses. Qed.

Lemma distinct_sort (before : ChatItem -> ChatItem -> bool)
  (l : list ChatItem) :
  distinct l -> distinct (JsArray.sort before l).
Proof.
  unfold distinct. intros H.
  apply (Permutation_NoDup (l := map address l)); [|exact H].
  apply Permutation_map, Permutation_sym, SortFacts.sort_perm.
Qed.

Lemma distinct_filter (p : ChatItem -> bool) (l : list ChatItem) :
  distinct l -> distinct (filter p l).
Proof.
  unfold distinct. induction l as [|c l IH]; simpl; intros H; [exact H|].
  inversion H as [|x xs Hnot Hnd]; subst.
  destruct (p c); simpl.
  - constructor; [|now apply IH].
    intros Hin. apply Hnot. apply in_map_iff in Hin.
    destruct Hin as [d [Hd Hin]]. apply filter_In in Hin.
    apply in_map_iff. exists d. tauto.
  - now apply IH.
Qed.

Lemma distinct_one (a : string) (n : option string) (t : option Z) :
  distinct [{| address := a; name := n; lastViewed := t |}].
Proof. unfold distinct. simpl. constructor; [intros []|constructor]. Qed.

Lemma loadChats_distinct (now : Z) (ls : LocalStorage) (s : State) :
  storedDistinct ls -> distinct (chats s) ->
  storedDistinct (fst (loadChats now ls s))
  /\ distinct (chats (snd (loadChats now ls s))).
Proof.
  intros Hs Hc. unfold loadChats, migrate.
  destruct (savedChats ls) as [[parsed|]|] eqn:Hsaved.
  - simpl. split; [exact Hs|].
    unfold storedDistinct in Hs. now rewrite Hsaved in Hs.
  - destruct (tokenCA ls) as [oldCA|]; [destruct (truthy_str (Some oldCA))|];
      simpl; split; trivial; apply distinct_one.
  - destruct (tokenCA ls) as [oldCA|]; [destruct (truthy_str (Some oldCA))|];
      simpl; split; trivial; apply distinct_one.
Qed.

Lemma handleAddChat_distinct (trim : string -> string) (now : Z)
  (ls : LocalStorage) (s : State) :
  storedDistinct ls -> distinct (chats s) ->
  storedDistinct (fst (handleAddChat trim now ls s))
  /\ distinct (chats (snd (handleAddChat trim now ls s))).
Proof.
  intros Hs Hc. unfold handleAddChat.
  destruct (truthy_str (Some (trim (newAddress s)))); cbn [andb];
    [|now split].
  destruct (existsb (hasAddress (trim (newAddress s))) (chats s)) eqn:Hex;
    cbn [negb]; [now split|].
  simpl. split; now apply distinct_snoc.
Qed.

Lemma handleOpenChat_distinct (enc : string -> string) (a : string) (now : Z)
  (ls : LocalStorage) (s : State) :
  distinct (chats s) ->
  storedDistinct (fst (fst (handleOpenChat enc a now ls s)))
  /\ distinct (chats (snd (fst (handleOpenChat enc a now ls s)))).
Proof.
  intros Hc. simpl. split; now apply distinct_sort, distinct_touch.
Qed.

Lemma handleDeleteChat_distinct (a : string) (ls : LocalStorage) (s : State) :
  distinct (chats s) ->
  storedDistinct (fst (handleDeleteChat a ls s))
  /\ distinct (chats (snd (handleDeleteChat a ls s))).
Proof. intros Hc. simpl. split; now apply distinct_filter. Qed.

Lemma handleSubmit_distinct (trim enc : string -> string) (ca : string)
  (now : Z) (ls : LocalStorage) :
  storedDistinct ls ->
  storedDistinct (fst (HomeHero.handleSubmit trim enc ca now ls)).
Proof.
  intros Hs. unfold HomeHero.handleSubmit.
  destruct (truthy_str (Some (trim ca))); [|exact Hs].
  unfold storedDistinct in *. cbn [fst savedChats].
  assert (Hl : distinct match savedChats ls with
                        | Some (chatsJson parsed) => parsed
                        | _ => []
                        end).
  { destruct (savedChats ls) as [[parsed|]|]; trivial; constructor. }
  destruct (savedChats ls) as [[parsed|]|];
    match goal with
    | |- context [existsb ?p ?l] => destruct (existsb p l) eqn:Hex
    end; cbn [negb];
    try (now apply distinct_touch); now apply distinct_snoc.
Qed.

Lemma handle_distinct (trim enc : string -> string) (x : Action)
  (st : LocalStorage * State) :
  storedDistinct (fst st) -> distinct (chats (snd st)) ->
  storedDistinct (fst (handle trim enc x st))
  /\ distinct (chats (snd (handle trim enc x st))).
Proof.
  destruct st as [ls s]. cbn [fst snd]. intros Hs Hc.
  destruct x as [now|text| | |now|a now|a|ca now]; cbn [handle].
  - apply loadChats_distinct; [exact Hs|constructor].
  - now split.
  - now split.
  - now split.
  - now apply handleAddChat_distinct.
  - now apply handleOpenChat_distinct.
  - now apply handleDeleteChat_distinct.
  - split; [now apply handleSubmit_distinct|exact Hc].
Qed.

Lemma act_distinct (trim enc : string -> string) (x : Action)
  (st : LocalStorage * State) :
  storedDistinct (fst st) -> distinct (chats (snd st)) ->
  storedDistinct (fst (act trim enc x st))
  /\ distinct (chats (snd (act trim enc x st))).
Proof.
  intros Hs Hc.
  destruct (handle_distinct trim enc x st Hs Hc) as [Hs' Hc'].
  unfold act.
  destruct x; cbn [fst snd render setChats chats];
    (split; [exact Hs'|]); try exact Hc'; now apply distinct_sort.
Qed.

(** X19: Whatever the user does in the chat list and in the landing form,
    in any order, no address is listed twice: neither in the list on screen
    nor in the list kept in [localStorage], provided they started that way
    (as they do in a fresh browser). *)
Theorem chat_addresses_stay_distinct (trim enc : string -> string)
  (xs : list Action) (st : LocalStorage * State) :
  storedDistinct (fst st) -> distinct (chats (snd st)) ->
  storedDistinct (fst (run trim enc xs st))
  /\ distinct (chats (snd (run trim enc xs st))).
Proof.
  revert st. induction xs as [|x xs IH]; intros st Hs Hc; [now split|].
  simpl. destruct (act_distinct trim enc x st Hs Hc) as [Hs' Hc'].
  now apply IH.
Qed.

Lemma chat_addresses_stay_distinct_witness :
  let xs := [Typed " So11 "; Add 10%Z; Typed "So12"; Add 20%Z;
             Submit "So11" 30%Z; Mount 40%Z; Open "So12" 50%Z;
             Delete "So11"; Typed "So12"; Add 60%Z] in
  storedDistinct (fst (run (fun s => s) (fun s => s) xs freshBrowser))
  /\ distinct (chats (snd (run (fun s => s) (fun s => s) xs freshBrowser))).
Proof.
  intros xs.
  apply (chat_addresses_stay_distinct (fun s => s) (fun s => s) xs
           freshBrowser).
  - simpl. exact I.
  - simpl. constructor.
Defined.

(** ** Deleting, reloading, opening *)

(** X20: After a chat is deleted and the list is loaded again, the deleted
    address is not listed, every other chat still is, and the legacy key is
    as it was: the migration from [tokenCA] cannot bring the chat back. *)
Theorem deleted_chat_does_not_come_back (a : string) (now : Z)
  (ls : LocalStorage) (s : State) :
  let st1 := handleDeleteChat a ls s in
  let st2 := loadChats now (fst st1) mounted in
  ~ In a (map address (chats (snd st2)))
  /\ (forall c, In c (chats s) -> address c <> a -> In c (chats (snd st2)))
  /\ chats (snd st2) = chats (snd st1)
  /\ tokenCA (fst st2) = tokenCA ls.
Proof.
  simpl. repeat split.
  - intros Hin. apply in_map_iff in Hin. destruct Hin as [c [Hc Hin]].
    apply filter_In in Hin. destruct Hin as [_ Hneg].
    unfold hasAddress in Hneg. rewrite Hc, String.eqb_refl in Hneg.
    discriminate.
  - intros c Hin Hne. apply filter_In. split; [exact Hin|].
    unfold hasAddress. apply Bool.negb_true_iff. now apply String.eqb_neq.
Qed.

(** X21: loading the chat list twice is the same as loading it once,
    whatever the clock reads: the same storage and the same list on screen.
    After a load the list on screen is the stored list in the order of the
    rendering (most recently viewed first, chats viewed at the same time in
    their stored order), or nothing is shown and no legacy address is left
    to migrate. *)
Theorem reloading_the_chat_list_changes_nothing (now now' : Z)
  (ls : LocalStorage) :
  let st1 := loadChats now ls mounted in
  let st2 := loadChats now' (fst st1) mounted in
  fst st2 = fst st1
  /\ render (snd st2) = render (snd st1)
  /\ ((exists stored,
         savedChats (fst st1) = Some (chatsJson stored)
         /\ chats (render (snd st1)) = JsArray.sort viewedLater stored)
      \/ (chats (render (snd st1)) = []
          /\ truthy_str (tokenCA (fst st1)) = false)).
Proof.
  destruct ls as [[[parsed|]|] [[|c oldCA]|]]; cbn;
    (split; [reflexivity|]); (split; [reflexivity|]);
    first [now right | left; eexists; split; reflexivity].
Qed.

(** The stored order and the order on screen differ when a chat stored
    later was viewed later. *)
Example rendered_order_is_not_the_stored_order :
  let ls := {| savedChats :=
                 Some (chatsJson
                         [{| address := "So11"; name := None;
                             lastViewed := Some 10%Z |};
                          {| address := "So12"; name := None;
                             lastViewed := Some 20%Z |}]);
               tokenCA := None |} in
  map address (chats (snd (loadChats 30%Z ls mounted)))
  = ["So11"; "So12"]%string
  /\ map address (chats (render (snd (loadChats 30%Z ls mounted))))
     = ["So12"; "So11"]%string.
Proof. split; reflexivity. Qed.

Lemma viewedLater_asym (x y : ChatItem) :
  viewedLater x y = true -> viewedLater y x = false.
Proof. unfold viewedLater. intros H. apply Z.ltb_lt in H. apply Z.ltb_ge. lia. Qed.

Lemma viewedLater_negtrans (x y z : ChatItem) :
  viewedLater y x = false -> viewedLater z y = false ->
  viewedLater z x = false.
Proof.
  unfold viewedLater. intros H1 H2.
  apply Z.ltb_ge in H1, H2. apply Z.ltb_ge. lia.
Qed.

(** The chat the stable sort puts first was viewed no earlier than any
    other. *)
Lemma sorted_head_latest (l : list ChatItem) (h : ChatItem)
  (rest : list ChatItem) :
  JsArray.sort viewedLater l = h :: rest ->
  forall c, In c l -> (viewed c <= viewed h)%Z.
Proof.
  intros Hsort c Hin.
  pose proof (SortFacts.sort_sorted viewedLater_asym viewedLater_negtrans l)
    as Hsorted.
  rewrite Hsort in Hsorted.
  apply (Permutation_in _ (Permutation_sym (SortFacts.sort_perm viewedLater l)))
    in Hin.
  rewrite Hsort in Hin.
  inversion Hsorted as [|x xs _ Hall]; subst.
  destruct Hin as [<-|Hin]; [lia|].
  rewrite Forall_forall in Hall. specialize (Hall c Hin).
  unfold JsArray.inOrder, viewedLater in Hall. apply Z.ltb_ge in Hall. lia.
Qed.

(** X22: Opening a listed chat at a time later than every recorded view
    puts that chat first, stamped with the time of the click and with its
    name kept; the new order is stored; and the link followed, [/Waifu?ca=..],
    is redirected by the middleware to [/waifu] with the same query. *)
Theorem opened_chat_moves_to_front (enc : string -> string) (a : string)
  (now : Z) (ls : LocalStorage) (s : State) :
  In a (map address (chats s)) ->
  (forall c, In c (chats s) -> (viewed c < now)%Z) ->
  let r := handleOpenChat enc a now ls s in
  (exists c rest,
      In c (chats s) /\ address c = a
      /\ chats (snd (fst r))
         = {| address := a; name := name c; lastViewed := Some now |} :: rest)
  /\ savedChats (fst (fst r)) = Some (chatsJson (chats (snd (fst r))))
  /\ Middleware.middleware (snd r)
     = Middleware.redirect
         {| Middleware.pathname := "/waifu";
            Middleware.search := ("?ca=" ++ enc a)%string |} 301.
Proof.
  intros Hin Hclock r. subst r. cbn [handleOpenChat saveChats fst snd chats
    savedChats setChats].
  split; [|split; reflexivity].
  set (l := map (touch a now) (chats s)).
  apply in_map_iff in Hin. destruct Hin as [c0 [Hc0 Hin0]].
  assert (Htouched : In {| address := a; name := name c0;
                           lastViewed := Some now |} l).
  { apply in_map_iff. exists c0. split; [|exact Hin0].
    unfold touch, hasAddress. rewrite Hc0, String.eqb_refl.
    reflexivity. }
  destruct (JsArray.sort viewedLater l) as [|h rest] eqn:Hsort.
  - apply (Permutation_in _
             (Permutation_sym (SortFacts.sort_perm viewedLater l)))
      in Htouched.
    rewrite Hsort in Htouched. contradiction.
  - pose proof (sorted_head_latest l h rest Hsort _ Htouched) as Hlate.
    cbn [viewed lastViewed] in Hlate.
    assert (Hh : In h l).
    { apply (Permutation_in _ (SortFacts.sort_perm viewedLater l)).
      rewrite Hsort. now left. }
    apply in_map_iff in Hh. destruct Hh as [c [Hc Hinc]].
    exists c, rest. unfold touch in Hc.
    destruct (hasAddress a c) eqn:Ha.
    + unfold hasAddress in Ha. apply String.eqb_eq in Ha.
      repeat split; trivial. rewrite <- Hc, Ha. reflexivity.
    + subst h. specialize (Hclock c Hinc). lia.
Qed.

Lemma opened_chat_moves_to_front_witness :
  let s := {| chats := [{| address := "So11"; name := Some "first"%string;
                           lastViewed := Some 70%Z |};
                        {| address := "So12"; name := None;
                           lastViewed := Some 20%Z |};
                        {| address := "So13"; name := None;
                           lastViewed := None |}];
              newAddress := EmptyString; showAddForm := false |} in
  let r := handleOpenChat (fun x => x) "So12" 90%Z
             {| savedChats := None; tokenCA := None |} s in
  map address (chats (snd (fst r))) = ["So12"; "So11"; "So13"]%string
  /\ Middleware.middleware (snd r)
     = Middleware.redirect
         {| Middleware.pathname := "/waifu";
            Middleware.search := "?ca=So12" |} 301.
Proof.
  intros s r. split; [reflexivity|].
  refine (proj2 (proj2 (opened_chat_moves_to_front (fun x => x) "So12" 90%Z
                          {| savedChats := None; tokenCA := None |} s _ _))).
  - simpl. right. left. reflexivity.
  - intros c Hc. simpl in Hc.
    destruct Hc as [<-|[<-|[<-|[]]]]; vm_compute; reflexivity.
Defined.

(** X23: An address submitted in the landing form is listed when the chat
    list is next loaded, every chat of that address carries the time of the
    submission, the legacy key holds the address, and the page asked for is
    [/waifu] itself, which the middleware lets through. *)
Theorem submitted_address_is_listed (trim enc : string -> string)
  (contractAddress : string) (now now' : Z) (ls : LocalStorage) :
  trim contractAddress <> EmptyString ->
  let r := HomeHero.handleSubmit trim enc contractAddress now ls in
  let st := loadChats now' (fst r) mounted in
  In (trim contractAddress) (map address (chats (snd st)))
  /\ (forall c, In c (chats (snd st)) ->
        address c = trim contractAddress -> lastViewed c = Some now)
  /\ tokenCA (fst st) = Some (trim contractAddress)
  /\ exists url, snd r = Some url
                 /\ Middleware.middleware url = Middleware.next.
Proof.
  intros Hne r st. subst st r. unfold HomeHero.handleSubmit.
  assert (Ht : truthy_str (Some (trim contractAddress)) = true)
    by (destruct (trim contractAddress); [congruence|reflexivity]).
  rewrite Ht. cbn [fst snd loadChats savedChats setChats chats tokenCA].
  set (a := trim contractAddress) in *.
  set (l := match savedChats ls with
            | Some (chatsJson parsed) => parsed
            | _ => []
            end).
  split; [|split; [|split; [reflexivity|eexists; split; reflexivity]]].
  - destruct (existsb (hasAddress a) l) eqn:Hex; cbn [negb].
    + rewrite map_touch_addresses.
      apply existsb_exists in Hex. destruct Hex as [c [Hin Hc]].
      apply in_map_iff. exists c. split; [|exact Hin].
      unfold hasAddress in Hc. now apply String.eqb_eq.
    + rewrite map_app. apply in_or_app. right. now left.
  - intros c Hin Hc.
    destruct (existsb (hasAddress a) l) eqn:Hex; cbn [negb] in Hin.
    + apply in_map_iff in Hin. destruct Hin as [c0 [Hc0 Hin0]].
      subst c. rewrite touch_address in Hc. unfold touch, hasAddress.
      rewrite Hc, String.eqb_refl. reflexivity.
    + apply in_app_or in Hin. destruct Hin as [Hin|[<-|[]]]; [|reflexivity].
      exfalso. apply (absent_address a l Hex).
      apply in_map_iff. now exists c.
Qed.

Lemma submitted_address_is_listed_witness :
  let r := HomeHero.handleSubmit (fun x => x) (fun x => x) "So11" 30%Z
             {| savedChats := Some unparsable; tokenCA := None |} in
  In "So11"%string
     (map address (chats (snd (loadChats 40%Z (fst r) mounted)))).
Proof.
  intros r.
  refine (proj1 (submitted_address_is_listed (fun x => x) (fun x => x) "So11"
                   30%Z 40%Z
                   {| savedChats := Some unparsable; tokenCA := None |} _)).
  simpl. discriminate.
Defined.

End ChatListSpec.

(** * The client's one-shot fetch and the page load *)

Module ClientFetchSpec.
Import Js JsFacts Upstream AggregatorSpec JupiterClient JupiterFetch.
Local Open Scope Q_scope.







End ClientFetchSpec.

Module PageLoadSpec.
Import Js JsFacts Upstream AggregatorSpec JupiterClient JupiterFetch.
Import Classifier WaifuTracker TrackerFetch.
Local Open Scope Q_scope.



(** What a stream frame cannot touch: the keys the server does not send. *)
Lemma frame_keeps_identity (now : Z) (ud : WsToken.UpdateData) (s : State)
  (d0 : TokenData) :
  tokenData s = Some d0 ->
  exists d,
    tokenData (handleRealtimeUpdate now (parseData ud) s) = Some d
    /\ address d = address d0 /\ name d = name d0 /\ symbol d = symbol d0
    /\ logoURI d = logoURI d0 /\ lastUpdated d = lastUpdated d0.
Proof.
  intros Hprev. unfold handleRealtimeUpdate.
  destruct (now - lastUpdate s <? UPDATE_THROTTLE_MS)%Z.
  - exists d0. now repeat split.
  - cbn [tokenData]. rewrite Hprev. unfold mergeUpdate.
    destruct (if shouldTriggerMessage _ _ then _ else _) as [refs' out].
    cbn [tokenData]. eexists. split; [reflexivity|].
    unfold recomputeMarketCap.
    destruct (gt_opt _ 0 && gt_opt _ 0)%bool; cbn; now repeat split.
Qed.

(** X26: Once the component holds token data, stream frames never remove
    them and never change the address, name, symbol, logo or [lastUpdated]
    stamp they were fetched with, however many frames arrive and whenever:
    the frames of the ws-token route carry none of these keys. *)
Theorem stream_frames_keep_fetched_identity
  (frames : list (Z * WsToken.UpdateData)) (s : State) (d0 : TokenData) :
  tokenData s = Some d0 ->
  exists d,
    tokenData (TrackerRun.updates
                 (map (fun f => (fst f, parseData (snd f))) frames) s)
    = Some d
    /\ address d = address d0 /\ name d = name d0 /\ symbol d = symbol d0
    /\ logoURI d = logoURI d0 /\ lastUpdated d = lastUpdated d0.
Proof.
  revert s d0. unfold TrackerRun.updates.
  induction frames as [|[now ud] frames IH]; intros s d0 Hprev.
  - exists d0. now repeat split.
  - cbn [map fold_left fst snd].
    destruct (frame_keeps_identity now ud s d0 Hprev)
      as [d1 [H1 [Ha [Hn [Hs [Hl Hu]]]]]].
    destruct (IH _ d1 H1) as [d [H [Ha' [Hn' [Hs' [Hl' Hu']]]]]].
    exists d. repeat split; congruence.
Qed.

Lemma stream_frames_keep_fetched_identity_witness :
  exists d,
    tokenData
      (TrackerRun.updates
         (map (fun f => (fst f, parseData (snd f)))
              [(1700000001000%Z,
                StreamSpec.snapshotOf
                  {| WsToken.price := 2; WsToken.change24h := 1;
                     WsToken.volume24h := 50; WsToken.supply := 0;
                     WsToken.decimals := 9 |} 1700000000900%Z)])
         ClientSpec.tracking)
    = Some d
    /\ address d = address ClientSpec.fetchedToken
    /\ name d = name ClientSpec.fetchedToken
    /\ symbol d = symbol ClientSpec.fetchedToken
    /\ logoURI d = logoURI ClientSpec.fetchedToken
    /\ lastUpdated d = lastUpdated ClientSpec.fetchedToken.
Proof.
  apply stream_frames_keep_fetched_identity. reflexivity.
Defined.

End PageLoadSpec.

(** * The message route and the chat *)

Module MessageRouteSpec.
Import Js GenerateMessage.
Local Open Scope Z_scope.

Lemma respond_cases (s : Z) (b : Body) :
  (respond s b = {| status := s; body := b |} /\ 200 <= s <= 599)
  \/ respond s b = internalError.
Proof.
  unfold respond.
  destruct (200 <=? s) eqn:H1; [|now right].
  destruct (s <=? 599) eqn:H2; [|now right].
  destruct (nullBodyStatus s); [now right|].
  left. split; [reflexivity|]. apply Z.leb_le in H1, H2. lia.
Qed.

Lemma truthy_nonempty (m : string) :
  truthy_str (Some m) = true -> m <> EmptyString.
Proof. destruct m; [discriminate|congruence]. Qed.

(** The two kinds of answers of the route: the trimmed, non-empty content
    of a completion OpenRouter served with an ok status, under status 200;
    or an error body under a status of 201..599. *)
Lemma POST_cases (trim : string -> string) (env : Env)
  (request : option Request) (upstream : OpenRouter) :
  (exists a content,
      upstream = Responded a
      /\ Upstream.ok (a_status a) = true
      /\ completion a = Upstream.Doc (Some content)
      /\ trim content <> EmptyString
      /\ truthy_str (or_str (OPENROUTER_API_KEY env) (OPENROUTER_API env))
         = true
      /\ request <> None
      /\ POST trim env request upstream
         = {| status := 200; body := MessageBody (trim content) |})
  \/ (exists err,
        body (POST trim env request upstream) = ErrorBody err
        /\ 200 < status (POST trim env request upstream) <= 599).
Proof.
  assert (Hint : exists err,
             body internalError = ErrorBody err
             /\ 200 < status internalError <= 599)
    by (eexists; split; [reflexivity|cbn; lia]).
  unfold POST.
  destruct request as [req|]; [|now right].
  destruct (truthy_str (or_str (OPENROUTER_API_KEY env) (OPENROUTER_API env)))
    eqn:Hkey; cbn [negb].
  2:{ right. eexists. split; [reflexivity|cbn; lia]. }
  destruct upstream as [|a]; [now right|].
  destruct (Upstream.ok (a_status a)) eqn:Hok; cbn [negb].
  - destruct (completion a) as [msg|[content|]] eqn:Hc.
    + now right.
    + cbn [option_map].
      destruct (truthy_str (Some (trim content))) eqn:Ht.
      * left. exists a, content. repeat split; trivial.
        -- now apply truthy_nonempty.
        -- discriminate.
      * right. eexists. split; [reflexivity|cbn; lia].
    + right. eexists. split; [reflexivity|cbn; lia].
  - destruct (a_status a =? 402) eqn:H402.
    + right. eexists. split; [reflexivity|cbn; lia].
    + destruct (textFails a); [now right|].
      destruct (respond_cases (a_status a)
                  (ErrorBody "Failed to generate message")) as [[-> Hr]| ->];
        [|now right].
      right. eexists. split; [reflexivity|]. cbn [status].
      unfold Upstream.ok in Hok. apply andb_false_iff in Hok.
      destruct Hok as [Hok|Hok]; [apply Z.leb_gt in Hok|apply Z.leb_gt in Hok];
        lia.
Qed.

(** X27: The message route answers with status 200 exactly when its body
    carries a message; that message is never empty, and it is the trimmed
    content of a completion OpenRouter served with an ok status to a route
    that has an API key.  Every other answer is an error body whose status
    lies in 201..599. *)
Theorem POST_status_200_iff_message (trim : string -> string) (env : Env)
  (request : option Request) (upstream : OpenRouter) :
  let r := POST trim env request upstream in
  (status r = 200 <-> exists m, body r = MessageBody m)
  /\ (forall m, body r = MessageBody m ->
        m <> EmptyString
        /\ truthy_str (or_str (OPENROUTER_API_KEY env) (OPENROUTER_API env))
           = true
        /\ exists a content,
             upstream = Responded a /\ Upstream.ok (a_status a) = true
             /\ completion a = Upstream.Doc (Some content)
             /\ m = trim content)
  /\ 200 <= status r <= 599.
Proof.
  intros r. subst r.
  destruct (POST_cases trim env request upstream)
    as [[a [content [Hup [Hok [Hc [Hne [Hkey [_ ->]]]]]]]]
       |[err [Hbody Hstatus]]].
  - cbn [status body]. split; [|split].
    + split; [intros _; now eexists|reflexivity].
    + intros m [= <-]. repeat split; trivial.
      exists a, content. now repeat split.
    + lia.
  - rewrite Hbody. split; [|split].
    + split; [lia|]. intros [m Hm]. discriminate.
    + intros m Hm. discriminate.
    + lia.
Qed.

End MessageRouteSpec.

Module ChatSpec.
Import Js JupiterClient Chat.
Local Open Scope Q_scope.

Lemma pick_from_pool (random : number) (responses : list string) :
  0 <= random -> random < 1 -> responses <> [] ->
  exists t, pick random responses = Some t /\ In t responses.
Proof.
  intros H0 H1 Hne. unfold pick.
  set (n := Z.of_nat (List.length responses)).
  assert (Hn : (0 < n)%Z)
    by (subst n; destruct responses; [congruence|simpl; lia]).
  assert (HnQ : 0 < inject_Z n) by (change 0 with (inject_Z 0);
                                    now rewrite <- Zlt_Qlt).
  set (i := Qfloor (random * inject_Z n)).
  assert (Hlo : (0 <= i)%Z).
  { change 0%Z with (Qfloor 0). apply Qfloor_resp_le.
    apply Qmult_le_0_compat; [exact H0|now apply Qlt_le_weak]. }
  assert (Hhi : (i < n)%Z).
  { destruct (Z_lt_le_dec i n) as [|Hge]; [assumption|exfalso].
    pose proof (Qfloor_le (random * inject_Z n)) as Hfl. fold i in Hfl.
    rewrite Zle_Qle in Hge.
    assert (random * inject_Z n < 1 * inject_Z n)
      by (apply Qmult_lt_compat_r; assumption).
    lra. }
  destruct (Z.ltb_spec i 0); [lia|].
  destruct (nth_error responses (Z.to_nat i)) as [t|] eqn:Hnth.
  - exists t. split; [reflexivity|]. now apply nth_error_In in Hnth.
  - apply nth_error_None in Hnth. subst n. lia.
Qed.

Lemma pools_are_stocked (e : Emotion) :
  MOCK_RESPONSES e <> []
  /\ forall t, In t (MOCK_RESPONSES e) -> t <> EmptyString.
Proof.
  split.
  - destruct e; discriminate.
  - intros t Hin.
    destruct e; cbn in Hin;
      repeat (destruct Hin as [<-|Hin]; [discriminate|]); contradiction.
Qed.

Lemma accepted_nonempty (response : Upstream.HttpResult GenerateMessage.Body)
  (m : string) : accepted response = Some m -> m <> EmptyString.
Proof.
  unfold accepted.
  destruct response as [|status [|[|m']]]; try discriminate.
  destruct (Upstream.ok status); cbn [andb]; [|discriminate].
  destruct (truthy_str (Some m')) eqn:Ht; [|discriminate].
  intros [= <-]. now apply MessageRouteSpec.truthy_nonempty.
Qed.

(** X28: Every announcement adds exactly one message at the end of the
    chat, after the last nine of the messages before it; the message
    carries the announced emotion and the time it was added, and its text
    is never missing or empty: it is the message of the response when the
    response is ok and has one, and otherwise one of the canned lines of
    the announced emotion. *)
Theorem announcement_adds_one_message (now : Z) (random : number)
  (newEmotion : Emotion)
  (response : Upstream.HttpResult GenerateMessage.Body)
  (messages : list Message) :
  0 <= random -> random < 1 ->
  exists t,
    generateMessage now random newEmotion response messages
    = JsArray.slice_last 9 messages
      ++ [{| text := Some t; m_emotion := newEmotion; m_timestamp := now |}]
    /\ t <> EmptyString
    /\ match accepted response with
       | Some m => t = m
       | None => In t (MOCK_RESPONSES newEmotion)
       end.
Proof.
  intros H0 H1. unfold generateMessage.
  destruct (accepted response) as [m|] eqn:Hacc.
  - exists m. repeat split. now apply (accepted_nonempty response).
  - destruct (pools_are_stocked newEmotion) as [Hne Hall].
    destruct (pick_from_pool random _ H0 H1 Hne) as [t [Hpick Hin]].
    rewrite Hpick. exists t. repeat split; auto.
Qed.

Lemma announcement_adds_one_message_witness :
  exists t,
    generateMessage 1700000000000%Z (3 # 4) sad (Upstream.Rejected "offline")
      []
    = JsArray.slice_last 9 []
      ++ [{| text := Some t; m_emotion := sad;
             m_timestamp := 1700000000000%Z |}]
    /\ t <> EmptyString
    /\ match accepted (Upstream.Rejected "offline") with
       | Some m => t = m
       | None => In t (MOCK_RESPONSES sad)
       end.
Proof.
  apply announcement_adds_one_message; [discriminate|reflexivity].
Defined.

(** X29: Asked through the message route of this repository, the chat
    shows the model's reply only when the route has an API key and
    OpenRouter served, with an ok status, a completion whose trimmed content
    is not empty: the text is then that trimmed content.  In every other
    case (no key, credits exhausted, an upstream error, an empty reply) the
    text is one of the canned lines of the announced emotion. *)
Theorem chat_shows_reply_or_canned_line (trim : string -> string)
  (env : GenerateMessage.Env) (upstream : GenerateMessage.OpenRouter)
  (latestTokenData : option TokenData)
  (now : Z) (random : number) (newEmotion : Emotion)
  (messages : list Message) :
  0 <= random -> random < 1 ->
  exists t,
    generateMessage now random newEmotion
      (askRoute trim env upstream newEmotion latestTokenData) messages
    = JsArray.slice_last 9 messages
      ++ [{| text := Some t; m_emotion := newEmotion; m_timestamp := now |}]
    /\ ((exists a content,
           upstream = GenerateMessage.Responded a
           /\ Upstream.ok (GenerateMessage.a_status a) = true
           /\ GenerateMessage.completion a = Upstream.Doc (Some content)
           /\ truthy_str (or_str (GenerateMessage.OPENROUTER_API_KEY env)
                            (GenerateMessage.OPENROUTER_API env)) = true
           /\ t = trim content /\ t <> EmptyString)
        \/ (GenerateMessage.status
              (GenerateMessage.POST trim env
                 (Some (requestOf newEmotion latestTokenData)) upstream)
            <> 200%Z
            /\ In t (MOCK_RESPONSES newEmotion))).
Proof.
  intros H0 H1. unfold generateMessage, askRoute.
  destruct (MessageRouteSpec.POST_cases trim env
              (Some (requestOf newEmotion latestTokenData)) upstream)
    as [[a [content [Hup [Hok [Hc [Hne [Hkey [_ Hpost]]]]]]]]
       |[err [Hbody Hstatus]]].
  - rewrite Hpost. cbn [GenerateMessage.status GenerateMessage.body accepted].
    replace (Upstream.ok 200) with true by reflexivity. cbn [andb].
    assert (Ht : truthy_str (Some (trim content)) = true)
      by (destruct (trim content); [congruence|reflexivity]).
    rewrite Ht. exists (trim content). split; [reflexivity|].
    left. exists a, content. now repeat split.
  - cbn [accepted]. rewrite Hbody.
    destruct (pools_are_stocked newEmotion) as [Hne Hall].
    destruct (pick_from_pool random _ H0 H1 Hne) as [t [Hpick Hin]].
    rewrite Hpick. exists t. split; [reflexivity|].
    right. split; [lia|exact Hin].
Qed.

Lemma chat_shows_reply_or_canned_line_witness :
  exists t,
    generateMessage 1700000000000%Z (1 # 4) happy
      (askRoute (fun s => s)
         {| GenerateMessage.OPENROUTER_API_KEY := None;
            GenerateMessage.OPENROUTER_API := None |}
         GenerateMessage.Rejected happy None) []
    = JsArray.slice_last 9 []
      ++ [{| text := Some t; m_emotion := happy;
             m_timestamp := 1700000000000%Z |}]
    /\ ((exists a content,
           GenerateMessage.Rejected = GenerateMessage.Responded a
           /\ Upstream.ok (GenerateMessage.a_status a) = true
           /\ GenerateMessage.completion a = Upstream.Doc (Some content)
           /\ truthy_str (or_str None None) = true
           /\ t = content /\ t <> EmptyString)
        \/ (GenerateMessage.status
              (GenerateMessage.POST (fun s => s)
                 {| GenerateMessage.OPENROUTER_API_KEY := None;
                    GenerateMessage.OPENROUTER_API := None |}
                 (Some (requestOf happy None)) GenerateMessage.Rejected)
            <> 200%Z
            /\ In t (MOCK_RESPONSES happy))).
Proof.
  apply (chat_shows_reply_or_canned_line (fun s => s)
           {| GenerateMessage.OPENROUTER_API_KEY := None;
              GenerateMessage.OPENROUTER_API := None |}
           GenerateMessage.Rejected None 1700000000000%Z (1 # 4) happy []);
    [discriminate|reflexivity].
Defined.




End ChatSpec.
